(** * wmi_exporter: collectors and the SMART attribute decoder

    A shallow embedding of the collectors of [collector/smart.go],
    [collector/dfsr.go], [collector/container.go] and the network
    interface collector, with the properties the specification states
    about them.

    Conventions.
    - A Go [string] is a Rocq [string] (a byte sequence).
    - A Go [int] or [uint64] is a [Z]; the one place where an [int] is
      incremented without an a-priori bound writes its wrap-around out.
    - A [float64] is a primitive binary64 float.
    - [ch <- m] appends [m] to the list of samples sent so far.
    - A call into a collaborator (WMI, HCS, perflib unmarshalling, the
      clock) is an argument giving the collaborator's answer. *)

From Stdlib Require Import ZArith Lia Ascii PrimFloat FloatOps SpecFloat.
From Equations Require Import Equations.
From stdpp Require Import functions gmap strings list.

Open Scope Z_scope.

(** ** Go and client_golang vocabulary *)

Definition float64 := PrimFloat.float.

(** [float64(x)] for an integer [x]: round to nearest, ties to even. *)
Definition float64_of_Z (z : Z) : float64 :=
  SF2Prim (binary_normalize 53 1024 z 0 false).

(** A Go [error] value is its message; [nil] is [None]. *)
Definition error := string.

(** [prometheus.BuildFQName]: the non-empty parts joined by underscores;
    an empty name gives the empty string. *)
Definition BuildFQName (namespace subsystem name : string) : string :=
  if decide (name = "") then ""
  else if decide (namespace <> "" /\ subsystem <> "")
       then namespace +:+ "_" +:+ subsystem +:+ "_" +:+ name
  else if decide (namespace <> "") then namespace +:+ "_" +:+ name
  else if decide (subsystem <> "") then subsystem +:+ "_" +:+ name
  else name.

(** [prometheus.Desc] as built by [prometheus.NewDesc] with no constant
    labels. *)
Record Desc := NewDesc {
  fqName : string;
  help : string;
  variableLabels : list string
}.

#[global] Instance Desc_eq_dec : EqDecision Desc.
Proof. solve_decision. Defined.

Inductive ValueType := CounterValue | GaugeValue.

#[global] Instance ValueType_eq_dec : EqDecision ValueType.
Proof. solve_decision. Defined.

(** The sample [prometheus.MustNewConstMetric desc valueType value
    labelValues...] builds. *)
Record Metric := MustNewConstMetric {
  desc : Desc;
  valueType : ValueType;
  value : float64;
  labelValues : list string
}.

(** The cardinality [prometheus.MustNewConstMetric] checks (it panics on
    a mismatch): as many label values as the descriptor has variable
    labels. *)
Definition labelled (m : Metric) : Prop :=
  length (labelValues m) = length (variableLabels (desc m)).

(** ** Results of code that can panic *)

(** [Panic idx len] is the run-time panic "index out of range [idx] with
    length len". *)
Inductive result (A : Type) : Type :=
  | Ok (a : A)
  | Panic (idx len : Z).
Arguments Ok {A} a.
Arguments Panic {A} idx len.

Definition bind {A B} (r : result A) (k : A -> result B) : result B :=
  match r with
  | Ok a => k a
  | Panic idx len => Panic idx len
  end.

Notation "x <- r ;; k" := (bind r (fun x => k))
  (at level 100, r at next level, right associativity).

(** [len(s)] and [s[i]] on a byte slice. *)
Definition len {A} (s : list A) : Z := Z.of_nat (length s).

Definition uint8 := Byte.byte.

Definition int_of_uint8 (b : uint8) : Z := Z.of_N (Byte.to_N b).

Definition index (s : list uint8) (i : Z) : result Z :=
  if (0 <=? i) && (i <? len s)
  then match s !! Z.to_nat i with
       | Some b => Ok (int_of_uint8 b)
       | None => Panic i (len s)
       end
  else Panic i (len s).

(** Bytes of a slice literal, for examples. *)
Definition uint8s (l : list Z) : list uint8 :=
  (fun z => default Byte.x00 (Byte.of_N (Z.to_N z))) <$> l.

(** ** The SMART collector ([collector/smart.go]) *)

Module Smart.

(** The [int] locals of [collect] that the scan of [VendorSpecific]
    assigns. None of them can leave the range of an [int]: each is a sum
    of at most five byte products, or is incremented at most twice per
    record scanned. *)
Inductive var :=
  | rawreaderror | attrcriterror | hddattrcriterror | dmacrcerror
  | softreaderror
  | programfailcount | erasefailcount | programfailcount2 | erasefailcount2
  | spinavg | reallocatedsectors | spinretry | reserveblocks | endtoend
  | commandtimeout
  | lifetimeremain | lbawrite
  | reallocationevent | pendingsectors | uncorrectablesectors
  | temperature | tempmax | tempmin.

#[global] Instance var_eq_dec : EqDecision var.
Proof. solve_decision. Defined.

(** The locals: the [int]s by name, and the [float64] [poh]. *)
Record locals := mkLocals {
  ints : var -> Z;
  poh : float64
}.

Definition get (x : var) (s : locals) : Z := ints s x.

Definition set (x : var) (v : Z) (s : locals) : locals :=
  mkLocals (<[x := v]> (ints s)) (poh s).

Definition set_poh (f : float64) (s : locals) : locals :=
  mkLocals (ints s) f.

(** [x = x + 1] *)
Definition incr (x : var) (s : locals) : locals := set x (get x s + 1) s.

(** All locals as declared before the scan: [0], and [poh := 0.]. *)
Definition declared : locals := mkLocals (fun _ => 0) 0%float.

Definition poharg : string := "hour".

(** The first [switch i3]: [vendec]. In Go [^] is bitwise exclusive or,
    so [16^8], [16^6], [16^4] and [16^2] are 24, 22, 20 and 18. *)
Definition vendec_of (i3 i8 i9 i10 i11 i12 : Z) : Z :=
  match i3 with
  | 4 | 9 | 193 | 195 | 200 | 225 | 241 | 242 | 246 =>
      i12 * (Z.lxor 16 8) + i11 * (Z.lxor 16 6) + i10 * (Z.lxor 16 4)
      + i9 * (Z.lxor 16 2) + i8
  | 194 => i8
  | _ => i9 * (Z.lxor 16 2) + i8
  end.

(** [if i6 <= t || i7 <= t { attrcriterror = attrcriterror + 1 }] *)
Definition below (t i6 i7 : Z) (s : locals) : locals :=
  if (i6 <=? t) || (i7 <=? t) then incr attrcriterror s else s.

(** [x = vendec; if x > 0 { y = y + 1 }] *)
Definition positive (x y : var) (vendec : Z) (s : locals) : locals :=
  let s := set x vendec s in
  if 0 <? get x s then incr y s else s.

(** The second [switch i3]: what each attribute id assigns. *)
Definition assign (i3 i6 i7 i10 i11 i12 vendec : Z) (s : locals) : locals :=
  match i3 with
  | 1 => below 50 i6 i7 (set rawreaderror vendec s)
  | 3 => below 50 i6 i7 (set spinavg (i11 * (Z.lxor 16 2) + i10) s)
  | 5 => below 10 i6 i7 (positive reallocatedsectors hddattrcriterror vendec s)
  | 7 => below 60 i6 i7 s
  | 9 =>
      if decide (poharg = "min")
      then set_poh (float64_of_Z vendec / 60)%float s
      else if decide (poharg = "sec")
      then set_poh (float64_of_Z vendec / 3600)%float s
      else set_poh (float64_of_Z vendec) s
  | 10 => positive spinretry attrcriterror vendec s
  | 170 => set reserveblocks vendec (below 10 i6 i7 s)
  | 171 => below 10 i6 i7 (positive programfailcount hddattrcriterror vendec s)
  | 172 => below 10 i6 i7 (positive erasefailcount hddattrcriterror vendec s)
  | 173 => below 10 i6 i7 s
  | 177 => below 10 i6 i7 s
  | 179 => below 10 i6 i7 s
  | 180 => set reserveblocks vendec s
  | 181 => below 10 i6 i7 (positive programfailcount2 hddattrcriterror vendec s)
  | 182 => below 10 i6 i7 (positive erasefailcount2 hddattrcriterror vendec s)
  | 183 => below 10 i6 i7 s
  | 184 => below 50 i6 i7 (positive endtoend attrcriterror vendec s)
  | 188 => positive commandtimeout attrcriterror vendec s
  | 194 => set tempmax i12 (set tempmin i10 (set temperature vendec s))
  | 196 => positive reallocationevent hddattrcriterror vendec s
  | 197 => positive pendingsectors attrcriterror vendec s
  | 198 => positive uncorrectablesectors attrcriterror vendec s
  | 199 => positive dmacrcerror attrcriterror vendec s
  | 200 => below 99 i6 i7 s
  | 201 => positive softreaderror attrcriterror vendec s
  | 202 => below 10 i6 i7 (set lifetimeremain i6 s)
  | 225 => set lbawrite vendec s
  | 226 => below 10 i6 i7 s
  | 230 => if i7 <=? 90 then incr attrcriterror s else s
  | 231 => below 10 i6 i7 (set lifetimeremain i6 s)
  | 232 => below 10 i6 i7 s
  | 233 => below 10 i6 i7 (set lifetimeremain i6 s)
  | 241 => set lbawrite vendec s
  | 246 => set lbawrite vendec s
  | _ => s
  end.

(** What the scan writes with [log.Println]. *)
Inductive logline :=
  | unexpected_smart (v : Z).

(** How one pass through the body of the [for] loop ends: at [break], or
    at the end of the body or a [continue] (both go on to [i += 12]). *)
Inductive flow := Break | Next.

(** The body of [for i := 0; i < len(disk.VendorSpecific); i += 12]. *)
Definition body (vs : list uint8) (i : Z) (s : locals)
  : result (flow * locals * list logline) :=
  v <- index vs i ;;
  if (v =? 0) || (v =? 16) then
    if len vs <? i + 7 then Ok (Break, s, [])
    else
      v <- index vs (i + 1) ;;
      if negb (v =? 0) then Ok (Next, s, [unexpected_smart v])
      else
        i3 <- index vs (i + 3) ;;
        i6 <- index vs (i + 6) ;;
        i7 <- index vs (i + 7) ;;
        raw <- (if len vs >=? i + 12 then
                  i8 <- index vs (i + 8) ;;
                  i9 <- index vs (i + 9) ;;
                  i10 <- index vs (i + 10) ;;
                  i11 <- index vs (i + 11) ;;
                  i12 <- index vs (i + 12) ;;
                  Ok (i8, i9, i10, i11, i12)
                else Ok (0, 0, 0, 0, 0)) ;;
        let '(i8, i9, i10, i11, i12) := raw in
        let vendec := vendec_of i3 i8 i9 i10 i11 i12 in
        Ok (Next, assign i3 i6 i7 i10 i11 i12 vendec s, [])
  else Ok (Next, s, []).

(** The [for] loop from index [i] on, with the locals [s] and the lines
    logged so far. *)
Equations? scan (vs : list uint8) (i : Z) (s : locals) (lg : list logline)
  : result (locals * list logline) by wf (Z.to_nat (len vs - i)) lt :=
  scan vs i s lg with decide (i < len vs) => {
    | right _ => Ok (s, lg)
    | left _ with body vs i s => {
        | Panic idx n => Panic idx n
        | Ok (Break, s', l) => Ok (s', lg ++ l)
        | Ok (Next, s', l) => scan vs (i + 12) s' (lg ++ l) } }.
Proof. lia. Qed.

(** The scan of one disk's [VendorSpecific] table. *)
Definition decode (vs : list uint8) : result (locals * list logline) :=
  scan vs 0 declared [].

(** *** The collector around the scan *)

Record SMARTCollector := mkSMARTCollector {
  SelfTestStatus : Desc;
  TotalTime : Desc;
  Capability : Desc
}.

(** [Namespace] is a constant of the package declared outside the files
    modelled here. *)
Definition NewSMARTCollector (Namespace : string) : SMARTCollector :=
  let subsystem := "smart" in
  {| SelfTestStatus :=
       NewDesc (BuildFQName Namespace subsystem "selftest_status")
         "The self test status code (SMART.SelfTestStatus)" ["volume"];
     TotalTime :=
       NewDesc (BuildFQName Namespace subsystem "total_time")
         "Total time used (SMART.TotalTime)" ["volume"];
     Capability :=
       NewDesc (BuildFQName Namespace subsystem "capability")
         "Smart capability (SMART.SmartCapability)" ["volume"] |}.

(** A row of the WMI class of the same name; the [uint64] fields are
    integers in [0, 2^64). *)
Module MSStorageDriver_ATAPISmartData.
Record t := mk {
  InstanceName : string;
  Active : bool;
  SelfTestStatus : Z;
  TotalTime : Z;
  SmartCapability : Z;
  VendorSpecific : list uint8
}.
End MSStorageDriver_ATAPISmartData.

(** The body of [for _, disk := range dst]: the samples sent for the disk
    and the lines its scan logs. A panic ends the collection. The lines
    the body prints after the scan (health, age, writes, temperature)
    are computed from the locals the scan leaves and change nothing
    else; they are not modelled. *)
Definition collect_disk (c : SMARTCollector)
    (disk : MSStorageDriver_ATAPISmartData.t)
  : result (list Metric * list logline) :=
  let volume := MSStorageDriver_ATAPISmartData.InstanceName disk in
  if negb (MSStorageDriver_ATAPISmartData.Active disk) then Ok ([], [])
  else
    r <- decode (MSStorageDriver_ATAPISmartData.VendorSpecific disk) ;;
    Ok ([ MustNewConstMetric (SelfTestStatus c) GaugeValue
            (float64_of_Z (MSStorageDriver_ATAPISmartData.SelfTestStatus disk))
            [volume];
          MustNewConstMetric (TotalTime c) GaugeValue
            (float64_of_Z (MSStorageDriver_ATAPISmartData.TotalTime disk))
            [volume];
          MustNewConstMetric (Capability c) GaugeValue
            (float64_of_Z (MSStorageDriver_ATAPISmartData.SmartCapability disk))
            [volume] ],
        r.2).

Fixpoint collect_disks (c : SMARTCollector)
    (dst : list MSStorageDriver_ATAPISmartData.t)
  : result (list Metric * list logline) :=
  match dst with
  | [] => Ok ([], [])
  | disk :: rest =>
      r <- collect_disk c disk ;;
      r' <- collect_disks c rest ;;
      Ok (r.1 ++ r'.1, r.2 ++ r'.2)
  end.

(** [collect]: [query] is what [wmi.QueryNamespace] answers, an error or
    the rows [dst]. The result is the samples sent on [ch], the lines
    logged, and the error returned. *)
Definition collect (c : SMARTCollector)
    (query : error + list MSStorageDriver_ATAPISmartData.t)
  : result (list Metric * list logline * option error) :=
  match query with
  | inl err => Ok ([], [], Some err)
  | inr dst => r <- collect_disks c dst ;; Ok (r.1, r.2, None)
  end.

(** [Collect] returns the error of [collect]. *)
Definition Collect (c : SMARTCollector)
    (query : error + list MSStorageDriver_ATAPISmartData.t)
  : result (option error) :=
  r <- collect c query ;; Ok r.2.

(** *** After the scan *)

Definition DiskOldAge : Z := 30000.

(** The test of [if poh > DiskOldAge], on the locals the scan leaves. *)
Definition old_age (s : locals) : bool :=
  (float64_of_Z DiskOldAge <? poh s)%float.

End Smart.

(** ** Runes of a string ([unicode/utf8]) *)

Module Utf8.

Abbreviation rune := Z (only parsing).

Definition RuneError : rune := 65533.

Definition bytes (s : string) : list Z :=
  (fun a => Z.of_N (Ascii.N_of_ascii a)) <$> String.list_ascii_of_string s.

Definition between (lo hi b : Z) : bool := (lo <=? b) && (b <=? hi).

(** [utf8.DecodeRuneInString] on a non-empty string whose first byte is
    [s0] and whose other bytes are [rest]: the rune and its width in
    bytes. An invalid or cut-off encoding is [RuneError] of width 1. *)
Definition DecodeRune (s0 : Z) (rest : list Z) : rune * nat :=
  if s0 <? 128 then (s0, 1%nat)
  else
    (* size and the range accepted for the second byte, by first byte *)
    let shape : option (nat * Z * Z) :=
      if between 194 223 s0 then Some (2%nat, 128, 191)
      else if s0 =? 224 then Some (3%nat, 160, 191)
      else if between 225 236 s0 then Some (3%nat, 128, 191)
      else if s0 =? 237 then Some (3%nat, 128, 159)
      else if between 238 239 s0 then Some (3%nat, 128, 191)
      else if s0 =? 240 then Some (4%nat, 144, 191)
      else if between 241 243 s0 then Some (4%nat, 128, 191)
      else if s0 =? 244 then Some (4%nat, 128, 143)
      else None in
    match shape with
    | None => (RuneError, 1%nat)
    | Some (sz, lo, hi) =>
        if (S (length rest) <? sz)%nat then (RuneError, 1%nat)
        else
          match rest with
          | s1 :: rest1 =>
              if negb (between lo hi s1) then (RuneError, 1%nat)
              else if (sz <=? 2)%nat
              then (Z.lor (Z.shiftl (Z.land s0 31) 6) (Z.land s1 63), 2%nat)
              else
                match rest1 with
                | s2 :: rest2 =>
                    if negb (between 128 191 s2) then (RuneError, 1%nat)
                    else if (sz <=? 3)%nat
                    then (Z.lor (Z.shiftl (Z.land s0 15) 12)
                            (Z.lor (Z.shiftl (Z.land s1 63) 6) (Z.land s2 63)),
                          3%nat)
                    else
                      match rest2 with
                      | s3 :: _ =>
                          if negb (between 128 191 s3) then (RuneError, 1%nat)
                          else (Z.lor (Z.shiftl (Z.land s0 7) 18)
                                  (Z.lor (Z.shiftl (Z.land s1 63) 12)
                                     (Z.lor (Z.shiftl (Z.land s2 63) 6)
                                        (Z.land s3 63))),
                                4%nat)
                      | [] => (RuneError, 1%nat)
                      end
                | [] => (RuneError, 1%nat)
                end
          | [] => (RuneError, 1%nat)
          end
    end.

(** The runes of a byte sequence, each with the bytes that encode it;
    [skip] bytes at the front belong to the rune before. *)
Fixpoint segments_from (skip : nat) (bs : list Z) : list (rune * list Z) :=
  match bs with
  | [] => []
  | b :: rest =>
      match skip with
      | S k => segments_from k rest
      | O =>
          let '(r, w) := DecodeRune b rest in
          (r, take w bs) :: segments_from (w - 1) rest
      end
  end.

Definition segments (s : string) : list (rune * list Z) :=
  segments_from 0 (bytes s).

(** The rune sequence a string is read as. *)
Definition runes (s : string) : list rune := (segments s).*1.

Definition string_of_bytes (bs : list Z) : string :=
  String.string_of_list_ascii
    ((fun b => Ascii.ascii_of_N (Z.to_N b)) <$> bs).

End Utf8.

(** ** Regular expressions ([regexp], [regexp/syntax])

    A pattern is its syntax tree; the operators are those of
    [regexp/syntax] that the collectors' patterns need, with the
    meaning they have under the flags [regexp.Compile] parses with. *)

Module Regexp.

Import Utf8.

Inductive syntax :=
  | OpEmptyMatch                                (* the empty pattern *)
  | OpLiteral (r : rune)
  | OpCharClass (neg : bool) (ranges : list (rune * rune))   (* [a-z], [^a-z] *)
  | OpAnyCharNotNL                              (* . *)
  | OpBeginText                                 (* ^ *)
  | OpEndText                                   (* $ *)
  | OpConcat (a b : syntax)
  | OpAlternate (a b : syntax)
  | OpStar (a : syntax)
  | OpPlus (a : syntax)
  | OpQuest (a : syntax).

Definition in_class (neg : bool) (ranges : list (rune * rune)) (c : rune)
  : bool :=
  xorb neg (existsb (fun '(lo, hi) => between lo hi c) ranges).

(** The positions reached from [i] by taking [step] any number of times;
    a step that does not advance reaches nothing new, and at most [fuel]
    steps can advance. *)
Fixpoint closure (step : nat -> list nat) (fuel : nat) (i : nat) : list nat :=
  i :: match fuel with
       | O => []
       | S fuel' =>
           j ← step i;
           if (i <? j)%nat then closure step fuel' j else []
       end.

(** [ends re text i]: every position [j] such that [re] matches the
    runes of [text] from position [i] up to position [j]. *)
Fixpoint ends (re : syntax) (text : list rune) (i : nat) : list nat :=
  match re with
  | OpEmptyMatch => [i]
  | OpLiteral r =>
      match text !! i with
      | Some c => if c =? r then [S i] else []
      | None => []
      end
  | OpCharClass neg ranges =>
      match text !! i with
      | Some c => if in_class neg ranges c then [S i] else []
      | None => []
      end
  | OpAnyCharNotNL =>
      match text !! i with
      | Some c => if c =? 10 then [] else [S i]
      | None => []
      end
  | OpBeginText => if (i =? 0)%nat then [i] else []
  | OpEndText => if (i =? length text)%nat then [i] else []
  | OpConcat a b => j ← ends a text i; ends b text j
  | OpAlternate a b => ends a text i ++ ends b text i
  | OpStar a => closure (ends a text) (length text) i
  | OpPlus a => j ← ends a text i; closure (ends a text) (length text) j
  | OpQuest a => i :: ends a text i
  end.

(** [re.MatchString(s)]: the pattern matches somewhere in [s]. *)
Definition MatchString (re : syntax) (s : string) : bool :=
  let text := runes s in
  existsb (fun i => negb (bool_decide (ends re text i = [])))
    (seq 0 (S (length text))).

(** What it is for a pattern to match the runes of [text] from position
    [i] up to position [j]. *)
Inductive matches (text : list rune) : syntax -> nat -> nat -> Prop :=
  | matches_empty i : matches text OpEmptyMatch i i
  | matches_literal r i :
      text !! i = Some r -> matches text (OpLiteral r) i (S i)
  | matches_class neg ranges c i :
      text !! i = Some c -> in_class neg ranges c = true ->
      matches text (OpCharClass neg ranges) i (S i)
  | matches_any c i :
      text !! i = Some c -> c <> 10 -> matches text OpAnyCharNotNL i (S i)
  | matches_begin : matches text OpBeginText 0 0
  | matches_end : matches text OpEndText (length text) (length text)
  | matches_concat a b i k j :
      matches text a i k -> matches text b k j ->
      matches text (OpConcat a b) i j
  | matches_left a b i j :
      matches text a i j -> matches text (OpAlternate a b) i j
  | matches_right a b i j :
      matches text b i j -> matches text (OpAlternate a b) i j
  | matches_star_none a i : matches text (OpStar a) i i
  | matches_star_more a i k j :
      matches text a i k -> matches text (OpStar a) k j ->
      matches text (OpStar a) i j
  | matches_plus a i k j :
      matches text a i k -> matches text (OpStar a) k j ->
      matches text (OpPlus a) i j
  | matches_quest_none a i : matches text (OpQuest a) i i
  | matches_quest_one a i j :
      matches text a i j -> matches text (OpQuest a) i j.

(** The pattern matches [s] from its first rune to its last. *)
Definition matches_in_full (re : syntax) (s : string) : Prop :=
  matches (runes s) re 0%nat (length (runes s)).

(** [re.ReplaceAllString(s, repl)] for a pattern [re] that is one
    character class: every rune of the class is replaced by [repl], and
    the bytes of every other rune are kept. *)
Definition ReplaceAllString_class (neg : bool) (ranges : list (rune * rune))
    (s repl : string) : string :=
  string_of_bytes
    ('(r, enc) ← segments s;
     if in_class neg ranges r then bytes repl else enc).

(** The pattern that matches exactly the runes of [s]. *)
Definition literal (s : string) : syntax :=
  foldr (fun r re => OpConcat (OpLiteral r) re) OpEmptyMatch (runes s).

End Regexp.

(** ** The network interface collector *)

Module Net.

Import Utf8 Regexp.

Record NetworkCollector := mkNetworkCollector {
  BytesReceivedTotal : Desc;
  BytesSentTotal : Desc;
  BytesTotal : Desc;
  PacketsOutboundDiscarded : Desc;
  PacketsOutboundErrors : Desc;
  PacketsReceivedDiscarded : Desc;
  PacketsReceivedErrors : Desc;
  PacketsReceivedTotal : Desc;
  PacketsReceivedUnknown : Desc;
  PacketsTotal : Desc;
  PacketsSentTotal : Desc;
  nicWhitelistPattern : syntax;
  nicBlacklistPattern : syntax
}.

(** [nicNameToUnderscore], the pattern [[^a-zA-Z0-9]]. *)
Definition nicNameToUnderscore_ranges : list (rune * rune) :=
  [(97, 122); (65, 90); (48, 57)].

Definition nicNameToUnderscore : syntax :=
  OpCharClass true nicNameToUnderscore_ranges.

(** The pattern [fmt.Sprintf("^(?:%s)$", p)] compiles to, for a flag
    value that is itself a pattern with syntax tree [p]. *)
Definition anchored (p : syntax) : syntax :=
  OpConcat OpBeginText (OpConcat p OpEndText).

(** [NewNetworkCollector]. [nicWhitelist] and [nicBlacklist] are the
    syntax trees of the two flags' values; [Namespace] is a constant of
    the package declared outside the files modelled here. *)
Definition NewNetworkCollector (Namespace : string)
    (nicWhitelist nicBlacklist : syntax) : NetworkCollector :=
  let subsystem := "net" in
  {| BytesReceivedTotal :=
       NewDesc (BuildFQName Namespace subsystem "bytes_received_total")
         "(Network.BytesReceivedPerSec)"
         ["nic"];
     BytesSentTotal :=
       NewDesc (BuildFQName Namespace subsystem "bytes_sent_total")
         "(Network.BytesSentPerSec)"
         ["nic"];
     BytesTotal :=
       NewDesc (BuildFQName Namespace subsystem "bytes_total")
         "(Network.BytesTotalPerSec)"
         ["nic"];
     PacketsOutboundDiscarded :=
       NewDesc (BuildFQName Namespace subsystem "packets_outbound_discarded")
         "(Network.PacketsOutboundDiscarded)"
         ["nic"];
     PacketsOutboundErrors :=
       NewDesc (BuildFQName Namespace subsystem "packets_outbound_errors")
         "(Network.PacketsOutboundErrors)"
         ["nic"];
     PacketsReceivedDiscarded :=
       NewDesc (BuildFQName Namespace subsystem "packets_received_discarded")
         "(Network.PacketsReceivedDiscarded)"
         ["nic"];
     PacketsReceivedErrors :=
       NewDesc (BuildFQName Namespace subsystem "packets_received_errors")
         "(Network.PacketsReceivedErrors)"
         ["nic"];
     PacketsReceivedTotal :=
       NewDesc (BuildFQName Namespace subsystem "packets_received_total")
         "(Network.PacketsReceivedPerSec)"
         ["nic"];
     PacketsReceivedUnknown :=
       NewDesc (BuildFQName Namespace subsystem "packets_received_unknown")
         "(Network.PacketsReceivedUnknown)"
         ["nic"];
     PacketsTotal :=
       NewDesc (BuildFQName Namespace subsystem "packets_total")
         "(Network.PacketsPerSec)"
         ["nic"];
     PacketsSentTotal :=
       NewDesc (BuildFQName Namespace subsystem "packets_sent_total")
         "(Network.PacketsSentPerSec)"
         ["nic"];
     nicWhitelistPattern := anchored nicWhitelist;
     nicBlacklistPattern := anchored nicBlacklist |}.

(** [mangleNetworkName]: [nicNameToUnderscore.ReplaceAllString(name, "_")]. *)
Definition mangleNetworkName (name : string) : string :=
  ReplaceAllString_class true nicNameToUnderscore_ranges name "_".

(** A row of the WMI class of the same name; the [uint64] fields are
    integers in [0, 2^64). *)
Module Win32_PerfRawData_Tcpip_NetworkInterface.
Record t := mk {
  BytesReceivedPerSec : Z;
  BytesSentPerSec : Z;
  BytesTotalPerSec : Z;
  Name : string;
  PacketsOutboundDiscarded : Z;
  PacketsOutboundErrors : Z;
  PacketsPerSec : Z;
  PacketsReceivedDiscarded : Z;
  PacketsReceivedErrors : Z;
  PacketsReceivedPerSec : Z;
  PacketsReceivedUnknown : Z;
  PacketsSentPerSec : Z
}.
End Win32_PerfRawData_Tcpip_NetworkInterface.

(** The body of [for _, nic := range dst]: the samples sent for [nic]. *)
Definition collect_nic (c : NetworkCollector)
    (nic : Win32_PerfRawData_Tcpip_NetworkInterface.t) : list Metric :=
  let Name := Win32_PerfRawData_Tcpip_NetworkInterface.Name nic in
  if MatchString (nicBlacklistPattern c) Name
     || negb (MatchString (nicWhitelistPattern c) Name)
  then []
  else
    let name := mangleNetworkName Name in
    if decide (name = "") then []
    else
      [ MustNewConstMetric (BytesReceivedTotal c) CounterValue
          (float64_of_Z (Win32_PerfRawData_Tcpip_NetworkInterface.BytesReceivedPerSec nic))
          [name];
        MustNewConstMetric (BytesSentTotal c) CounterValue
          (float64_of_Z (Win32_PerfRawData_Tcpip_NetworkInterface.BytesSentPerSec nic))
          [name];
        MustNewConstMetric (BytesTotal c) CounterValue
          (float64_of_Z (Win32_PerfRawData_Tcpip_NetworkInterface.BytesTotalPerSec nic))
          [name];
        MustNewConstMetric (PacketsOutboundDiscarded c) CounterValue
          (float64_of_Z (Win32_PerfRawData_Tcpip_NetworkInterface.PacketsOutboundDiscarded nic))
          [name];
        MustNewConstMetric (PacketsOutboundErrors c) CounterValue
          (float64_of_Z (Win32_PerfRawData_Tcpip_NetworkInterface.PacketsOutboundErrors nic))
          [name];
        MustNewConstMetric (PacketsTotal c) CounterValue
          (float64_of_Z (Win32_PerfRawData_Tcpip_NetworkInterface.PacketsPerSec nic))
          [name];
        MustNewConstMetric (PacketsReceivedDiscarded c) CounterValue
          (float64_of_Z (Win32_PerfRawData_Tcpip_NetworkInterface.PacketsReceivedDiscarded nic))
          [name];
        MustNewConstMetric (PacketsReceivedErrors c) CounterValue
          (float64_of_Z (Win32_PerfRawData_Tcpip_NetworkInterface.PacketsReceivedErrors nic))
          [name];
        MustNewConstMetric (PacketsReceivedTotal c) CounterValue
          (float64_of_Z (Win32_PerfRawData_Tcpip_NetworkInterface.PacketsReceivedPerSec nic))
          [name];
        MustNewConstMetric (PacketsReceivedUnknown c) CounterValue
          (float64_of_Z (Win32_PerfRawData_Tcpip_NetworkInterface.PacketsReceivedUnknown nic))
          [name];
        MustNewConstMetric (PacketsSentTotal c) CounterValue
          (float64_of_Z (Win32_PerfRawData_Tcpip_NetworkInterface.PacketsSentPerSec nic))
          [name] ].

(** [collect]: [query] is what [wmi.Query] answers, an error or the rows
    [dst]. The result is the samples sent on [ch] and the error
    returned. *)
Definition collect (c : NetworkCollector)
    (query : error + list Win32_PerfRawData_Tcpip_NetworkInterface.t)
  : list Metric * option error :=
  match query with
  | inl err => ([], Some err)
  | inr dst => (nic ← dst; collect_nic c nic, None)
  end.

(** [Collect] returns the error of [collect]. *)
Definition Collect (c : NetworkCollector)
    (query : error + list Win32_PerfRawData_Tcpip_NetworkInterface.t)
  : option error :=
  (collect c query).2.

End Net.


(** ** The container collector ([collector/container.go]) *)

Module Container.

Record ContainerMetricsCollector := mkContainerMetricsCollector {
  ContainerAvailable : Desc;
  UsageCommitBytes : Desc;
  UsageCommitPeakBytes : Desc;
  UsagePrivateWorkingSetBytes : Desc;
  TotalRuntime100ns : Desc;
  RuntimeUser100ns : Desc;
  RuntimeKernel100ns : Desc;
  BytesReceived : Desc;
  BytesSent : Desc;
  PacketsReceived : Desc;
  PacketsSent : Desc;
  DroppedPacketsIncoming : Desc;
  DroppedPacketsOutgoing : Desc
}.

(** [Namespace] is a constant of the package declared outside the files
    modelled here. *)
Definition NewContainerMetricsCollector (Namespace : string)
  : ContainerMetricsCollector :=
  let subsystem := "container" in
  {| ContainerAvailable :=
       NewDesc (BuildFQName Namespace subsystem "available")
         "Available"
         ["container_id"];
     UsageCommitBytes :=
       NewDesc (BuildFQName Namespace subsystem "memory_usage_commit_bytes")
         "Memory Usage Commit Bytes"
         ["container_id"];
     UsageCommitPeakBytes :=
       NewDesc (BuildFQName Namespace subsystem "memory_usage_commit_peak_bytes")
         "Memory Usage Commit Peak Bytes"
         ["container_id"];
     UsagePrivateWorkingSetBytes :=
       NewDesc (BuildFQName Namespace subsystem "memory_usage_private_working_set_bytes")
         "Memory Usage Private Working Set Bytes"
         ["container_id"];
     TotalRuntime100ns :=
       NewDesc (BuildFQName Namespace subsystem "cpu_usage_seconds_total")
         "Total Run time in Seconds"
         ["container_id"];
     RuntimeUser100ns :=
       NewDesc (BuildFQName Namespace subsystem "cpu_usage_seconds_usermode")
         "Run Time in User mode in Seconds"
         ["container_id"];
     RuntimeKernel100ns :=
       NewDesc (BuildFQName Namespace subsystem "cpu_usage_seconds_kernelmode")
         "Run time in Kernel mode in Seconds"
         ["container_id"];
     BytesReceived :=
       NewDesc (BuildFQName Namespace subsystem "network_receive_bytes_total")
         "Bytes Received on Interface"
         ["container_id"; "interface"];
     BytesSent :=
       NewDesc (BuildFQName Namespace subsystem "network_transmit_bytes_total")
         "Bytes Sent on Interface"
         ["container_id"; "interface"];
     PacketsReceived :=
       NewDesc (BuildFQName Namespace subsystem "network_receive_packets_total")
         "Packets Received on Interface"
         ["container_id"; "interface"];
     PacketsSent :=
       NewDesc (BuildFQName Namespace subsystem "network_transmit_packets_total")
         "Packets Sent on Interface"
         ["container_id"; "interface"];
     DroppedPacketsIncoming :=
       NewDesc (BuildFQName Namespace subsystem "network_receive_packets_dropped_total")
         "Dropped Incoming Packets on Interface"
         ["container_id"; "interface"];
     DroppedPacketsOutgoing :=
       NewDesc (BuildFQName Namespace subsystem "network_transmit_packets_dropped_total")
         "Dropped Outgoing Packets on Interface"
         ["container_id"; "interface"] |}.

(** The fields of the [hcsshim] types that the collector reads; the
    [uint64] fields are integers in [0, 2^64). *)
Module hcsshim.
Record ContainerProperties := mkContainerProperties {
  ID : string
}.
Record MemoryStats := mkMemoryStats {
  UsageCommitBytes : Z;
  UsageCommitPeakBytes : Z;
  UsagePrivateWorkingSetBytes : Z
}.
Record ProcessorStats := mkProcessorStats {
  TotalRuntime100ns : Z;
  RuntimeUser100ns : Z;
  RuntimeKernel100ns : Z
}.
Record NetworkStats := mkNetworkStats {
  BytesReceived : Z;
  BytesSent : Z;
  PacketsReceived : Z;
  PacketsSent : Z;
  DroppedPacketsIncoming : Z;
  DroppedPacketsOutgoing : Z;
  EndpointId : string
}.
Record Statistics := mkStatistics {
  Memory : MemoryStats;
  Processor : ProcessorStats;
  Network : list NetworkStats
}.
End hcsshim.

Section Collect.

(** What the host compute service answers: the containers of the node,
    a handle for a container id, and the statistics behind a handle. *)
Variable container : Type.
Variable GetContainers : error + list hcsshim.ContainerProperties.
Variable OpenContainer : string -> error + container.
Variable ContainerStatistics : container -> error + hcsshim.Statistics.

(** A constant of the package declared outside the files modelled
    here. *)
Variable ticksToSecondsScaleFactor : float64.

Variable c : ContainerMetricsCollector.

(** The body of [for _, interafce := range networkStats]. *)
Definition collect_interface (containerId : string)
    (interafce : hcsshim.NetworkStats) : list Metric :=
  [ MustNewConstMetric (BytesReceived c) CounterValue
        (float64_of_Z (hcsshim.BytesReceived interafce))
        [containerId; hcsshim.EndpointId interafce];
    MustNewConstMetric (BytesSent c) CounterValue
        (float64_of_Z (hcsshim.BytesSent interafce))
        [containerId; hcsshim.EndpointId interafce];
    MustNewConstMetric (PacketsReceived c) CounterValue
        (float64_of_Z (hcsshim.PacketsReceived interafce))
        [containerId; hcsshim.EndpointId interafce];
    MustNewConstMetric (PacketsSent c) CounterValue
        (float64_of_Z (hcsshim.PacketsSent interafce))
        [containerId; hcsshim.EndpointId interafce];
    MustNewConstMetric (DroppedPacketsIncoming c) CounterValue
        (float64_of_Z (hcsshim.DroppedPacketsIncoming interafce))
        [containerId; hcsshim.EndpointId interafce];
    MustNewConstMetric (DroppedPacketsOutgoing c) CounterValue
        (float64_of_Z (hcsshim.DroppedPacketsOutgoing interafce))
        [containerId; hcsshim.EndpointId interafce] ].

(** The body of [for _, containerDetails := range containers]: the
    samples sent for one container. *)
Definition collect_container (containerDetails : hcsshim.ContainerProperties)
  : list Metric :=
  let containerId := hcsshim.ID containerDetails in
  match OpenContainer containerId with
  | inl _ => []
  | inr container =>
      match ContainerStatistics container with
      | inl _ => []
      | inr cstats =>
          let containerId := "docker://" +:+ containerId in
          [ MustNewConstMetric (ContainerAvailable c) CounterValue
                1%float
                [containerId];
            MustNewConstMetric (UsageCommitBytes c) GaugeValue
                (float64_of_Z (hcsshim.UsageCommitBytes (hcsshim.Memory cstats)))
                [containerId];
            MustNewConstMetric (UsageCommitPeakBytes c) GaugeValue
                (float64_of_Z (hcsshim.UsageCommitPeakBytes (hcsshim.Memory cstats)))
                [containerId];
            MustNewConstMetric (UsagePrivateWorkingSetBytes c) GaugeValue
                (float64_of_Z (hcsshim.UsagePrivateWorkingSetBytes (hcsshim.Memory cstats)))
                [containerId];
            MustNewConstMetric (TotalRuntime100ns c) CounterValue
                (float64_of_Z (hcsshim.TotalRuntime100ns (hcsshim.Processor cstats))
                   * ticksToSecondsScaleFactor)%float
                [containerId];
            MustNewConstMetric (RuntimeUser100ns c) CounterValue
                (float64_of_Z (hcsshim.RuntimeUser100ns (hcsshim.Processor cstats))
                   * ticksToSecondsScaleFactor)%float
                [containerId];
            MustNewConstMetric (RuntimeKernel100ns c) CounterValue
                (float64_of_Z (hcsshim.RuntimeKernel100ns (hcsshim.Processor cstats))
                   * ticksToSecondsScaleFactor)%float
                [containerId] ]
          ++ (if len (hcsshim.Network cstats) =? 0 then []
              else
                let networkStats := hcsshim.Network cstats in
                interafce ← networkStats;
                collect_interface containerId interafce)
      end
  end.

(** [collect]: the samples sent on [ch] and the error returned. *)
Definition collect : list Metric * option error :=
  match GetContainers with
  | inl err => ([], Some err)
  | inr containers =>
      if len containers =? 0 then ([], None)
      else (containerDetails ← containers;
            collect_container containerDetails, None)
  end.

(** [Collect] returns the error of [collect]. *)
Definition Collect : option error := collect.2.

End Collect.

End Container.


(** ** The DFSR collector ([collector/dfsr.go]) *)

Module Dfsr.

(** *** The enabled sources *)

(** [strings.Split(s, sep)] for a separator of one byte. *)
Fixpoint Split (s : string) (sep : Ascii.ascii) : list string :=
  match s with
  | EmptyString => [EmptyString]
  | String a s' =>
      if decide (a = sep) then EmptyString :: Split s' sep
      else match Split s' sep with
           | field :: fields => String a field :: fields
           | [] => [String a EmptyString]
           end
  end.

(** The map [unique] after the first loop of [dfsrExpandEnabledSources]. *)
Definition unique_sources (separated : list string) : gmap string bool :=
  foldl (fun unique s => if decide (s <> "") then <[s := true]> unique
                         else unique)
    ∅ separated.

(** [dfsrExpandEnabledSources]. Go ranges over a map in an order it does
    not specify; the result here lists the keys in the order of
    [map_to_list], and every statement about it is made for each
    reordering of it too. *)
Definition dfsrExpandEnabledSources (enabled : string) : list string :=
  let separated := Split enabled ","%char in
  let unique := unique_sources separated in
  (map_to_list unique).*1.

Definition dfsrGetPerfObjectName (collector : string) : string :=
  let prefix := "DFS " in
  let suffix :=
    if decide (collector = "connection") then "Replication Connections"
    else if decide (collector = "folder") then "Replicated Folders"
    else if decide (collector = "volume") then "Replication Service Volumes"
    else "" in
  prefix +:+ suffix.

(** *** Rows of the three perflib objects *)

Module PerflibDFSRConnection.
Record t := mk {
  Name : string;
  BandwidthSavingsUsingDFSReplicationTotal : float64;
  BytesReceivedTotal : float64;
  CompressedSizeOfFilesReceivedTotal : float64;
  FilesReceivedTotal : float64;
  RDCBytesReceivedTotal : float64;
  RDCCompressedSizeOfFilesReceivedTotal : float64;
  RDCNumberofFilesReceivedTotal : float64;
  RDCSizeOfFilesReceivedTotal : float64;
  SizeOfFilesReceivedTotal : float64
}.
End PerflibDFSRConnection.

Module PerflibDFSRFolder.
Record t := mk {
  Name : string;
  BandwidthSavingsUsingDFSReplicationTotal : float64;
  CompressedSizeOfFilesReceivedTotal : float64;
  ConflictBytesCleanedupTotal : float64;
  ConflictBytesGeneratedTotal : float64;
  ConflictFilesCleanedUpTotal : float64;
  ConflictFilesGeneratedTotal : float64;
  ConflictFolderCleanupsCompletedTotal : float64;
  ConflictSpaceInUse : float64;
  DeletedSpaceInUse : float64;
  DeletedBytesCleanedUpTotal : float64;
  DeletedBytesGeneratedTotal : float64;
  DeletedFilesCleanedUpTotal : float64;
  DeletedFilesGeneratedTotal : float64;
  FileInstallsRetriedTotal : float64;
  FileInstallsSucceededTotal : float64;
  FilesReceivedTotal : float64;
  RDCBytesReceivedTotal : float64;
  RDCCompressedSizeOfFilesReceivedTotal : float64;
  RDCNumberofFilesReceivedTotal : float64;
  RDCSizeOfFilesReceivedTotal : float64;
  SizeOfFilesReceivedTotal : float64;
  StagingSpaceInUse : float64;
  StagingBytesCleanedUpTotal : float64;
  StagingBytesGeneratedTotal : float64;
  StagingFilesCleanedUpTotal : float64;
  StagingFilesGeneratedTotal : float64;
  UpdatesDroppedTotal : float64
}.
End PerflibDFSRFolder.

Module PerflibDFSRVolume.
Record t := mk {
  Name : string;
  DatabaseCommitsTotal : float64;
  DatabaseLookupsTotal : float64;
  USNJournalRecordsReadTotal : float64;
  USNJournalRecordsAcceptedTotal : float64;
  USNJournalUnreadPercentage : float64
}.
End PerflibDFSRVolume.

(** *** The collector *)

(** What a child collector function does when called: the samples it
    sends on [ch], in order, and the error it returns ([nil] is [None]).
    The descriptor it returns beside the error is always [nil]. *)
Definition outcome : Type := list Metric * option error.

Section Collector.

(** [*perflib.PerfObject], and [unmarshalObject(obj, &dst)] for a [dst]
    of each of the three row types: both are declared outside the files
    modelled here. A [nil] object, the value of a key that the map does
    not hold, is [None]. *)
Context {perfObject : Type}.
Variable unmarshalConnection :
  option perfObject -> error + list PerflibDFSRConnection.t.
Variable unmarshalFolder :
  option perfObject -> error + list PerflibDFSRFolder.t.
Variable unmarshalVolume :
  option perfObject -> error + list PerflibDFSRVolume.t.

(** A constant of the package declared outside the files modelled
    here. *)
Variable Namespace : string.

Record ScrapeContext := mkScrapeContext {
  perfObjects : gmap string perfObject
}.

Definition dfsrCollectorFunc : Type := ScrapeContext -> outcome.

Record DFSRCollector := mkDFSRCollector {
  dfsrScrapeDurationDesc : Desc;
  dfsrScrapeSuccessDesc : Desc;
  ConnectionBandwidthSavingsUsingDFSReplicationTotal : Desc;
  ConnectionBytesReceivedTotal : Desc;
  ConnectionCompressedSizeOfFilesReceivedTotal : Desc;
  ConnectionFilesReceivedTotal : Desc;
  ConnectionRDCBytesReceivedTotal : Desc;
  ConnectionRDCCompressedSizeOfFilesReceivedTotal : Desc;
  ConnectionRDCNumberofFilesReceivedTotal : Desc;
  ConnectionRDCSizeOfFilesReceivedTotal : Desc;
  ConnectionSizeOfFilesReceivedTotal : Desc;
  FolderBandwidthSavingsUsingDFSReplicationTotal : Desc;
  FolderCompressedSizeOfFilesReceivedTotal : Desc;
  FolderConflictBytesCleanedupTotal : Desc;
  FolderConflictBytesGeneratedTotal : Desc;
  FolderConflictFilesCleanedUpTotal : Desc;
  FolderConflictFilesGeneratedTotal : Desc;
  FolderConflictFolderCleanupsCompletedTotal : Desc;
  FolderConflictSpaceInUse : Desc;
  FolderDeletedSpaceInUse : Desc;
  FolderDeletedBytesCleanedUpTotal : Desc;
  FolderDeletedBytesGeneratedTotal : Desc;
  FolderDeletedFilesCleanedUpTotal : Desc;
  FolderDeletedFilesGeneratedTotal : Desc;
  FolderFileInstallsRetriedTotal : Desc;
  FolderFileInstallsSucceededTotal : Desc;
  FolderFilesReceivedTotal : Desc;
  FolderRDCBytesReceivedTotal : Desc;
  FolderRDCCompressedSizeOfFilesReceivedTotal : Desc;
  FolderRDCNumberofFilesReceivedTotal : Desc;
  FolderRDCSizeOfFilesReceivedTotal : Desc;
  FolderSizeOfFilesReceivedTotal : Desc;
  FolderStagingSpaceInUse : Desc;
  FolderStagingBytesCleanedUpTotal : Desc;
  FolderStagingBytesGeneratedTotal : Desc;
  FolderStagingFilesCleanedUpTotal : Desc;
  FolderStagingFilesGeneratedTotal : Desc;
  FolderUpdatesDroppedTotal : Desc;
  VolumeDatabaseCommitsTotal : Desc;
  VolumeDatabaseLookupsTotal : Desc;
  VolumeUSNJournalUnreadPercentage : Desc;
  VolumeUSNJournalRecordsAcceptedTotal : Desc;
  VolumeUSNJournalRecordsReadTotal : Desc;
  dfsrChildCollectors : gmap string dfsrCollectorFunc;
  dfsrChildCollectorFailure : Z
}.

(** Assignments to the two fields that are assigned after construction. *)
Definition set_dfsrChildCollectors (v : gmap string dfsrCollectorFunc) (c : DFSRCollector)
  : DFSRCollector :=
  mkDFSRCollector
    (dfsrScrapeDurationDesc c) (dfsrScrapeSuccessDesc c)
    (ConnectionBandwidthSavingsUsingDFSReplicationTotal c)
    (ConnectionBytesReceivedTotal c)
    (ConnectionCompressedSizeOfFilesReceivedTotal c)
    (ConnectionFilesReceivedTotal c) (ConnectionRDCBytesReceivedTotal c)
    (ConnectionRDCCompressedSizeOfFilesReceivedTotal c)
    (ConnectionRDCNumberofFilesReceivedTotal c)
    (ConnectionRDCSizeOfFilesReceivedTotal c)
    (ConnectionSizeOfFilesReceivedTotal c)
    (FolderBandwidthSavingsUsingDFSReplicationTotal c)
    (FolderCompressedSizeOfFilesReceivedTotal c)
    (FolderConflictBytesCleanedupTotal c)
    (FolderConflictBytesGeneratedTotal c)
    (FolderConflictFilesCleanedUpTotal c)
    (FolderConflictFilesGeneratedTotal c)
    (FolderConflictFolderCleanupsCompletedTotal c)
    (FolderConflictSpaceInUse c) (FolderDeletedSpaceInUse c)
    (FolderDeletedBytesCleanedUpTotal c) (FolderDeletedBytesGeneratedTotal c)
    (FolderDeletedFilesCleanedUpTotal c) (FolderDeletedFilesGeneratedTotal c)
    (FolderFileInstallsRetriedTotal c) (FolderFileInstallsSucceededTotal c)
    (FolderFilesReceivedTotal c) (FolderRDCBytesReceivedTotal c)
    (FolderRDCCompressedSizeOfFilesReceivedTotal c)
    (FolderRDCNumberofFilesReceivedTotal c)
    (FolderRDCSizeOfFilesReceivedTotal c) (FolderSizeOfFilesReceivedTotal c)
    (FolderStagingSpaceInUse c) (FolderStagingBytesCleanedUpTotal c)
    (FolderStagingBytesGeneratedTotal c) (FolderStagingFilesCleanedUpTotal c)
    (FolderStagingFilesGeneratedTotal c) (FolderUpdatesDroppedTotal c)
    (VolumeDatabaseCommitsTotal c) (VolumeDatabaseLookupsTotal c)
    (VolumeUSNJournalUnreadPercentage c)
    (VolumeUSNJournalRecordsAcceptedTotal c)
    (VolumeUSNJournalRecordsReadTotal c) v (dfsrChildCollectorFailure c).

Definition set_dfsrChildCollectorFailure (v : Z) (c : DFSRCollector)
  : DFSRCollector :=
  mkDFSRCollector
    (dfsrScrapeDurationDesc c) (dfsrScrapeSuccessDesc c)
    (ConnectionBandwidthSavingsUsingDFSReplicationTotal c)
    (ConnectionBytesReceivedTotal c)
    (ConnectionCompressedSizeOfFilesReceivedTotal c)
    (ConnectionFilesReceivedTotal c) (ConnectionRDCBytesReceivedTotal c)
    (ConnectionRDCCompressedSizeOfFilesReceivedTotal c)
    (ConnectionRDCNumberofFilesReceivedTotal c)
    (ConnectionRDCSizeOfFilesReceivedTotal c)
    (ConnectionSizeOfFilesReceivedTotal c)
    (FolderBandwidthSavingsUsingDFSReplicationTotal c)
    (FolderCompressedSizeOfFilesReceivedTotal c)
    (FolderConflictBytesCleanedupTotal c)
    (FolderConflictBytesGeneratedTotal c)
    (FolderConflictFilesCleanedUpTotal c)
    (FolderConflictFilesGeneratedTotal c)
    (FolderConflictFolderCleanupsCompletedTotal c)
    (FolderConflictSpaceInUse c) (FolderDeletedSpaceInUse c)
    (FolderDeletedBytesCleanedUpTotal c) (FolderDeletedBytesGeneratedTotal c)
    (FolderDeletedFilesCleanedUpTotal c) (FolderDeletedFilesGeneratedTotal c)
    (FolderFileInstallsRetriedTotal c) (FolderFileInstallsSucceededTotal c)
    (FolderFilesReceivedTotal c) (FolderRDCBytesReceivedTotal c)
    (FolderRDCCompressedSizeOfFilesReceivedTotal c)
    (FolderRDCNumberofFilesReceivedTotal c)
    (FolderRDCSizeOfFilesReceivedTotal c) (FolderSizeOfFilesReceivedTotal c)
    (FolderStagingSpaceInUse c) (FolderStagingBytesCleanedUpTotal c)
    (FolderStagingBytesGeneratedTotal c) (FolderStagingFilesCleanedUpTotal c)
    (FolderStagingFilesGeneratedTotal c) (FolderUpdatesDroppedTotal c)
    (VolumeDatabaseCommitsTotal c) (VolumeDatabaseLookupsTotal c)
    (VolumeUSNJournalUnreadPercentage c)
    (VolumeUSNJournalRecordsAcceptedTotal c)
    (VolumeUSNJournalRecordsReadTotal c) (dfsrChildCollectors c) v.

(** The body of [for _, connection := range dst] in [collectConnection]. *)
Definition collectConnection_row (c : DFSRCollector) (connection : PerflibDFSRConnection.t)
  : list Metric :=
  [ MustNewConstMetric (ConnectionBandwidthSavingsUsingDFSReplicationTotal c) CounterValue
      (PerflibDFSRConnection.BandwidthSavingsUsingDFSReplicationTotal connection)
      [PerflibDFSRConnection.Name connection];
    MustNewConstMetric (ConnectionBytesReceivedTotal c) CounterValue
      (PerflibDFSRConnection.BytesReceivedTotal connection)
      [PerflibDFSRConnection.Name connection];
    MustNewConstMetric (ConnectionCompressedSizeOfFilesReceivedTotal c) CounterValue
      (PerflibDFSRConnection.CompressedSizeOfFilesReceivedTotal connection)
      [PerflibDFSRConnection.Name connection];
    MustNewConstMetric (ConnectionFilesReceivedTotal c) CounterValue
      (PerflibDFSRConnection.FilesReceivedTotal connection)
      [PerflibDFSRConnection.Name connection];
    MustNewConstMetric (ConnectionRDCBytesReceivedTotal c) CounterValue
      (PerflibDFSRConnection.RDCBytesReceivedTotal connection)
      [PerflibDFSRConnection.Name connection];
    MustNewConstMetric (ConnectionRDCCompressedSizeOfFilesReceivedTotal c) CounterValue
      (PerflibDFSRConnection.RDCCompressedSizeOfFilesReceivedTotal connection)
      [PerflibDFSRConnection.Name connection];
    MustNewConstMetric (ConnectionRDCSizeOfFilesReceivedTotal c) CounterValue
      (PerflibDFSRConnection.RDCSizeOfFilesReceivedTotal connection)
      [PerflibDFSRConnection.Name connection];
    MustNewConstMetric (ConnectionRDCNumberofFilesReceivedTotal c) CounterValue
      (PerflibDFSRConnection.RDCNumberofFilesReceivedTotal connection)
      [PerflibDFSRConnection.Name connection];
    MustNewConstMetric (ConnectionSizeOfFilesReceivedTotal c) CounterValue
      (PerflibDFSRConnection.SizeOfFilesReceivedTotal connection)
      [PerflibDFSRConnection.Name connection] ].

Definition collectConnection (c : DFSRCollector) : dfsrCollectorFunc :=
  fun ctx =>
    match unmarshalConnection (perfObjects ctx !! "DFS Replication Connections") with
    | inl err => ([], Some err)
    | inr dst => (connection ← dst; collectConnection_row c connection, None)
    end.

(** The body of [for _, folder := range dst] in [collectFolder]. *)
Definition collectFolder_row (c : DFSRCollector) (folder : PerflibDFSRFolder.t)
  : list Metric :=
  [ MustNewConstMetric (FolderBandwidthSavingsUsingDFSReplicationTotal c) CounterValue
      (PerflibDFSRFolder.BandwidthSavingsUsingDFSReplicationTotal folder)
      [PerflibDFSRFolder.Name folder];
    MustNewConstMetric (FolderCompressedSizeOfFilesReceivedTotal c) CounterValue
      (PerflibDFSRFolder.CompressedSizeOfFilesReceivedTotal folder)
      [PerflibDFSRFolder.Name folder];
    MustNewConstMetric (FolderConflictBytesCleanedupTotal c) CounterValue
      (PerflibDFSRFolder.ConflictBytesCleanedupTotal folder)
      [PerflibDFSRFolder.Name folder];
    MustNewConstMetric (FolderConflictBytesGeneratedTotal c) CounterValue
      (PerflibDFSRFolder.ConflictBytesGeneratedTotal folder)
      [PerflibDFSRFolder.Name folder];
    MustNewConstMetric (FolderConflictFilesCleanedUpTotal c) CounterValue
      (PerflibDFSRFolder.ConflictFilesCleanedUpTotal folder)
      [PerflibDFSRFolder.Name folder];
    MustNewConstMetric (FolderConflictFilesGeneratedTotal c) CounterValue
      (PerflibDFSRFolder.ConflictFilesGeneratedTotal folder)
      [PerflibDFSRFolder.Name folder];
    MustNewConstMetric (FolderConflictFolderCleanupsCompletedTotal c) CounterValue
      (PerflibDFSRFolder.ConflictFolderCleanupsCompletedTotal folder)
      [PerflibDFSRFolder.Name folder];
    MustNewConstMetric (FolderConflictSpaceInUse c) GaugeValue
      (PerflibDFSRFolder.ConflictSpaceInUse folder)
      [PerflibDFSRFolder.Name folder];
    MustNewConstMetric (FolderDeletedSpaceInUse c) GaugeValue
      (PerflibDFSRFolder.DeletedSpaceInUse folder)
      [PerflibDFSRFolder.Name folder];
    MustNewConstMetric (FolderDeletedBytesCleanedUpTotal c) CounterValue
      (PerflibDFSRFolder.DeletedBytesCleanedUpTotal folder)
      [PerflibDFSRFolder.Name folder];
    MustNewConstMetric (FolderDeletedBytesGeneratedTotal c) CounterValue
      (PerflibDFSRFolder.DeletedBytesGeneratedTotal folder)
      [PerflibDFSRFolder.Name folder];
    MustNewConstMetric (FolderDeletedFilesCleanedUpTotal c) CounterValue
      (PerflibDFSRFolder.DeletedFilesCleanedUpTotal folder)
      [PerflibDFSRFolder.Name folder];
    MustNewConstMetric (FolderDeletedFilesGeneratedTotal c) CounterValue
      (PerflibDFSRFolder.DeletedFilesGeneratedTotal folder)
      [PerflibDFSRFolder.Name folder];
    MustNewConstMetric (FolderFileInstallsRetriedTotal c) CounterValue
      (PerflibDFSRFolder.FileInstallsRetriedTotal folder)
      [PerflibDFSRFolder.Name folder];
    MustNewConstMetric (FolderFileInstallsSucceededTotal c) CounterValue
      (PerflibDFSRFolder.FileInstallsSucceededTotal folder)
      [PerflibDFSRFolder.Name folder];
    MustNewConstMetric (FolderFilesReceivedTotal c) CounterValue
      (PerflibDFSRFolder.FilesReceivedTotal folder)
      [PerflibDFSRFolder.Name folder];
    MustNewConstMetric (FolderRDCBytesReceivedTotal c) CounterValue
      (PerflibDFSRFolder.RDCBytesReceivedTotal folder)
      [PerflibDFSRFolder.Name folder];
    MustNewConstMetric (FolderRDCCompressedSizeOfFilesReceivedTotal c) CounterValue
      (PerflibDFSRFolder.RDCCompressedSizeOfFilesReceivedTotal folder)
      [PerflibDFSRFolder.Name folder];
    MustNewConstMetric (FolderRDCNumberofFilesReceivedTotal c) CounterValue
      (PerflibDFSRFolder.RDCNumberofFilesReceivedTotal folder)
      [PerflibDFSRFolder.Name folder];
    MustNewConstMetric (FolderRDCSizeOfFilesReceivedTotal c) CounterValue
      (PerflibDFSRFolder.RDCSizeOfFilesReceivedTotal folder)
      [PerflibDFSRFolder.Name folder];
    MustNewConstMetric (FolderSizeOfFilesReceivedTotal c) CounterValue
      (PerflibDFSRFolder.SizeOfFilesReceivedTotal folder)
      [PerflibDFSRFolder.Name folder];
    MustNewConstMetric (FolderStagingSpaceInUse c) GaugeValue
      (PerflibDFSRFolder.StagingSpaceInUse folder)
      [PerflibDFSRFolder.Name folder];
    MustNewConstMetric (FolderStagingBytesCleanedUpTotal c) CounterValue
      (PerflibDFSRFolder.StagingBytesCleanedUpTotal folder)
      [PerflibDFSRFolder.Name folder];
    MustNewConstMetric (FolderStagingBytesGeneratedTotal c) CounterValue
      (PerflibDFSRFolder.StagingBytesGeneratedTotal folder)
      [PerflibDFSRFolder.Name folder];
    MustNewConstMetric (FolderStagingFilesCleanedUpTotal c) CounterValue
      (PerflibDFSRFolder.StagingFilesCleanedUpTotal folder)
      [PerflibDFSRFolder.Name folder];
    MustNewConstMetric (FolderStagingFilesGeneratedTotal c) CounterValue
      (PerflibDFSRFolder.StagingFilesGeneratedTotal folder)
      [PerflibDFSRFolder.Name folder];
    MustNewConstMetric (FolderUpdatesDroppedTotal c) CounterValue
      (PerflibDFSRFolder.UpdatesDroppedTotal folder)
      [PerflibDFSRFolder.Name folder] ].

Definition collectFolder (c : DFSRCollector) : dfsrCollectorFunc :=
  fun ctx =>
    match unmarshalFolder (perfObjects ctx !! "DFS Replicated Folders") with
    | inl err => ([], Some err)
    | inr dst => (folder ← dst; collectFolder_row c folder, None)
    end.

(** The body of [for _, volume := range dst] in [collectVolume]. *)
Definition collectVolume_row (c : DFSRCollector) (volume : PerflibDFSRVolume.t)
  : list Metric :=
  [ MustNewConstMetric (VolumeDatabaseLookupsTotal c) CounterValue
      (PerflibDFSRVolume.DatabaseLookupsTotal volume)
      [PerflibDFSRVolume.Name volume];
    MustNewConstMetric (VolumeDatabaseCommitsTotal c) CounterValue
      (PerflibDFSRVolume.DatabaseCommitsTotal volume)
      [PerflibDFSRVolume.Name volume];
    MustNewConstMetric (VolumeUSNJournalRecordsAcceptedTotal c) CounterValue
      (PerflibDFSRVolume.USNJournalRecordsAcceptedTotal volume)
      [PerflibDFSRVolume.Name volume];
    MustNewConstMetric (VolumeUSNJournalRecordsReadTotal c) CounterValue
      (PerflibDFSRVolume.USNJournalRecordsReadTotal volume)
      [PerflibDFSRVolume.Name volume];
    MustNewConstMetric (VolumeUSNJournalUnreadPercentage c) GaugeValue
      (PerflibDFSRVolume.USNJournalUnreadPercentage volume)
      [PerflibDFSRVolume.Name volume] ].

Definition collectVolume (c : DFSRCollector) : dfsrCollectorFunc :=
  fun ctx =>
    match unmarshalVolume (perfObjects ctx !! "DFS Replication Service Volumes") with
    | inl err => ([], Some err)
    | inr dst => (volume ← dst; collectVolume_row c volume, None)
    end.

(** [getDFSRChildCollectors]: the three method values, bound to [c]. *)
Definition getDFSRChildCollectors (c : DFSRCollector)
  : gmap string dfsrCollectorFunc :=
  let dfsrCollectors : gmap string dfsrCollectorFunc := ∅ in
  let dfsrCollectors := <["connection" := collectConnection c]> dfsrCollectors in
  let dfsrCollectors := <["folder" := collectFolder c]> dfsrCollectors in
  let dfsrCollectors := <["volume" := collectVolume c]> dfsrCollectors in
  dfsrCollectors.

(** The perflib objects [NewDFSRCollector] passes to
    [addPerfCounterDependencies], for the value of the flag
    [collectors.dfsr.sources-enabled]. *)
Definition perfCounters (dfsrEnabledCollectors : string) : list string :=
  dfsrGetPerfObjectName <$> dfsrExpandEnabledSources dfsrEnabledCollectors.

(** [NewDFSRCollector]: the collector it returns. *)
Definition NewDFSRCollector : DFSRCollector :=
  let subsystem := "dfsr" in
  let dfsrCollector :=
    {| dfsrScrapeDurationDesc :=
         NewDesc (BuildFQName Namespace subsystem "collector_duration_seconds")
           "windows_exporter: Duration of an dfsr child collection."
           ["collector"];
       dfsrScrapeSuccessDesc :=
         NewDesc (BuildFQName Namespace subsystem "collector_success")
           "windows_exporter: Whether a dfsr child collector was successful."
           ["collector"];
       ConnectionBandwidthSavingsUsingDFSReplicationTotal :=
         NewDesc (BuildFQName Namespace subsystem "bandwidth_savings_using_dfs_replication_total")
           "Total amount of bandwidth savings using DFS Replication for this connection, in bytes"
           ["name"];
       ConnectionBytesReceivedTotal :=
         NewDesc (BuildFQName Namespace subsystem "bytes_received_total")
           "Total bytes received for connection"
           ["name"];
       ConnectionCompressedSizeOfFilesReceivedTotal :=
         NewDesc (BuildFQName Namespace subsystem "compressed_size_of_files_received_total")
           ""
           ["name"];
       ConnectionFilesReceivedTotal :=
         NewDesc (BuildFQName Namespace subsystem "files_received_total")
           "Total number of files receieved for connection"
           ["name"];
       ConnectionRDCBytesReceivedTotal :=
         NewDesc (BuildFQName Namespace subsystem "rdc_bytes_received_total")
           ""
           ["name"];
       ConnectionRDCCompressedSizeOfFilesReceivedTotal :=
         NewDesc (BuildFQName Namespace subsystem "rdc_compressed_size_of_files_received_total")
           ""
           ["name"];
       ConnectionRDCNumberofFilesReceivedTotal :=
         NewDesc (BuildFQName Namespace subsystem "rdc_number_of_files_received_total")
           ""
           ["name"];
       ConnectionRDCSizeOfFilesReceivedTotal :=
         NewDesc (BuildFQName Namespace subsystem "rdc_size_of_files_received_total")
           ""
           ["name"];
       ConnectionSizeOfFilesReceivedTotal :=
         NewDesc (BuildFQName Namespace subsystem "size_of_files_received_total")
           ""
           ["name"];
       FolderBandwidthSavingsUsingDFSReplicationTotal :=
         NewDesc (BuildFQName Namespace subsystem "bandwidth_savings_using_dfs_replication_total")
           ""
           ["name"];
       FolderCompressedSizeOfFilesReceivedTotal :=
         NewDesc (BuildFQName Namespace subsystem "compressed_size_of_files_received_total")
           ""
           ["name"];
       FolderConflictBytesCleanedupTotal :=
         NewDesc (BuildFQName Namespace subsystem "conflict_bytes_cleaned_up_total")
           ""
           ["name"];
       FolderConflictBytesGeneratedTotal :=
         NewDesc (BuildFQName Namespace subsystem "conflict_bytes_generated_total")
           ""
           ["name"];
       FolderConflictFilesCleanedUpTotal :=
         NewDesc (BuildFQName Namespace subsystem "conflict_files_cleaned_up_total")
           ""
           ["name"];
       FolderConflictFilesGeneratedTotal :=
         NewDesc (BuildFQName Namespace subsystem "conflict_files_generated_total")
           ""
           ["name"];
       FolderConflictFolderCleanupsCompletedTotal :=
         NewDesc (BuildFQName Namespace subsystem "conflict_folder_cleanups_total")
           ""
           ["name"];
       FolderConflictSpaceInUse :=
         NewDesc (BuildFQName Namespace subsystem "conflict_space_in_use")
           ""
           ["name"];
       FolderDeletedSpaceInUse :=
         NewDesc (BuildFQName Namespace subsystem "deleted_space_in_use")
           ""
           ["name"];
       FolderDeletedBytesCleanedUpTotal :=
         NewDesc (BuildFQName Namespace subsystem "deleted_bytes_cleaned_up_total")
           ""
           ["name"];
       FolderDeletedBytesGeneratedTotal :=
         NewDesc (BuildFQName Namespace subsystem "deleted_bytes_generated_total")
           ""
           ["name"];
       FolderDeletedFilesCleanedUpTotal :=
         NewDesc (BuildFQName Namespace subsystem "deleted_files_cleaned_up_total")
           ""
           ["name"];
       FolderDeletedFilesGeneratedTotal :=
         NewDesc (BuildFQName Namespace subsystem "deleted_files_generated_total")
           ""
           ["name"];
       FolderFileInstallsRetriedTotal :=
         NewDesc (BuildFQName Namespace subsystem "file_installs_retried_total")
           ""
           ["name"];
       FolderFileInstallsSucceededTotal :=
         NewDesc (BuildFQName Namespace subsystem "file_installs_succeeded_total")
           ""
           ["name"];
       FolderFilesReceivedTotal :=
         NewDesc (BuildFQName Namespace subsystem "files_received_total")
           ""
           ["name"];
       FolderRDCBytesReceivedTotal :=
         NewDesc (BuildFQName Namespace subsystem "rdc_bytes_received_total")
           ""
           ["name"];
       FolderRDCCompressedSizeOfFilesReceivedTotal :=
         NewDesc (BuildFQName Namespace subsystem "rdc_compressed_size_of_files_received_total")
           ""
           ["name"];
       FolderRDCNumberofFilesReceivedTotal :=
         NewDesc (BuildFQName Namespace subsystem "rdc_number_of_files_received_total")
           ""
           ["name"];
       FolderRDCSizeOfFilesReceivedTotal :=
         NewDesc (BuildFQName Namespace subsystem "rdc_size_of_files_received_total")
           ""
           ["name"];
       FolderSizeOfFilesReceivedTotal :=
         NewDesc (BuildFQName Namespace subsystem "size_of_files_received_total")
           ""
           ["name"];
       FolderStagingSpaceInUse :=
         NewDesc (BuildFQName Namespace subsystem "staging_space_in_use")
           ""
           ["name"];
       FolderStagingBytesCleanedUpTotal :=
         NewDesc (BuildFQName Namespace subsystem "staging_bytes_cleaned_up_total")
           ""
           ["name"];
       FolderStagingBytesGeneratedTotal :=
         NewDesc (BuildFQName Namespace subsystem "staging_bytes_generated_total")
           ""
           ["name"];
       FolderStagingFilesCleanedUpTotal :=
         NewDesc (BuildFQName Namespace subsystem "staging_files_cleaned_up_total")
           ""
           ["name"];
       FolderStagingFilesGeneratedTotal :=
         NewDesc (BuildFQName Namespace subsystem "staging_files_generated_total")
           ""
           ["name"];
       FolderUpdatesDroppedTotal :=
         NewDesc (BuildFQName Namespace subsystem "updates_dropped_total")
           ""
           ["name"];
       VolumeDatabaseCommitsTotal :=
         NewDesc (BuildFQName Namespace subsystem "database_commits_total")
           "Total number of DFSR Volume database commits"
           ["name"];
       VolumeDatabaseLookupsTotal :=
         NewDesc (BuildFQName Namespace subsystem "database_lookups_total")
           "Total number of DFSR Volume database lookups"
           ["name"];
       VolumeUSNJournalUnreadPercentage :=
         NewDesc (BuildFQName Namespace subsystem "usn_journal_unread_percentage")
           "Percentage of DFSR Volume USN journal records that are unread"
           ["name"];
       VolumeUSNJournalRecordsAcceptedTotal :=
         NewDesc (BuildFQName Namespace subsystem "usn_journal_records_accepted_total")
           "Total number of USN journal records accepted"
           ["name"];
       VolumeUSNJournalRecordsReadTotal :=
         NewDesc (BuildFQName Namespace subsystem "usn_journal_records_read_total")
           "Total number of DFSR Volume USN journal records read"
           ["name"];
       dfsrChildCollectors := ∅;
       dfsrChildCollectorFailure := 0 |} in
  set_dfsrChildCollectors (getDFSRChildCollectors dfsrCollector) dfsrCollector.

(** *** [Collect] and [execute]

    [Collect] starts one goroutine per entry of [dfsrChildCollectors],
    each running [execute], and waits for all of them. The goroutines
    share the channel [ch] and the field [dfsrChildCollectorFailure] of
    the collector; nothing orders their steps among each other. The
    model runs them under an explicit schedule, one step at a time. *)

(** Go's [int] on a 64-bit platform: [v + 1] wraps around. *)
Definition int_wrap (z : Z) : Z := (z + 2 ^ 63) mod 2 ^ 64 - 2 ^ 63.

(** What the goroutines share. *)
Record shared := mkShared {
  failure : Z;        (* c.dfsrChildCollectorFailure *)
  ch : list Metric    (* the samples sent on ch so far *)
}.

Definition send (m : Metric) (sh : shared) : shared :=
  mkShared (failure sh) (ch sh ++ [m]).

(** Where a goroutine running [execute] stands. *)
Inductive pc :=
  | in_child (pending : list Metric) (err : option error)
      (* inside [fn(ctx, ch)], which still sends [pending] and then
         returns [err] *)
  | load_failure
      (* [err != nil]: about to read [c.dfsrChildCollectorFailure] *)
  | store_failure (v : Z)
      (* has read [v]: about to write [v + 1] back *)
  | send_duration (success : float64)
  | send_success (success : float64)
  | finished.
      (* [wg.Done()] has run *)

(** The two samples [execute] sends for the child [name]; [seconds] is
    [duration.Seconds()]. *)
Definition duration_sample (c : DFSRCollector) (name : string)
    (seconds : float64) : Metric :=
  MustNewConstMetric (dfsrScrapeDurationDesc c) GaugeValue seconds [name].

Definition success_sample (c : DFSRCollector) (name : string)
    (success : float64) : Metric :=
  MustNewConstMetric (dfsrScrapeSuccessDesc c) GaugeValue success [name].

(** One step of the goroutine that runs [execute] for the child [name]
    and measures [seconds] for it; [None] once it has finished. *)
Definition step (c : DFSRCollector) (name : string) (seconds : float64)
    (sh : shared) (p : pc) : option (shared * pc) :=
  match p with
  | in_child (m :: pending) err => Some (send m sh, in_child pending err)
  | in_child [] (Some _) => Some (sh, load_failure)
  | in_child [] None => Some (sh, send_duration 1%float)
  | load_failure => Some (sh, store_failure (failure sh))
  | store_failure v =>
      Some (mkShared (int_wrap (v + 1)) (ch sh), send_duration 0%float)
  | send_duration success =>
      Some (send (duration_sample c name seconds) sh, send_success success)
  | send_success success =>
      Some (send (success_sample c name success) sh, finished)
  | finished => None
  end.

(** The goroutines, in the order [Collect] started them, and what they
    share. *)
Record config := mkConfig {
  state : shared;
  goroutines : list (string * pc)
}.

(** [clock name] is the [duration.Seconds()] the goroutine of the child
    [name] measures. A schedule names, step by step, the goroutine that
    moves; it is no schedule of the run when it names a goroutine that is
    not there or has finished. *)
Definition move (c : DFSRCollector) (clock : string -> float64) (k : nat)
    (cfg : config) : option config :=
  '(name, p) ← goroutines cfg !! k;
  '(sh, p') ← step c name (clock name) (state cfg) p;
  Some (mkConfig sh (<[k := (name, p')]> (goroutines cfg))).

Fixpoint run (c : DFSRCollector) (clock : string -> float64)
    (schedule : list nat) (cfg : config) : option config :=
  match schedule with
  | [] => Some cfg
  | k :: schedule' => cfg' ← move c clock k cfg; run c clock schedule' cfg'
  end.

Definition is_finished (p : pc) : bool :=
  match p with finished => true | _ => false end.

(** The goroutines [Collect] starts: [execute] for every entry of the
    map, each at its call of [fn(ctx, ch)]. *)
Definition started (c : DFSRCollector) (ctx : ScrapeContext)
  : list (string * pc) :=
  (fun '(name, function) =>
     (name, in_child (function ctx).1 (function ctx).2))
    <$> map_to_list (dfsrChildCollectors c).

(** [Collect] under a schedule: the collector afterwards, the samples
    sent on [ch], and the error returned. [wg.Wait()] returns when every
    goroutine has finished, so a schedule that leaves one unfinished is
    not a run of [Collect] ([None]). *)
Definition Collect (c : DFSRCollector) (ctx : ScrapeContext)
    (clock : string -> float64) (schedule : list nat)
  : option (DFSRCollector * list Metric * option error) :=
  cfg ← run c clock schedule
          (mkConfig (mkShared (dfsrChildCollectorFailure c) [])
             (started c ctx));
  if forallb (fun g => is_finished g.2) (goroutines cfg)
  then
    let c' := set_dfsrChildCollectorFailure (failure (state cfg)) c in
    Some (c', ch (state cfg),
          if 0 <? dfsrChildCollectorFailure c'
          then Some "at least one child collector failed"
          else None)
  else None.

(** The schedule that runs the goroutine [k] alone from [p] to its end. *)
Definition alone (k : nat) (p : pc) : list nat :=
  match p with
  | in_child pending (Some _) => replicate (length pending + 5) k
  | in_child pending None => replicate (length pending + 3) k
  | load_failure => replicate 4 k
  | store_failure _ => replicate 3 k
  | send_duration _ => replicate 2 k
  | send_success _ => replicate 1 k
  | finished => []
  end.

(** The schedule that runs the goroutines one after the other, in the
    order [Collect] started them. *)
Definition in_turn (gs : list (string * pc)) : list nat :=
  mjoin (imap (fun k g => alone k g.2) gs).

End Collector.

Arguments ScrapeContext : clear implicits.
Arguments dfsrCollectorFunc : clear implicits.
Arguments DFSRCollector : clear implicits.

End Dfsr.

(** * Properties *)

(** ** The scan of the SMART attribute table *)

Module SmartFacts.

Import Smart.

Lemma index_Ok_inv vs i v :
  index vs i = Ok v -> 0 <= i < len vs /\ 0 <= v < 256.
Proof.
  unfold index. destruct (0 <=? i) eqn:H0; [|discriminate].
  destruct (i <? len vs) eqn:H1; [|discriminate]. simpl.
  destruct (vs !! Z.to_nat i) as [b|]; [|discriminate].
  intros [= <-]. split; [lia|].
  unfold int_of_uint8. pose proof (Byte.to_N_bounded b). lia.
Qed.

Lemma index_in_range vs i :
  0 <= i < len vs -> exists v, index vs i = Ok v.
Proof.
  intros H. unfold index.
  destruct (0 <=? i) eqn:H0; [|lia]. destruct (i <? len vs) eqn:H1; [|lia].
  simpl. destruct (vs !! Z.to_nat i) as [b|] eqn:E; [eauto|].
  apply lookup_ge_None in E. unfold len in *. lia.
Qed.

Lemma index_out_of_range vs i :
  len vs <= i -> index vs i = Panic i (len vs).
Proof.
  intros H. unfold index. destruct (i <? len vs) eqn:H1; [lia|].
  now rewrite andb_false_r.
Qed.

(** The loop, one iteration unfolded. *)
Lemma scan_unfold vs i s lg :
  scan vs i s lg =
  if decide (i < len vs) then
    match body vs i s with
    | Panic idx n => Panic idx n
    | Ok (Break, s', l) => Ok (s', lg ++ l)
    | Ok (Next, s', l) => scan vs (i + 12) s' (lg ++ l)
    end
  else Ok (s, lg).
Proof.
  simp scan. destruct (decide (i < len vs)) as [Hlt|Hge]; simpl;
    [|reflexivity].
  destruct (body vs i s) as [[[[] s'] ll]|]; reflexivity.
Qed.

(** A record that starts with 0 or 16 and whose second byte is not 0. *)
Lemma body_skips vs i s v :
  (index vs i = Ok 0 \/ index vs i = Ok 16) ->
  index vs (i + 1) = Ok v -> v <> 0 ->
  body vs i s =
    if len vs <? i + 7 then Ok (Break, s, [])
    else Ok (Next, s, [unexpected_smart v]).
Proof.
  intros H0 H1 Hv. unfold body.
  destruct H0 as [-> | ->]; simpl;
    (destruct (len vs <? i + 7); [reflexivity|]);
    rewrite H1; simpl; (destruct (v =? 0) eqn:E; [lia|reflexivity]).
Qed.

(** A record that starts with 0 or 16, whose second byte is 0, and that
    is followed by at least one more byte. *)
Lemma body_decodes vs i s i3 i6 i7 i8 i9 i10 i11 i12 :
  i + 12 < len vs ->
  (index vs i = Ok 0 \/ index vs i = Ok 16) ->
  index vs (i + 1) = Ok 0 ->
  index vs (i + 3) = Ok i3 -> index vs (i + 6) = Ok i6 ->
  index vs (i + 7) = Ok i7 -> index vs (i + 8) = Ok i8 ->
  index vs (i + 9) = Ok i9 -> index vs (i + 10) = Ok i10 ->
  index vs (i + 11) = Ok i11 -> index vs (i + 12) = Ok i12 ->
  body vs i s =
    Ok (Next,
        assign i3 i6 i7 i10 i11 i12 (vendec_of i3 i8 i9 i10 i11 i12) s, []).
Proof.
  intros Hlen H0 H1 H3 H6 H7 H8 H9 H10 H11 H12. unfold body.
  assert ((len vs <? i + 7) = false) as -> by lia.
  assert ((len vs >=? i + 12) = true) as -> by lia.
  destruct H0 as [-> | ->]; simpl;
    rewrite H1; simpl; rewrite H3, H6, H7; simpl;
    rewrite H8, H9, H10, H11, H12; reflexivity.
Qed.


Lemma temperature_of_record i6 i7 i10 i11 i12 v s :
  get temperature (assign 194 i6 i7 i10 i11 i12 v s) = v.
Proof. reflexivity. Qed.

Lemma record_temperature vs i s lg b8 :
  i + 12 < len vs ->
  (index vs i = Ok 0 \/ index vs i = Ok 16) ->
  index vs (i + 1) = Ok 0 ->
  index vs (i + 3) = Ok 194 ->
  index vs (i + 8) = Ok b8 ->
  exists s',
    body vs i s = Ok (Next, s', []) /\
    get temperature s' = b8 /\
    scan vs i s lg = scan vs (i + 12) s' lg.
Proof.
  intros Hlen H0 H1 H3 H8.
  assert (0 <= i) as Hi
    by (destruct H0 as [H|H]; apply index_Ok_inv in H; lia).
  destruct (index_in_range vs (i + 6)) as [i6 H6]; [lia|].
  destruct (index_in_range vs (i + 7)) as [i7 H7]; [lia|].
  destruct (index_in_range vs (i + 9)) as [i9 H9]; [lia|].
  destruct (index_in_range vs (i + 10)) as [i10 H10]; [lia|].
  destruct (index_in_range vs (i + 11)) as [i11 H11]; [lia|].
  destruct (index_in_range vs (i + 12)) as [i12 H12]; [lia|].
  pose proof (body_decodes vs i s _ _ _ _ _ _ _ _
                Hlen H0 H1 H3 H6 H7 H8 H9 H10 H11 H12) as Hb.
  eexists. split; [exact Hb|]. split; [apply temperature_of_record|].
  rewrite (scan_unfold vs i), Hb.
  destruct (decide (i < len vs)); [|lia]. now rewrite app_nil_r.
Qed.

(** The two off-by-one bounds of the body: a record that starts with 0
    or 16 and has a zero second byte is read at offset 7 when only
    offsets 0 to 6 are there, and at offset 12 when only offsets 0 to 11
    are there. *)
Lemma body_reads_offset_7 vs i s :
  len vs = i + 7 ->
  (index vs i = Ok 0 \/ index vs i = Ok 16) ->
  index vs (i + 1) = Ok 0 ->
  body vs i s = Panic (i + 7) (len vs).
Proof.
  intros Hlen H0 H1.
  assert (0 <= i) as Hi
    by (destruct H0 as [H|H]; apply index_Ok_inv in H; lia).
  destruct (index_in_range vs (i + 3)) as [i3 H3]; [lia|].
  destruct (index_in_range vs (i + 6)) as [i6 H6]; [lia|].
  unfold body. assert ((len vs <? i + 7) = false) as -> by lia.
  destruct H0 as [-> | ->]; simpl; rewrite H1; simpl; rewrite H3, H6; simpl;
    rewrite index_out_of_range by lia; reflexivity.
Qed.

Lemma body_reads_offset_12 vs i s :
  len vs = i + 12 ->
  (index vs i = Ok 0 \/ index vs i = Ok 16) ->
  index vs (i + 1) = Ok 0 ->
  body vs i s = Panic (i + 12) (len vs).
Proof.
  intros Hlen H0 H1.
  assert (0 <= i) as Hi
    by (destruct H0 as [H|H]; apply index_Ok_inv in H; lia).
  destruct (index_in_range vs (i + 3)) as [i3 H3]; [lia|].
  destruct (index_in_range vs (i + 6)) as [i6 H6]; [lia|].
  destruct (index_in_range vs (i + 7)) as [i7 H7]; [lia|].
  destruct (index_in_range vs (i + 8)) as [i8 H8]; [lia|].
  destruct (index_in_range vs (i + 9)) as [i9 H9]; [lia|].
  destruct (index_in_range vs (i + 10)) as [i10 H10]; [lia|].
  destruct (index_in_range vs (i + 11)) as [i11 H11]; [lia|].
  unfold body. assert ((len vs <? i + 7) = false) as -> by lia.
  assert ((len vs >=? i + 12) = true) as -> by lia.
  destruct H0 as [-> | ->]; simpl; rewrite H1; simpl;
    rewrite H3, H6, H7; simpl; rewrite H8, H9, H10, H11; simpl;
    rewrite index_out_of_range by lia; reflexivity.
Qed.

(** What the first [switch] computes for the ids of the wide case. *)
Lemma vendec_of_wide i3 i8 i9 i10 i11 i12 :
  In i3 [4; 9; 193; 195; 200; 225; 241; 242; 246] ->
  vendec_of i3 i8 i9 i10 i11 i12 =
    i8 + 18 * i9 + 20 * i10 + 22 * i11 + 24 * i12.
Proof.
  intros H. simpl in H.
  repeat (destruct H as [<- | H];
          [unfold vendec_of;
           change (Z.lxor 16 8) with 24; change (Z.lxor 16 6) with 22;
           change (Z.lxor 16 4) with 20; change (Z.lxor 16 2) with 18;
           lia|]).
  destruct H.
Qed.

(** C2 (the code at the failing inputs). A table that is exactly one
    record of 12 zero bytes makes the scan read index 12, and a table
    of 7 zero bytes makes it read index 7: both reads are past the end
    and panic, in the scan and so in [collect]. *)
Theorem scan_reads_past_the_end :
  decode (uint8s [0; 0; 0; 0; 0; 0; 0; 0; 0; 0; 0; 0]) = Panic 12 12 /\
  decode (uint8s [0; 0; 0; 0; 0; 0; 0]) = Panic 7 7 /\
  collect (NewSMARTCollector "wmi")
    (inr [MSStorageDriver_ATAPISmartData.mk "disk0" true 0 0 0
            (uint8s [0; 0; 0; 0; 0; 0; 0; 0; 0; 0; 0; 0])])
  = Panic 12 12.
Proof. repeat split; vm_compute; reflexivity. Qed.

(** C3 (the code at the failing input). The raw value of a record is
    built with the factors 18, 20, 22 and 24 ([16^2], [16^4], [16^6]
    and [16^8] with [^] read as exclusive or), not with powers of 256:
    a record of id 241 with raw bytes 0, 1, 0, 0, 0 decodes to 18, where
    the little-endian value is 256; likewise 18 for the two-byte case
    (id 1). *)
Theorem raw_value_of_wide_attribute :
  vendec_of 241 0 1 0 0 0 = 18 /\
  vendec_of 1 0 1 0 0 0 = 18 /\
  (exists s lg,
     decode (uint8s [0; 0; 0; 241; 0; 0; 100; 100; 0; 1; 0; 0; 0; 1])
       = Ok (s, lg) /\
     get lbawrite s = 18) /\
  0 + 2 ^ 8 * 1 + 2 ^ 16 * 0 + 2 ^ 24 * 0 + 2 ^ 32 * 0 = 256.
Proof.
  split; [reflexivity|]. split; [reflexivity|]. split; [|reflexivity].
  eexists _, _. split; [vm_compute; reflexivity|reflexivity].
Qed.




(** The whole scan of a table that is one such record and one byte
    more: it ends with [temperature = 45], whatever the other bytes. *)
Lemma decode_lone_temperature_record
    (b0 b2 b4 b5 b6 b7 b9 b10 b11 b12 : uint8) :
  b0 = Byte.x00 \/ b0 = Byte.x10 ->
  exists s lg,
    decode [b0; Byte.x00; b2; Byte.xc2; b4; b5; b6; b7; Byte.x2d;
            b9; b10; b11; b12] = Ok (s, lg) /\
    get temperature s = 45.
Proof.
  intros H0. unfold decode.
  set (vs := [b0; Byte.x00; b2; Byte.xc2; b4; b5; b6; b7; Byte.x2d;
              b9; b10; b11; b12]).
  destruct (record_temperature vs 0 declared [] 45) as (s' & _ & Ht & ->);
    try reflexivity.
  { destruct H0 as [-> | ->]; [left|right]; reflexivity. }
  rewrite scan_unfold. destruct (decide (0 + 12 < len vs)); [|done].
  assert (body vs (0 + 12) s' = Ok (Break, s', []) \/
          body vs (0 + 12) s' = Ok (Next, s', [])) as [-> | ->].
  { unfold body. change (index vs (0 + 12)) with (Ok (int_of_uint8 b12)).
    cbn [bind]. destruct (_ || _); [left|right]; reflexivity. }
  - eauto.
  - rewrite scan_unfold. destruct (decide (0 + 12 + 12 < len vs)); [done|].
    eauto.
Qed.

(** C10. For a record at offset [i] whose first byte is 0 or 16 and
    whose second byte [v] is not 0: its pass through the loop changes
    no local (it only logs [v], or stops the loop when fewer than 7
    bytes are left, and then no record follows), and the scan of the
    table from [i] is the scan from the next record, [i + 12], with the
    locals unchanged. *)
Theorem nonzero_second_byte_skips_record vs i s lg v :
  (index vs i = Ok 0 \/ index vs i = Ok 16) ->
  index vs (i + 1) = Ok v -> v <> 0 ->
  body vs i s =
    (if len vs <? i + 7 then Ok (Break, s, [])
     else Ok (Next, s, [unexpected_smart v]))
  /\ scan vs i s lg =
     scan vs (i + 12) s
       (if len vs <? i + 7 then lg else lg ++ [unexpected_smart v]).
Proof.
  intros H0 H1 Hv. pose proof (body_skips vs i s v H0 H1 Hv) as Hb.
  split; [exact Hb|].
  assert (0 <= i < len vs) as Hi
    by (destruct H0 as [H|H]; apply index_Ok_inv in H; lia).
  rewrite (scan_unfold vs i), Hb.
  destruct (decide (i < len vs)); [|lia].
  destruct (len vs <? i + 7) eqn:E.
  - rewrite (scan_unfold vs (i + 12)).
    destruct (decide (i + 12 < len vs)); [lia|]. now rewrite app_nil_r.
  - reflexivity.
Qed.

(** C10 (an instance). A table whose first record has the second byte
    7; the scan logs it and goes on with the record at offset 12. *)
Lemma skipped_record_example :
  let vs := uint8s [0; 7; 0; 194; 0; 0; 100; 100; 45; 1; 2; 3;
                    16; 0; 0; 194; 0; 0; 100; 100; 40; 0; 0; 0; 0] in
  body vs 0 declared =
    (if len vs <? 0 + 7 then Ok (Break, declared, [])
     else Ok (Next, declared, [unexpected_smart 7]))
  /\ scan vs 0 declared [] =
     scan vs (0 + 12) declared
       (if len vs <? 0 + 7 then [] else [] ++ [unexpected_smart 7]).
Proof.
  intros vs.
  refine (nonzero_second_byte_skips_record vs 0 declared [] 7 _ _ _).
  - left. reflexivity.
  - reflexivity.
  - discriminate.
Defined.


(** *** Tables the scan reads without a panic *)

(** Well-founded induction along the loop: [i] grows by 12 while it is
    below [len vs]. *)
Lemma scan_ind (vs : list uint8) (P : Z -> Prop) :
  (forall i, (i < len vs -> P (i + 12)) -> P i) -> forall i, P i.
Proof.
  intros step i.
  remember (Z.to_nat (len vs - i)) as n eqn:En.
  revert i En. induction (lt_wf n) as [n _ IH]. intros i ->.
  apply step. intros Hlt. apply (IH (Z.to_nat (len vs - (i + 12)))); [lia|done].
Qed.

(** The value of a byte. *)
Definition is_byte (b : Z) : Prop := 0 <= b < 256.

(** What one pass through the body leaves, when it does not panic: the
    locals as they were, or one record's assignments to them. *)
Lemma body_Ok_inv vs i s f s' l :
  body vs i s = Ok (f, s', l) ->
  s' = s \/
  exists i3 i6 i7 i8 i9 i10 i11 i12,
    is_byte i3 /\ is_byte i6 /\ is_byte i7 /\ is_byte i8 /\ is_byte i9 /\
    is_byte i10 /\ is_byte i11 /\ is_byte i12 /\ i + 7 < len vs /\
    s' = assign i3 i6 i7 i10 i11 i12 (vendec_of i3 i8 i9 i10 i11 i12) s.
Proof.
  unfold body.
  destruct (index vs i) as [v|] eqn:E0; [|discriminate]. simpl.
  destruct ((v =? 0) || (v =? 16)); [|intros [= <- <- <-]; now left].
  destruct (len vs <? i + 7) eqn:E7; [intros [= <- <- <-]; now left|].
  destruct (index vs (i + 1)) as [v1|] eqn:E1; [|discriminate]. simpl.
  destruct (negb (v1 =? 0)); [intros [= <- <- <-]; now left|].
  destruct (index vs (i + 3)) as [i3|] eqn:E3; [|discriminate]. simpl.
  destruct (index vs (i + 6)) as [i6|] eqn:E6; [|discriminate]. simpl.
  destruct (index vs (i + 7)) as [i7|] eqn:E77; [|discriminate]. simpl.
  apply index_Ok_inv in E3 as [_ B3], E6 as [_ B6], E77 as [L7 B7].
  destruct (len vs >=? i + 12).
  - destruct (index vs (i + 8)) as [i8|] eqn:E8; [|discriminate]. simpl.
    destruct (index vs (i + 9)) as [i9|] eqn:E9; [|discriminate]. simpl.
    destruct (index vs (i + 10)) as [i10|] eqn:E10; [|discriminate]. simpl.
    destruct (index vs (i + 11)) as [i11|] eqn:E11; [|discriminate]. simpl.
    destruct (index vs (i + 12)) as [i12|] eqn:E12; [|discriminate]. simpl.
    apply index_Ok_inv in E8 as [_ B8], E9 as [_ B9], E10 as [_ B10],
      E11 as [_ B11], E12 as [_ B12].
    intros [= <- <- <-]. right.
    exists i3, i6, i7, i8, i9, i10, i11, i12. unfold is_byte.
    repeat split; lia.
  - simpl. intros [= <- <- <-]. right.
    exists i3, i6, i7, 0, 0, 0, 0, 0. unfold is_byte.
    repeat split; lia.
Qed.

(** The body reads without a panic unless the table ends exactly 7 or
    exactly 12 bytes after the start of the record. *)
Lemma body_Ok vs i s :
  0 <= i < len vs -> len vs <> i + 7 -> len vs <> i + 12 ->
  exists r, body vs i s = Ok r.
Proof.
  intros Hi H7 H12. unfold body.
  destruct (index_in_range vs i) as [v ->]; [lia|]. simpl.
  destruct ((v =? 0) || (v =? 16)); [|eauto].
  destruct (len vs <? i + 7) eqn:E7; [eauto|].
  destruct (index_in_range vs (i + 1)) as [v1 ->]; [lia|]. simpl.
  destruct (negb (v1 =? 0)); [eauto|].
  destruct (index_in_range vs (i + 3)) as [i3 ->]; [lia|]. simpl.
  destruct (index_in_range vs (i + 6)) as [i6 ->]; [lia|]. simpl.
  destruct (index_in_range vs (i + 7)) as [i7 ->]; [lia|]. simpl.
  destruct (len vs >=? i + 12) eqn:E12; [|simpl; eauto].
  destruct (index_in_range vs (i + 8)) as [i8 ->]; [lia|]. simpl.
  destruct (index_in_range vs (i + 9)) as [i9 ->]; [lia|]. simpl.
  destruct (index_in_range vs (i + 10)) as [i10 ->]; [lia|]. simpl.
  destruct (index_in_range vs (i + 11)) as [i11 ->]; [lia|]. simpl.
  destruct (index_in_range vs (i + 12)) as [i12 ->]; [lia|]. simpl.
  eauto.
Qed.

Lemma scan_Ok vs :
  len vs mod 12 <> 0 -> len vs mod 12 <> 7 ->
  forall i, 0 <= i -> i mod 12 = 0 ->
  forall s lg, exists r, scan vs i s lg = Ok r.
Proof.
  intros H0 H7. apply (scan_ind vs (fun i => 0 <= i -> i mod 12 = 0 ->
    forall s lg, exists r, scan vs i s lg = Ok r)).
  intros i IH Hi Hm s lg. rewrite scan_unfold.
  destruct (decide (i < len vs)) as [Hlt|]; [|eauto].
  destruct (body_Ok vs i s) as [[[f s'] l] ->]; [lia| | |].
  - intros E. rewrite E in H7. apply H7.
    rewrite <- Z.add_mod_idemp_l, Hm by lia. reflexivity.
  - intros E. rewrite E in H0. apply H0.
    rewrite <- Z.add_mod_idemp_l, Hm by lia. reflexivity.
  - destruct f; [eauto|]. apply IH; [done|lia|].
    rewrite <- Z.add_mod_idemp_l, Hm by lia. reflexivity.
Qed.

(** X1. A table whose length leaves a remainder other than 0 and 7 when
    divided by 12 is scanned to its end without a panic. *)
Theorem decode_returns_off_the_record_boundaries (vs : list uint8) :
  len vs mod 12 <> 0 -> len vs mod 12 <> 7 ->
  exists s lg, decode vs = Ok (s, lg).
Proof.
  intros H0 H7.
  destruct (scan_Ok vs H0 H7 0 ltac:(lia) eq_refl declared []) as [[s lg] H].
  now exists s, lg.
Qed.

(** A table of 20 bytes: a record of attribute 194, and the first 8
    bytes of a record of attribute 5. *)
Definition two_records_cut_short : list uint8 :=
  uint8s [16; 0; 0; 194; 0; 0; 100; 100; 45; 0; 20; 0;
          0; 0; 0; 5; 0; 0; 100; 100].

(** X1 (an instance). The table of 20 bytes. *)
Lemma a_table_of_20_bytes_is_decoded :
  len two_records_cut_short mod 12 <> 0 /\
  len two_records_cut_short mod 12 <> 7 /\
  exists s lg, decode two_records_cut_short = Ok (s, lg).
Proof.
  assert (len two_records_cut_short mod 12 <> 0) as H0
    by (vm_compute; discriminate).
  assert (len two_records_cut_short mod 12 <> 7) as H7
    by (vm_compute; discriminate).
  exact (conj H0 (conj H7
           (decode_returns_off_the_record_boundaries _ H0 H7))).
Defined.

(** *** The range of the locals *)

Ltac by_attribute_id :=
  repeat match goal with
         | |- context [match ?x with _ => _ end] => is_var x; destruct x
         end.

Lemma vendec_of_range i3 i8 i9 i10 i11 i12 :
  is_byte i8 -> is_byte i9 -> is_byte i10 -> is_byte i11 -> is_byte i12 ->
  0 <= vendec_of i3 i8 i9 i10 i11 i12 <= 21675.
Proof.
  unfold is_byte, vendec_of. intros.
  change (Z.lxor 16 8) with 24. change (Z.lxor 16 6) with 22.
  change (Z.lxor 16 4) with 20. change (Z.lxor 16 2) with 18.
  by_attribute_id; lia.
Qed.

(** No local is negative, [attrcriterror] is at most [a],
    [hddattrcriterror] at most [h], and every other local at most the
    largest raw value, 255 * (24 + 22 + 20 + 18 + 1). *)
Definition small (a h : Z) (s : locals) : Prop :=
  forall x,
    0 <= get x s /\
    match x with
    | attrcriterror => get x s <= a
    | hddattrcriterror => get x s <= h
    | _ => get x s <= 21675
    end.

Lemma small_mono a h a' h' s :
  small a h s -> a <= a' -> h <= h' -> small a' h' s.
Proof.
  intros Hs Ha Hh x. destruct (Hs x) as [H0 H1]. split; [done|].
  destruct x; lia.
Qed.

Lemma get_set x y v s :
  get y (set x v s) = if decide (x = y) then v else get y s.
Proof. reflexivity. Qed.

Lemma small_set a h x v s :
  x <> attrcriterror -> x <> hddattrcriterror -> 0 <= v <= 21675 ->
  small a h s -> small a h (set x v s).
Proof.
  intros Hx1 Hx2 Hv Hs y. rewrite get_set.
  destruct (decide (x = y)) as [<-|_]; [|apply Hs].
  split; [lia|]. destruct x; done || lia.
Qed.

Lemma small_set_poh a h f s : small a h s -> small a h (set_poh f s).
Proof. intros Hs y. apply Hs. Qed.

Lemma small_incr_attrcriterror a h s :
  small a h s -> small (a + 1) h (incr attrcriterror s).
Proof.
  intros Hs y. unfold incr. rewrite get_set.
  destruct (decide (attrcriterror = y)) as [<-|Hy].
  - destruct (Hs attrcriterror). simpl. lia.
  - destruct (Hs y) as [H0 H1]. split; [done|]. destruct y; done || lia.
Qed.

Lemma small_incr_hddattrcriterror a h s :
  small a h s -> small a (h + 1) (incr hddattrcriterror s).
Proof.
  intros Hs y. unfold incr. rewrite get_set.
  destruct (decide (hddattrcriterror = y)) as [<-|Hy].
  - destruct (Hs hddattrcriterror). simpl. lia.
  - destruct (Hs y) as [H0 H1]. split; [done|]. destruct y; done || lia.
Qed.

Lemma small_below a h t i6 i7 s :
  small a h s -> small (a + 1) h (below t i6 i7 s).
Proof.
  intros Hs. unfold below. destruct ((i6 <=? t) || (i7 <=? t)).
  - now apply small_incr_attrcriterror.
  - apply (small_mono a h); [done|lia|lia].
Qed.

Lemma small_positive_attrcriterror a h x v s :
  x <> attrcriterror -> x <> hddattrcriterror -> 0 <= v <= 21675 ->
  small a h s -> small (a + 1) h (positive x attrcriterror v s).
Proof.
  intros Hx1 Hx2 Hv Hs. unfold positive.
  pose proof (small_set a h x v s Hx1 Hx2 Hv Hs) as Hs'.
  destruct (0 <? get x (set x v s)).
  - now apply small_incr_attrcriterror.
  - apply (small_mono a h); [done|lia|lia].
Qed.

Lemma small_positive_hddattrcriterror a h x v s :
  x <> attrcriterror -> x <> hddattrcriterror -> 0 <= v <= 21675 ->
  small a h s -> small a (h + 1) (positive x hddattrcriterror v s).
Proof.
  intros Hx1 Hx2 Hv Hs. unfold positive.
  pose proof (small_set a h x v s Hx1 Hx2 Hv Hs) as Hs'.
  destruct (0 <? get x (set x v s)).
  - now apply small_incr_hddattrcriterror.
  - apply (small_mono a h); [done|lia|lia].
Qed.

Lemma assign_small a h i3 i6 i7 i10 i11 i12 vendec s :
  is_byte i6 -> is_byte i10 -> is_byte i11 -> is_byte i12 ->
  0 <= vendec <= 21675 ->
  small a h s -> small (a + 2) (h + 1) (assign i3 i6 i7 i10 i11 i12 vendec s).
Proof.
  unfold is_byte. intros B6 B10 B11 B12 Bv Hs.
  unfold assign. change (Z.lxor 16 2) with 18.
  by_attribute_id;
    repeat match goal with
           | |- context [if ?b then _ else _] => destruct b
           end;
    (eapply small_mono;
     [ repeat
         lazymatch goal with
         | |- small _ _ (below _ _ _ _) => apply small_below
         | |- small _ _ (set_poh _ _) => apply small_set_poh
         | |- small _ _ (incr attrcriterror _) =>
             apply small_incr_attrcriterror
         | |- small _ _ (positive _ attrcriterror _ _) =>
             apply small_positive_attrcriterror; [done|done|lia|]
         | |- small _ _ (positive _ hddattrcriterror _ _) =>
             apply small_positive_hddattrcriterror; [done|done|lia|]
         | |- small _ _ (set _ _ _) => apply small_set; [done|done|lia|]
         | |- small _ _ _ => exact Hs
         end
     | lia | lia ]).
Qed.

Lemma scan_small (vs : list uint8) :
  forall i, 0 <= i ->
  forall k s lg s' lg',
    12 * k <= i -> 12 * k <= len vs + 4 -> small (2 * k) k s ->
    scan vs i s lg = Ok (s', lg') ->
    small (2 * ((len vs + 4) / 12)) ((len vs + 4) / 12) s'.
Proof.
  apply (scan_ind vs (fun i => 0 <= i ->
    forall k s lg s' lg',
      12 * k <= i -> 12 * k <= len vs + 4 -> small (2 * k) k s ->
      scan vs i s lg = Ok (s', lg') ->
      small (2 * ((len vs + 4) / 12)) ((len vs + 4) / 12) s')).
  intros i IH Hi k s lg s' lg' Hk Hlen Hs.
  assert (k <= (len vs + 4) / 12) as Hkl
    by (apply Z.div_le_lower_bound; lia).
  assert (small (2 * ((len vs + 4) / 12)) ((len vs + 4) / 12) s) as Hend
    by (apply (small_mono _ _ _ _ _ Hs); lia).
  rewrite scan_unfold.
  destruct (decide (i < len vs)) as [Hlt|]; [|now intros [= <- <-]].
  destruct (body vs i s) as [[[f s1] l]|] eqn:Eb; [|discriminate].
  assert (small (2 * k) k s1 \/
          (i + 7 < len vs /\ small (2 * (k + 1)) (k + 1) s1)) as Hs1.
  { apply body_Ok_inv in Eb as [->|Hrec]; [now left|]. right.
    destruct Hrec as (i3 & i6 & i7 & i8 & i9 & i10 & i11 & i12 & B3 & B6 &
                      B7 & B8 & B9 & B10 & B11 & B12 & Hlen7 & ->).
    split; [done|].
    replace (2 * (k + 1)) with (2 * k + 2) by lia.
    apply assign_small; try done. now apply vendec_of_range. }
  destruct f.
  - intros [= <- <-]. destruct Hs1 as [Hs1|[Hlen7 Hs1]].
    + apply (small_mono _ _ _ _ _ Hs1); lia.
    + assert (k + 1 <= (len vs + 4) / 12)
        by (apply Z.div_le_lower_bound; lia).
      apply (small_mono _ _ _ _ _ Hs1); lia.
  - destruct Hs1 as [Hs1|[Hlen7 Hs1]].
    + apply (IH Hlt ltac:(lia) k); [lia|lia|done].
    + apply (IH Hlt ltac:(lia) (k + 1)); [lia|lia|done].
Qed.

(** X2. The range of the integer locals after a scan that returns. With
    [n] the number of records that have at least 8 bytes, no local is
    negative, [attrcriterror] is at most 2 n, [hddattrcriterror] at most
    n, and every other local at most 21675: none can leave the range of
    an [int]. *)
Theorem decoded_locals_stay_in_range (vs : list uint8)
    (s : locals) (lg : list logline) :
  decode vs = Ok (s, lg) ->
  let n := (len vs + 4) / 12 in
  forall x,
    0 <= get x s /\
    get attrcriterror s <= 2 * n /\
    get hddattrcriterror s <= n /\
    (x <> attrcriterror -> x <> hddattrcriterror -> get x s <= 21675).
Proof.
  intros H n x.
  assert (small (2 * n) n s) as Hs.
  { apply (scan_small vs 0 ltac:(lia) 0 declared [] s lg);
      [lia|unfold len; lia| |exact H].
    intros y. split; [reflexivity|]. destruct y; simpl; lia. }
  split; [apply (Hs x)|]. split; [apply (Hs attrcriterror)|].
  split; [apply (Hs hddattrcriterror)|].
  intros H1 H2. specialize (Hs x) as [_ Hx].
  destruct x; first [congruence | exact Hx].
Qed.

(** X2 (an instance). The table of 20 bytes has two records of at least
    8 bytes. *)
Lemma locals_of_a_table_of_20_bytes :
  exists s lg,
    decode two_records_cut_short = Ok (s, lg) /\
    forall x,
      0 <= get x s /\
      get attrcriterror s <= 4 /\
      get hddattrcriterror s <= 2 /\
      (x <> attrcriterror -> x <> hddattrcriterror -> get x s <= 21675).
Proof.
  destruct (decode two_records_cut_short) as [[s lg]|] eqn:E;
    [|vm_compute in E; discriminate E].
  exists s, lg. split; [reflexivity|].
  exact (decoded_locals_stay_in_range two_records_cut_short s lg E).
Defined.

(** *** The bytes the scan never reads *)

Lemma len_insert (vs : list uint8) j b : len (<[j := b]> vs) = len vs.
Proof. unfold len. now rewrite length_insert. Qed.

Lemma index_insert_ne (vs : list uint8) j b i :
  i <> Z.of_nat j -> index (<[j := b]> vs) i = index vs i.
Proof.
  intros Hne. unfold index. rewrite len_insert.
  destruct ((0 <=? i) && (i <? len vs)) eqn:E; [|reflexivity].
  rewrite list_lookup_insert_ne by lia. reflexivity.
Qed.

Lemma body_insert (vs : list uint8) j b i s :
  i mod 12 = 0 ->
  (Z.of_nat j mod 12 = 2 \/ Z.of_nat j mod 12 = 4 \/ Z.of_nat j mod 12 = 5) ->
  body (<[j := b]> vs) i s = body vs i s.
Proof.
  intros Hi Hj.
  assert (forall d, 0 <= d <= 12 -> d <> 2 -> d <> 4 -> d <> 5 ->
            index (<[j := b]> vs) (i + d) = index vs (i + d)) as Hidx.
  { intros d Hd H2 H4 H5. apply index_insert_ne. intros E.
    rewrite <- E in Hj. rewrite <- Z.add_mod_idemp_l, Hi in Hj by lia.
    rewrite Z.add_0_l in Hj.
    destruct (decide (d = 12)) as [->|];
      [change (12 mod 12) with 0 in Hj; lia|].
    rewrite Z.mod_small in Hj by lia. lia. }
  pose proof (Hidx 0 ltac:(lia) ltac:(lia) ltac:(lia) ltac:(lia)) as Hidx0.
  rewrite Z.add_0_r in Hidx0.
  unfold body. rewrite len_insert, Hidx0, !Hidx by lia. reflexivity.
Qed.

Lemma scan_insert (vs : list uint8) j b :
  (Z.of_nat j mod 12 = 2 \/ Z.of_nat j mod 12 = 4 \/ Z.of_nat j mod 12 = 5) ->
  forall i, i mod 12 = 0 ->
  forall s lg, scan (<[j := b]> vs) i s lg = scan vs i s lg.
Proof.
  intros Hj.
  apply (scan_ind vs (fun i => i mod 12 = 0 ->
    forall s lg, scan (<[j := b]> vs) i s lg = scan vs i s lg)).
  intros i IH Hi s lg.
  rewrite (scan_unfold (<[j := b]> vs)), (scan_unfold vs).
  rewrite len_insert, body_insert by done.
  destruct (decide (i < len vs)) as [Hlt|]; [|reflexivity].
  destruct (body vs i s) as [[[[] s'] l]|]; try reflexivity.
  apply IH; [done|]. rewrite <- Z.add_mod_idemp_l, Hi by lia. reflexivity.
Qed.

(** X3. The scan never reads the bytes at the offsets 2, 4 and 5 of a
    record: overwriting one of them changes neither the locals nor the
    lines logged nor whether the scan panics. *)
Theorem decode_ignores_offsets_2_4_5 (vs : list uint8) (j : nat) (b : uint8) :
  (Z.of_nat j mod 12 = 2 \/ Z.of_nat j mod 12 = 4 \/ Z.of_nat j mod 12 = 5) ->
  decode (<[j := b]> vs) = decode vs.
Proof. intros Hj. now apply scan_insert. Qed.

(** X3 (an instance). The byte at index 16, offset 4 of the second
    record, overwritten with 255. *)
Lemma overwriting_offset_4_of_the_second_record :
  (Z.of_nat 16 mod 12 = 2 \/ Z.of_nat 16 mod 12 = 4 \/
   Z.of_nat 16 mod 12 = 5) /\
  decode (<[16%nat := Byte.xff]> two_records_cut_short)
  = decode two_records_cut_short.
Proof.
  refine (let H := _ in
          conj H (decode_ignores_offsets_2_4_5 two_records_cut_short 16
                    Byte.xff H)).
  right. left. reflexivity.
Defined.

(** *** The age of the disk *)

(** [poh] holds the [float64] of a raw value. *)
Definition hours (s : locals) : Prop :=
  exists v, 0 <= v <= 21675 /\ poh s = float64_of_Z v.

Lemma poh_set x v s : poh (set x v s) = poh s.
Proof. reflexivity. Qed.

Lemma poh_incr x s : poh (incr x s) = poh s.
Proof. reflexivity. Qed.

Lemma poh_below t i6 i7 s : poh (below t i6 i7 s) = poh s.
Proof. unfold below. now destruct (_ || _). Qed.

Lemma poh_positive x y v s : poh (positive x y v s) = poh s.
Proof. unfold positive. now destruct (_ <? _). Qed.

Lemma assign_hours i3 i6 i7 i10 i11 i12 vendec s :
  0 <= vendec <= 21675 ->
  hours s -> hours (assign i3 i6 i7 i10 i11 i12 vendec s).
Proof.
  intros Hv (v & Hr & Hs). unfold assign.
  by_attribute_id;
    try (exists v; split; [exact Hr|];
         rewrite ?poh_below, ?poh_set, ?poh_positive, ?poh_below, ?poh_set;
         try exact Hs;
         match goal with
         | |- context [if ?b then _ else _] => destruct b
         end; rewrite ?poh_incr; exact Hs).
  exists vendec. split; [exact Hv|reflexivity].
Qed.

Lemma scan_hours (vs : list uint8) :
  forall i s lg s' lg',
    hours s -> scan vs i s lg = Ok (s', lg') -> hours s'.
Proof.
  apply (scan_ind vs (fun i => forall s lg s' lg',
    hours s -> scan vs i s lg = Ok (s', lg') -> hours s')).
  intros i IH s lg s' lg' Hs. rewrite scan_unfold.
  destruct (decide (i < len vs)) as [Hlt|]; [|now intros [= <- <-]].
  destruct (body vs i s) as [[[f s1] l]|] eqn:Eb; [|discriminate].
  assert (hours s1) as Hs1.
  { apply body_Ok_inv in Eb as [->|Hrec]; [done|].
    destruct Hrec as (i3 & i6 & i7 & i8 & i9 & i10 & i11 & i12 & B3 & B6 &
                      B7 & B8 & B9 & B10 & B11 & B12 & _ & ->).
    apply assign_hours; [now apply vendec_of_range|done]. }
  destruct f; [now intros [= <- <-]|]. now apply IH.
Qed.

(** The test is false for each of the [n] raw values from [v] on. *)
Fixpoint none_old (n : nat) (v : Z) : bool :=
  match n with
  | O => true
  | S n' =>
      negb (float64_of_Z DiskOldAge <? float64_of_Z v)%float
      && none_old n' (v + 1)
  end.

Lemma none_old_spec n : forall v w,
  none_old n v = true -> v <= w < v + Z.of_nat n ->
  (float64_of_Z DiskOldAge <? float64_of_Z w)%float = false.
Proof.
  induction n as [|n IH]; intros v w H Hw; [lia|].
  cbn [none_old] in H. apply andb_prop in H as [H1 H2].
  destruct (decide (w = v)) as [->|Hne].
  - now apply negb_true_iff in H1.
  - apply (IH (v + 1)); [exact H2|lia].
Qed.

Lemma no_raw_value_is_old v :
  0 <= v <= 21675 ->
  (float64_of_Z DiskOldAge <? float64_of_Z v)%float = false.
Proof.
  intros Hv. apply (none_old_spec (Z.to_nat 21676) 0); [|lia].
  vm_compute. reflexivity.
Qed.

(** X4. No disk is ever found old. The hours of operation are the raw
    value of attribute 9, which is at most 255 * (24 + 22 + 20 + 18 + 1)
    = 21675, below [DiskOldAge]; so after every scan that returns, the
    test [poh > DiskOldAge] is false. *)
Theorem no_disk_is_ever_old (vs : list uint8) (s : locals)
    (lg : list logline) :
  decode vs = Ok (s, lg) -> old_age s = false.
Proof.
  intros H.
  destruct (scan_hours vs 0 declared [] s lg) as (v & Hv & Hs);
    [exists 0; split; [lia|reflexivity]|exact H|].
  unfold old_age. rewrite Hs. now apply no_raw_value_is_old.
Qed.

(** A table whose one record holds the largest raw value for attribute
    9. *)
Definition longest_hours : list uint8 :=
  uint8s [16; 0; 0; 9; 0; 0; 100; 100; 255; 255; 255; 255; 255; 0].

(** X4 (an instance). The scan of that table leaves 21675 hours. *)
Lemma the_longest_hours_are_not_old :
  exists s lg,
    decode longest_hours = Ok (s, lg) /\
    poh s = float64_of_Z 21675 /\ old_age s = false.
Proof.
  destruct (decode longest_hours) as [[s lg]|] eqn:E;
    [|vm_compute in E; discriminate E].
  exists s, lg. split; [reflexivity|]. split.
  - vm_compute in E. injection E as <- _. reflexivity.
  - exact (no_disk_is_ever_old longest_hours s lg E).
Defined.

(** *** The samples of the disks *)

(** The three samples sent for an active disk. *)
Definition disk_samples (c : SMARTCollector)
    (disk : MSStorageDriver_ATAPISmartData.t) : list Metric :=
  let volume := MSStorageDriver_ATAPISmartData.InstanceName disk in
  [ MustNewConstMetric (SelfTestStatus c) GaugeValue
      (float64_of_Z (MSStorageDriver_ATAPISmartData.SelfTestStatus disk))
      [volume];
    MustNewConstMetric (TotalTime c) GaugeValue
      (float64_of_Z (MSStorageDriver_ATAPISmartData.TotalTime disk))
      [volume];
    MustNewConstMetric (Capability c) GaugeValue
      (float64_of_Z (MSStorageDriver_ATAPISmartData.SmartCapability disk))
      [volume] ].

(** The table of every active disk has a length that leaves a remainder
    other than 0 and 7 when divided by 12. *)
Definition off_the_record_boundaries
    (dst : list MSStorageDriver_ATAPISmartData.t) : Prop :=
  Forall (fun disk =>
            MSStorageDriver_ATAPISmartData.Active disk = true ->
            let vs := MSStorageDriver_ATAPISmartData.VendorSpecific disk in
            len vs mod 12 <> 0 /\ len vs mod 12 <> 7) dst.

Definition is_active (disk : MSStorageDriver_ATAPISmartData.t) : Prop :=
  MSStorageDriver_ATAPISmartData.Active disk = true.

#[local] Instance is_active_dec disk : Decision (is_active disk).
Proof. unfold is_active. apply _. Defined.

Lemma collect_disks_samples c dst :
  off_the_record_boundaries dst ->
  exists lg,
    collect_disks c dst =
    Ok (disk ← filter is_active dst; disk_samples c disk, lg).
Proof.
  induction dst as [|disk dst IH]; intros Hsafe.
  - now exists [].
  - apply Forall_cons in Hsafe as [Hdisk Hsafe].
    destruct (IH Hsafe) as [lg' Hrest]. simpl. rewrite Hrest.
    unfold collect_disk.
    destruct (MSStorageDriver_ATAPISmartData.Active disk) eqn:Ea; simpl.
    + destruct (Hdisk eq_refl) as [H0 H7].
      destruct (decode_returns_off_the_record_boundaries _ H0 H7)
        as (s & lg & ->). simpl.
      rewrite filter_cons_True by done. eauto.
    + rewrite filter_cons_False by (unfold is_active; congruence). eauto.
Qed.

(** X5. A scrape of disks whose active ones have tables off the record
    boundaries returns without a panic and without an error. It sends
    three gauges for every active disk, in the order of the rows, each
    labelled with the disk's instance name, and nothing for a disk that
    is not active, whose table is not read at all; [Collect] returns
    [nil]. *)
Theorem collect_sends_three_gauges_per_active_disk (Namespace : string)
    (dst : list MSStorageDriver_ATAPISmartData.t) :
  off_the_record_boundaries dst ->
  let c := NewSMARTCollector Namespace in
  let out := disk ← filter is_active dst; disk_samples c disk in
  (exists lg, collect c (inr dst) = Ok (out, lg, None)) /\
  Collect c (inr dst) = Ok None /\
  length out = (3 * length (filter is_active dst))%nat /\
  Forall (fun m => valueType m = GaugeValue /\ labelled m) out.
Proof.
  intros Hsafe c out.
  destruct (collect_disks_samples c dst Hsafe) as [lg H].
  split; [|split; [|split]].
  - exists lg. unfold collect. now rewrite H.
  - unfold Collect, collect. rewrite H. reflexivity.
  - subst out. clear H.
    induction (filter is_active dst) as [|disk l IH]; [done|].
    rewrite bind_cons, length_app, IH. simpl. lia.
  - subst out. apply Forall_bind, Forall_forall. intros disk _.
    unfold compose. repeat (apply Forall_cons; split; [done|]). constructor.
Qed.

(** An active disk with a table of 20 bytes, and a disk that is not
    active whose table of 12 bytes could not be scanned. *)
Definition two_disks : list MSStorageDriver_ATAPISmartData.t :=
  [ MSStorageDriver_ATAPISmartData.mk "disk0" true 0 100 3
      two_records_cut_short;
    MSStorageDriver_ATAPISmartData.mk "disk1" false 0 0 0
      (uint8s [0; 0; 0; 0; 0; 0; 0; 0; 0; 0; 0; 0]) ].

(** X5 (an instance). The scrape of the two disks. *)
Lemma samples_of_two_disks :
  off_the_record_boundaries two_disks /\
  (exists lg,
     collect (NewSMARTCollector "wmi") (inr two_disks)
     = Ok (disk ← filter is_active two_disks;
           disk_samples (NewSMARTCollector "wmi") disk, lg, None)) /\
  Collect (NewSMARTCollector "wmi") (inr two_disks) = Ok None /\
  length (disk ← filter is_active two_disks;
          disk_samples (NewSMARTCollector "wmi") disk)
  = (3 * length (filter is_active two_disks))%nat /\
  Forall (fun m => valueType m = GaugeValue /\ labelled m)
    (disk ← filter is_active two_disks;
     disk_samples (NewSMARTCollector "wmi") disk).
Proof.
  assert (off_the_record_boundaries two_disks) as H.
  { repeat (apply Forall_cons; split);
      [intros _; split; vm_compute; discriminate
      |intros E; discriminate E
      |constructor]. }
  exact (conj H (collect_sends_three_gauges_per_active_disk "wmi" two_disks H)).
Defined.

End SmartFacts.

(** ** The instance filter of the network interface collector *)

Module NetFacts.

Import Utf8 Regexp Net.

Lemma closure_sound text a :
  (forall i j, j ∈ ends a text i -> matches text a i j) ->
  forall fuel i j,
    j ∈ closure (ends a text) fuel i -> matches text (OpStar a) i j.
Proof.
  intros Ha fuel. induction fuel as [|fuel IH]; intros i j; simpl.
  - intros ->%list_elem_of_singleton. constructor.
  - intros [->|Hin]%elem_of_cons; [constructor|].
    apply list_elem_of_bind in Hin as (k & Hj & Hk).
    destruct (i <? k)%nat; [|inversion Hj].
    eapply matches_star_more; eauto.
Qed.

Lemma ends_sound text re : forall i j,
  j ∈ ends re text i -> matches text re i j.
Proof.
  induction re as [|r|neg ranges| | | |a IHa b IHb|a IHa b IHb|a IHa|a IHa|a IHa];
    intros i j; simpl.
  - intros ->%list_elem_of_singleton. constructor.
  - destruct (text !! i) as [c|] eqn:E; [|inversion 1].
    destruct (Z.eqb_spec c r) as [->|]; [|inversion 1].
    intros ->%list_elem_of_singleton. now constructor.
  - destruct (text !! i) as [c|] eqn:E; [|inversion 1].
    destruct (in_class neg ranges c) eqn:Ec; [|inversion 1].
    intros ->%list_elem_of_singleton. econstructor; eauto.
  - destruct (text !! i) as [c|] eqn:E; [|inversion 1].
    destruct (Z.eqb_spec c 10) as [->|]; [inversion 1|].
    intros ->%list_elem_of_singleton. econstructor; eauto.
  - destruct (Nat.eqb_spec i 0) as [->|]; [|inversion 1].
    intros ->%list_elem_of_singleton. constructor.
  - destruct (Nat.eqb_spec i (length text)) as [->|]; [|inversion 1].
    intros ->%list_elem_of_singleton. constructor.
  - intros (k & Hj & Hk)%list_elem_of_bind. econstructor; eauto.
  - intros [H|H]%elem_of_app; [apply matches_left|apply matches_right]; auto.
  - apply closure_sound, IHa.
  - intros (k & Hj & Hk)%list_elem_of_bind.
    eapply matches_plus; [eauto|]. eapply closure_sound; eauto.
  - intros [->|H]%elem_of_cons; [constructor|]. apply matches_quest_one; auto.
Qed.

Lemma matches_bounds text re i j :
  matches text re i j -> (i <= j /\ j <= max i (length text))%nat.
Proof.
  induction 1;
    repeat match goal with
           | H : _ !! _ = Some _ |- _ => apply lookup_lt_Some in H
           end; lia.
Qed.

Lemma closure_start step fuel i : i ∈ closure step fuel i.
Proof. destruct fuel; left. Qed.

(** One more round of a starred pattern. *)
Lemma closure_round text a i k j :
  matches text a i k ->
  k ∈ ends a text i ->
  (forall fuel, (length text - k <= fuel)%nat ->
     j ∈ closure (ends a text) fuel k) ->
  forall fuel, (length text - i <= fuel)%nat ->
    j ∈ closure (ends a text) fuel i.
Proof.
  intros Ha Hk Hj fuel Hfuel.
  destruct (decide (k = i)) as [->|Hne]; [now apply Hj|].
  pose proof (matches_bounds _ _ _ _ Ha) as Bk.
  destruct fuel as [|fuel]; [lia|]. simpl.
  apply elem_of_cons. right. apply list_elem_of_bind. exists k.
  split; [|done].
  assert ((i <? k)%nat = true) as -> by (apply Nat.ltb_lt; lia).
  apply Hj. lia.
Qed.

Lemma ends_complete text re i j :
  matches text re i j ->
  j ∈ ends re text i /\
  forall a, re = OpStar a ->
    forall fuel, (length text - i <= fuel)%nat ->
      j ∈ closure (ends a text) fuel i.
Proof.
  induction 1 as [i|r i Hr|neg ranges c i Hc Hin|c i Hc Hne| |
                  |a b i k j Ha [IHa _] Hb [IHb _]
                  |a b i j Ha [IHa _]|a b i j Hb [IHb _]
                  |a i|a i k j Ha [IHa _] Hs [_ IHs]
                  |a i k j Ha [IHa _] Hs [_ IHs]
                  |a i|a i j Ha [IHa _]];
    (split; [|intros a' Ea; try discriminate Ea]); cbn [ends].
  - left.
  - rewrite Hr, Z.eqb_refl. left.
  - rewrite Hc, Hin. left.
  - rewrite Hc. destruct (Z.eqb_spec c 10); [done|left].
  - left.
  - rewrite Nat.eqb_refl. left.
  - apply list_elem_of_bind. eauto.
  - apply elem_of_app. now left.
  - apply elem_of_app. now right.
  - apply closure_start.
  - intros fuel _. apply closure_start.
  - apply (closure_round text a i k j Ha IHa (IHs a eq_refl) (length text)). lia.
  - injection Ea as <-. intros fuel Hfuel.
    apply (closure_round text a i k j Ha IHa (IHs a eq_refl) fuel Hfuel).
  - apply list_elem_of_bind. exists k. split; [|done].
    apply (IHs a eq_refl). lia.
  - left.
  - apply elem_of_cons. now right.
Qed.

(** [ends] computes exactly the matches. *)
Lemma elem_of_ends text re i j : j ∈ ends re text i <-> matches text re i j.
Proof.
  split; [apply ends_sound|]. intros H. now apply ends_complete in H.
Qed.

#[global] Instance matches_in_full_dec re s : Decision (matches_in_full re s).
Proof.
  unfold matches_in_full.
  destruct (decide (length (runes s) ∈ ends re (runes s) 0%nat)) as [H|H];
    [left|right]; now rewrite <- elem_of_ends.
Defined.

(** [MatchString] tells whether the pattern matches between two
    positions of the string. *)
Lemma MatchString_matches re s :
  MatchString re s = true <->
  exists i j, (i <= length (runes s))%nat /\ matches (runes s) re i j.
Proof.
  unfold MatchString. rewrite existsb_exists.
  setoid_rewrite negb_true_iff. setoid_rewrite bool_decide_eq_false.
  split.
  - intros (i & Hi%in_seq & Hne).
    destruct (ends re (runes s) i) as [|j l] eqn:E; [done|].
    exists i, j. split; [lia|]. apply elem_of_ends. rewrite E. left.
  - intros (i & j & Hi & Hm%elem_of_ends). exists i.
    split; [apply in_seq; lia|]. intros E. rewrite E in Hm. inversion Hm.
Qed.

(** A pattern wrapped in [^(?:...)$] matches only from the first
    position, only up to the last, and only if the pattern itself
    matches between the two. *)
Lemma elem_of_ends_anchored p text i j :
  j ∈ ends (anchored p) text i <->
  i = 0%nat /\ j = length text /\ length text ∈ ends p text 0%nat.
Proof.
  unfold anchored. cbn [ends]. rewrite list_elem_of_bind. split.
  - intros (i' & Hj & Hi).
    destruct (Nat.eqb_spec i 0) as [E|E]; [subst i|inversion Hi].
    apply list_elem_of_singleton in Hi as ->. cbv beta in Hj.
    rewrite list_elem_of_bind in Hj. destruct Hj as (j' & Hj & Hin).
    destruct (Nat.eqb_spec j' (length text)) as [E|E];
      [subst j'|inversion Hj].
    apply list_elem_of_singleton in Hj as ->. done.
  - intros (-> & -> & Hin). exists 0%nat. split; [|left].
    apply list_elem_of_bind. exists (length text). split; [|done].
    rewrite Nat.eqb_refl. left.
Qed.

(** [MatchString] on the wrapped pattern is a match in full. *)
Lemma MatchString_anchored p s :
  MatchString (anchored p) s = true <-> matches_in_full p s.
Proof.
  unfold MatchString, matches_in_full. rewrite <- elem_of_ends.
  rewrite existsb_exists. setoid_rewrite negb_true_iff.
  setoid_rewrite bool_decide_eq_false. split.
  - intros (i & _ & Hne).
    destruct (ends (anchored p) (runes s) i) as [|j l] eqn:E; [done|].
    assert (j ∈ ends (anchored p) (runes s) i) as Hj by (rewrite E; left).
    now apply elem_of_ends_anchored in Hj as (_ & _ & Hin).
  - intros Hin. exists 0%nat. split; [apply in_seq; lia|].
    intros E.
    assert (length (runes s) ∈ ends (anchored p) (runes s) 0) as Hj
      by now apply elem_of_ends_anchored.
    rewrite E in Hj. inversion Hj.
Qed.

Lemma MatchString_anchored_false p s :
  MatchString (anchored p) s = false <-> ~ matches_in_full p s.
Proof.
  rewrite <- MatchString_anchored. now destruct (MatchString _ _).
Qed.

Lemma DecodeRune_width b rest : (1 <= (DecodeRune b rest).2)%nat.
Proof. unfold DecodeRune. repeat case_match; simpl; lia. Qed.

Lemma string_of_bytes_nil bs : string_of_bytes bs = "" <-> bs = [].
Proof. unfold string_of_bytes. destruct bs; simpl; split; done. Qed.

Lemma bytes_nil s : bytes s = [] <-> s = "".
Proof. unfold bytes. destruct s; simpl; split; done. Qed.

(** Mangling a name leaves it empty only if it was. *)
Lemma mangleNetworkName_empty name :
  mangleNetworkName name = "" <-> name = "".
Proof.
  unfold mangleNetworkName, ReplaceAllString_class, segments.
  rewrite string_of_bytes_nil, <- bytes_nil.
  destruct (bytes name) as [|b rest]; [done|].
  split; [|done]. cbn [segments_from].
  pose proof (DecodeRune_width b rest) as Hw.
  destruct (DecodeRune b rest) as [r w]. simpl in Hw.
  destruct w as [|w]; [lia|]. rewrite bind_cons. cbn [take].
  destruct (in_class true nicNameToUnderscore_ranges r); discriminate.
Qed.

(** The rows the loop of [collect] sends samples for. *)
Lemma collect_nic_included Namespace nicWhitelist nicBlacklist nic :
  let Name := Win32_PerfRawData_Tcpip_NetworkInterface.Name nic in
  collect_nic (NewNetworkCollector Namespace nicWhitelist nicBlacklist) nic
    <> [] <->
  matches_in_full nicWhitelist Name /\
  ~ matches_in_full nicBlacklist Name /\
  Name <> "".
Proof.
  intros Name. unfold collect_nic. cbn [NewNetworkCollector
    nicWhitelistPattern nicBlacklistPattern]. fold Name.
  destruct (MatchString (anchored nicBlacklist) Name) eqn:Eb.
  { apply MatchString_anchored in Eb. simpl. split; [done|tauto]. }
  apply MatchString_anchored_false in Eb.
  destruct (MatchString (anchored nicWhitelist) Name) eqn:Ew; simpl.
  2:{ apply MatchString_anchored_false in Ew. split; [done|tauto]. }
  apply MatchString_anchored in Ew.
  pose proof (mangleNetworkName_empty Name) as Hm.
  destruct (decide (mangleNetworkName Name = "")) as [E|E].
  - split; [done|]. intros (_ & _ & Hne). tauto.
  - split; [|done]. intros _. tauto.
Qed.

(** The whitelist [.+] and the blacklist [^Loopback$]. *)
Definition dot_plus : syntax := OpPlus OpAnyCharNotNL.

Definition Loopback_only : syntax :=
  OpConcat OpBeginText (OpConcat (literal "Loopback") OpEndText).

(** Whether a closed pattern matches a closed string in full, by
    evaluation. *)
Ltac evaluate_match :=
  first [ apply (bool_decide_unpack _); vm_compute; exact I
        | apply (proj1 (bool_decide_eq_false _)); vm_compute; reflexivity ].

(** C5 (counterexample). With the whitelist [.*] and the blacklist
    [^Loopback$], a row whose name is empty matches the whitelist in
    full and does not match the blacklist in full, and yet no sample is
    sent for it: the loop also skips a row whose mangled name is
    empty. *)
Lemma row_with_empty_name_is_left_out :
  let nicWhitelist := OpStar OpAnyCharNotNL in
  let c := NewNetworkCollector "wmi" nicWhitelist Loopback_only in
  let nic :=
    Win32_PerfRawData_Tcpip_NetworkInterface.mk 1 2 3 "" 4 5 6 7 8 9 10 11 in
  ~ (collect_nic c nic <> [] <->
     matches_in_full nicWhitelist "" /\ ~ matches_in_full Loopback_only "").
Proof.
  intros wl c nic [_ H]. apply H; [|reflexivity].
  split; evaluate_match.
Qed.

(** C5 (amended). Samples are sent for a row if and only if its name
    matches the whitelist pattern in full, does not match the blacklist
    pattern in full, and is not empty (the loop skips a row whose
    mangled name is empty, which is the case for the empty name only).
    With the whitelist [.+] and the blacklist [^Loopback$], no sample is
    sent for a row named [Loopback], and the eleven samples of the row
    are sent for a row named [Ethernet0]. *)
Theorem row_is_included_iff (Namespace : string)
    (nicWhitelist nicBlacklist : syntax)
    (nic : Win32_PerfRawData_Tcpip_NetworkInterface.t) :
  let Name := Win32_PerfRawData_Tcpip_NetworkInterface.Name nic in
  (collect_nic (NewNetworkCollector Namespace nicWhitelist nicBlacklist) nic
     <> [] <->
   matches_in_full nicWhitelist Name /\
   ~ matches_in_full nicBlacklist Name /\
   Name <> "") /\
  (Name = "Loopback" ->
   collect_nic (NewNetworkCollector Namespace dot_plus Loopback_only) nic
     = []) /\
  (Name = "Ethernet0" ->
   length
     (collect_nic (NewNetworkCollector Namespace dot_plus Loopback_only) nic)
     = 11%nat).
Proof.
  intros Name. split; [apply collect_nic_included|]. split; intros HName.
  - destruct (collect_nic _ nic) eqn:E; [done|]. exfalso.
    assert (collect_nic (NewNetworkCollector Namespace dot_plus Loopback_only)
              nic <> []) as Hne by (rewrite E; done).
    apply collect_nic_included in Hne as (_ & Hbl & _). apply Hbl.
    fold Name. rewrite HName. evaluate_match.
  - assert (collect_nic (NewNetworkCollector Namespace dot_plus Loopback_only)
              nic <> []) as Hne.
    { apply collect_nic_included. fold Name. rewrite HName.
      split; [evaluate_match|]. split; [evaluate_match|done]. }
    revert Hne. unfold collect_nic.
    destruct (_ || _); [done|]. destruct (decide _); [done|]. reflexivity.
Qed.


(** *** Mangled names *)

(** A letter or a digit of ASCII. *)
Definition alphanumeric (b : Z) : bool :=
  in_class false nicNameToUnderscore_ranges b.

(** A letter, a digit or the underscore. *)
Definition word_byte (b : Z) : Prop :=
  alphanumeric b = true \/ b = 95.

Lemma alphanumeric_ascii b : alphanumeric b = true -> 0 <= b < 128.
Proof.
  unfold alphanumeric, in_class, nicNameToUnderscore_ranges, between. simpl.
  lia.
Qed.

Lemma in_class_alphanumeric r :
  in_class true nicNameToUnderscore_ranges r = negb (alphanumeric r).
Proof. reflexivity. Qed.

Lemma bytes_range s : Forall (fun b => 0 <= b < 256) (bytes s).
Proof.
  unfold bytes. apply Forall_fmap, Forall_forall. intros a _. simpl.
  pose proof (N_ascii_bounded a). lia.
Qed.

Lemma bytes_string_of_bytes bs :
  Forall (fun b => 0 <= b < 256) bs -> bytes (string_of_bytes bs) = bs.
Proof.
  unfold bytes, string_of_bytes. intros H.
  rewrite Stdlib.Strings.String.list_ascii_of_string_of_list_ascii, <- list_fmap_compose.
  rewrite <- (list_fmap_id bs) at 2. apply Forall_fmap_ext_1.
  apply (Forall_impl _ _ _ H). intros b Hb. simpl.
  rewrite N_ascii_embedding by lia. lia.
Qed.

Lemma string_of_bytes_bytes s : string_of_bytes (bytes s) = s.
Proof.
  unfold bytes, string_of_bytes. rewrite <- list_fmap_compose.
  rewrite <- (Stdlib.Strings.String.string_of_list_ascii_of_string s) at 2. f_equal.
  rewrite <- (list_fmap_id (String.list_ascii_of_string s)) at 2.
  apply list_fmap_ext. intros i a _. simpl.
  rewrite N2Z.id. apply ascii_N_embedding.
Qed.

Lemma length_string_of_bytes bs :
  String.length (string_of_bytes bs) = length bs.
Proof.
  unfold string_of_bytes.
  rewrite <- (length_fmap (fun b => ascii_of_N (Z.to_N b)) bs).
  generalize ((fun b => ascii_of_N (Z.to_N b)) <$> bs). intros l.
  induction l as [|a l IH]; [done|]. simpl. now rewrite IH.
Qed.

Lemma length_bytes s : length (bytes s) = String.length s.
Proof.
  unfold bytes. rewrite length_fmap.
  induction s as [|a s IH]; [done|]. simpl. now rewrite IH.
Qed.

Lemma lor_ge_l a b : 0 <= a -> 0 <= b -> 128 <= a -> 128 <= Z.lor a b.
Proof.
  intros Ha Hb H.
  assert (7 <= Z.log2 a) as Hl by (apply Z.log2_le_pow2; lia).
  assert (7 <= Z.log2 (Z.lor a b)) as Hlor
    by (rewrite Z.log2_lor by done; lia).
  assert (0 < Z.lor a b).
  { destruct (Z.lt_ge_cases 0 (Z.lor a b)) as [|Hn]; [done|].
    rewrite (Z.log2_nonpos _ Hn) in Hlor. lia. }
  change 128 with (2 ^ 7). now apply Z.log2_le_pow2.
Qed.

Lemma lor_ge_r a b : 0 <= a -> 0 <= b -> 128 <= b -> 128 <= Z.lor a b.
Proof. intros. rewrite Z.lor_comm. now apply lor_ge_l. Qed.

Lemma land_mask x n : 0 <= n -> 0 <= Z.land x (Z.ones n) < 2 ^ n.
Proof.
  intros Hn. rewrite Z.land_ones by done. apply Z.mod_pos_bound. lia.
Qed.

Ltac bits := Z.div_mod_to_equations; lia.

(** A rune below 128 is decoded from the one byte that is its value. *)
Lemma DecodeRune_ascii b rest :
  (DecodeRune b rest).1 < 128 ->
  DecodeRune b rest = (b, 1%nat).
Proof.
  unfold DecodeRune, between.
  destruct (b <? 128) eqn:E; [done|].
  change 31 with (Z.ones 5). change 15 with (Z.ones 4).
  change 7 with (Z.ones 3). change 63 with (Z.ones 6).
  repeat match goal with
         | |- context [if ?c then _ else _] =>
             let H := fresh "C" in destruct c eqn:H; simpl
         | |- context [match ?l with [] => _ | _ :: _ => _ end] =>
             destruct l; simpl
         end;
    try (unfold RuneError; lia);
    intros Hr; exfalso;
    repeat match goal with
           | H : context [Z.land ?x (Z.ones ?n)] |- _ =>
               let L := fresh "L" in
               let L' := fresh "L" in
               let v := fresh "v" in
               let E := fresh "E" in
               pose proof (land_mask x n ltac:(lia)) as L;
               pose proof (Z.land_ones x n ltac:(lia)) as L';
               remember (Z.land x (Z.ones n)) as v eqn:E; clear E
           end;
    rewrite ?Z.shiftl_mul_pow2 in Hr by lia;
    match type of Hr with
    | ?r < 128 => assert (128 <= r); [|lia]
    end;
    first
      [ apply lor_ge_l; [lia|rewrite ?Z.lor_nonneg; lia|bits]
      | apply lor_ge_r; [lia|rewrite ?Z.lor_nonneg; lia|];
        first
          [ apply lor_ge_l; [lia|rewrite ?Z.lor_nonneg; lia|bits]
          | apply lor_ge_r; [lia|rewrite ?Z.lor_nonneg; lia|];
            apply lor_ge_l; [lia|rewrite ?Z.lor_nonneg; lia|bits] ] ].
Qed.

(** Every rune of a byte sequence is encoded by at least one byte, and
    an alphanumeric rune by the one byte that is its value. *)
Lemma segments_from_alphanumeric bs : forall skip,
  Forall (fun seg : Z * list Z =>
            alphanumeric seg.1 = true -> seg.2 = [seg.1])
    (segments_from skip bs).
Proof.
  induction bs as [|b rest IH]; intros skip; [constructor|].
  destruct skip as [|k]; simpl; [|apply IH].
  destruct (DecodeRune b rest) as [r w] eqn:Ed.
  apply Forall_cons. split; [|apply IH]. simpl. intros Hr.
  apply alphanumeric_ascii in Hr.
  rewrite DecodeRune_ascii in Ed by (rewrite Ed; simpl; lia).
  injection Ed as <- <-. reflexivity.
Qed.

Lemma length_segments_from bs : forall skip,
  (length (segments_from skip bs) <= length bs)%nat.
Proof.
  induction bs as [|b rest IH]; intros skip; [done|].
  destruct skip as [|k]; simpl.
  - destruct (DecodeRune b rest) as [r w]. simpl.
    specialize (IH (w - 1)%nat). lia.
  - specialize (IH k). lia.
Qed.

(** The bytes [mangleNetworkName] puts for one rune. *)
Definition mangled (seg : Z * list Z) : list Z :=
  let '(r, enc) := seg in
  if in_class true nicNameToUnderscore_ranges r then bytes "_" else enc.

Lemma bytes_mangleNetworkName name :
  bytes (mangleNetworkName name) = segments name ≫= mangled /\
  Forall (fun seg => exists b, mangled seg = [b] /\ word_byte b)
    (segments name).
Proof.
  assert (Forall (fun seg => exists b, mangled seg = [b] /\ word_byte b)
            (segments name)) as Hw.
  { apply (Forall_impl _ _ _ (segments_from_alphanumeric (bytes name) 0)).
    intros [r enc] Hseg. cbn [fst snd] in Hseg. unfold mangled.
    rewrite in_class_alphanumeric.
    destruct (alphanumeric r) eqn:Er; cbn [negb].
    - exists r. rewrite Hseg by done. split; [done|now left].
    - exists 95. split; [done|now right]. }
  split; [|exact Hw].
  change (bytes (string_of_bytes (segments name ≫= mangled))
          = segments name ≫= mangled).
  apply bytes_string_of_bytes.
  induction Hw as [|seg segs (b & Hm & Hb) _ IH]; [constructor|].
  rewrite bind_cons, Hm. apply Forall_cons. split; [|exact IH].
  destruct Hb as [Hb| ->]; [apply alphanumeric_ascii in Hb|]; lia.
Qed.

Lemma mangled_word_bytes (segs : list (Z * list Z)) :
  Forall (fun seg => exists b, mangled seg = [b] /\ word_byte b) segs ->
  Forall word_byte (segs ≫= mangled).
Proof.
  induction 1 as [|seg segs (b & Hm & Hb) _ IH]; [constructor|].
  rewrite bind_cons, Hm. now apply Forall_cons.
Qed.

(** X6. A mangled name is made of ASCII letters, digits and underscores
    only, whatever the bytes of the name are. *)
Theorem mangled_name_is_made_of_word_bytes (name : string) :
  Forall word_byte (bytes (mangleNetworkName name)).
Proof.
  destruct (bytes_mangleNetworkName name) as [-> Hw].
  now apply mangled_word_bytes.
Qed.

(** X7. Mangling keeps one byte per rune: the mangled name is as long as
    the name has runes, and so at most as long as the name. *)
Theorem mangled_name_has_one_byte_per_rune (name : string) :
  String.length (mangleNetworkName name) = length (runes name) /\
  (length (runes name) <= String.length name)%nat.
Proof.
  split.
  - rewrite <- length_bytes.
    destruct (bytes_mangleNetworkName name) as [-> Hw].
    unfold runes. rewrite length_fmap.
    induction Hw as [|seg segs (b & Hm & Hb) _ IH]; [done|].
    rewrite bind_cons, Hm. simpl. now rewrite IH.
  - unfold runes, segments. rewrite length_fmap, <- length_bytes.
    apply length_segments_from.
Qed.

Lemma segments_from_ascii bs :
  Forall (fun b => 0 <= b < 128) bs ->
  segments_from 0 bs = (fun b => (b, [b])) <$> bs.
Proof.
  induction 1 as [|b rest Hb _ IH]; [done|].
  cbn [segments_from]. unfold DecodeRune.
  destruct (b <? 128) eqn:E; [|lia]. simpl. now rewrite IH.
Qed.

Lemma word_byte_ascii b : word_byte b -> 0 <= b < 128.
Proof. intros [Hb| ->]; [now apply alphanumeric_ascii|lia]. Qed.

(** X8. The names mangling leaves as they are are those made of letters,
    digits and underscores; so mangling a mangled name changes
    nothing. *)
Theorem mangleNetworkName_fixes_word_names (name : string) :
  (mangleNetworkName name = name <-> Forall word_byte (bytes name)) /\
  mangleNetworkName (mangleNetworkName name) = mangleNetworkName name.
Proof.
  assert (forall s, Forall word_byte (bytes s) -> mangleNetworkName s = s)
    as Hfix.
  { intros s Hs. rewrite <- (string_of_bytes_bytes s) at 2.
    unfold mangleNetworkName, ReplaceAllString_class, segments. f_equal.
    rewrite segments_from_ascii
      by (apply (Forall_impl _ _ _ Hs); apply word_byte_ascii).
    induction Hs as [|b rest Hb _ IH]; [done|].
    rewrite fmap_cons, bind_cons, IH. f_equal.
    rewrite in_class_alphanumeric.
    destruct Hb as [-> | ->]; reflexivity. }
  split; [split|].
  - intros E. rewrite <- E.
    destruct (bytes_mangleNetworkName name) as [-> Hw].
    now apply mangled_word_bytes.
  - apply Hfix.
  - apply Hfix. destruct (bytes_mangleNetworkName name) as [-> Hw].
    now apply mangled_word_bytes.
Qed.

(** *** The default patterns *)

Lemma runes_nil s : runes s = [] <-> s = "".
Proof.
  rewrite <- bytes_nil. unfold runes, segments.
  destruct (bytes s) as [|b rest]; [done|]. split; [|done].
  cbn [segments_from]. destruct (DecodeRune b rest). done.
Qed.

(** [.*] matches any stretch of runes that holds no newline. *)
Lemma matches_star_any text i j :
  matches text (OpStar OpAnyCharNotNL) i j <->
  (i <= j)%nat /\
  forall k, (i <= k < j)%nat -> exists c, text !! k = Some c /\ c <> 10.
Proof.
  split.
  - remember (OpStar OpAnyCharNotNL) as re eqn:Ere.
    induction 1 as [| | | | | | | | | |a i k j Ha _ Hs IH| | |];
      try discriminate Ere.
    + split; [lia|]. intros k Hk. lia.
    + injection Ere as ->. destruct (IH eq_refl) as [Hkj Hall].
      inversion Ha as [| | |c i' Hc Hne| | | | | | | | | |]; subst.
      split; [lia|]. intros k' Hk'.
      destruct (decide (k' = i)) as [->|]; [eauto|]. apply Hall. lia.
  - intros [Hij Hall].
    remember (j - i)%nat as n eqn:En. revert i Hij Hall En.
    induction n as [|n IH]; intros i Hij Hall En.
    + replace j with i by lia. constructor.
    + destruct (Hall i ltac:(lia)) as (c & Hc & Hne).
      apply (matches_star_more _ _ _ (S i)); [now apply (matches_any _ c)|].
      apply IH; [lia| |lia]. intros k Hk. apply Hall. lia.
Qed.

Lemma matches_in_full_dot_plus s :
  matches_in_full dot_plus s <-> s <> "" /\ 10 ∉ runes s.
Proof.
  unfold matches_in_full, dot_plus. rewrite <- runes_nil.
  generalize (runes s). intros text. split.
  - intros H. inversion H as [| | | | | | | | | | |a i k j Ha Hs| |]; subst.
    inversion Ha as [| | |c i' Hc Hne| | | | | | | | | |]; subst.
    apply matches_star_any in Hs as [_ Hall].
    split; [intros ->; discriminate Hc|].
    intros (k & Hk)%list_elem_of_lookup.
    destruct (decide (k = 0%nat)) as [->|]; [congruence|].
    destruct (Hall k) as (c' & Hc' & Hne');
      [apply lookup_lt_Some in Hk; lia|congruence].
  - intros [Hne Hnl]. destruct text as [|c text]; [done|].
    apply (matches_plus _ _ _ 1%nat).
    + apply (matches_any _ c); [done|]. intros ->. apply Hnl. left.
    + apply matches_star_any. split; [simpl; lia|]. intros k Hk.
      destruct (lookup_lt_is_Some_2 (c :: text) k ltac:(lia)) as [c' Hc'].
      exists c'. split; [done|]. intros ->. apply Hnl.
      now apply list_elem_of_lookup_2 in Hc'.
Qed.

Lemma matches_in_full_empty s : matches_in_full OpEmptyMatch s <-> s = "".
Proof.
  unfold matches_in_full. rewrite <- runes_nil. split.
  - intros H. inversion H as [i Hi| | | | | | | | | | | | |].
    now apply nil_length_inv.
  - intros ->. constructor.
Qed.

(** X9. With the default values of the two flags, the whitelist [.+] and
    the empty blacklist, samples are sent for a row if and only if its
    name is not empty and holds no newline. *)
Theorem default_patterns_include_iff (Namespace : string)
    (nic : Win32_PerfRawData_Tcpip_NetworkInterface.t) :
  let Name := Win32_PerfRawData_Tcpip_NetworkInterface.Name nic in
  collect_nic (NewNetworkCollector Namespace dot_plus OpEmptyMatch) nic <> []
  <-> Name <> "" /\ 10 ∉ runes Name.
Proof.
  intros Name. pose proof (collect_nic_included Namespace dot_plus OpEmptyMatch nic) as H.
  cbv zeta in H. fold Name in H. rewrite H.
  rewrite matches_in_full_dot_plus, matches_in_full_empty. tauto.
Qed.

(** *** The samples of the rows *)

(** Samples are sent for the row. *)
Definition included (c : NetworkCollector)
    (nic : Win32_PerfRawData_Tcpip_NetworkInterface.t) : Prop :=
  collect_nic c nic <> [].

#[local] Instance included_dec c nic : Decision (included c nic).
Proof. unfold included. apply _. Defined.




End NetFacts.

(** ** The DFSR collector *)

Module DfsrFacts.

Import Dfsr.

(** *** The enabled sources *)

Lemma Split_nonempty s sep : Split s sep <> [].
Proof.
  destruct s as [|a s]; simpl; [done|].
  destruct (decide (a = sep)); [done|]. destruct (Split s sep); done.
Qed.

Lemma Split_app s1 s2 :
  Split (s1 +:+ "," +:+ s2) ","%char = Split s1 ","%char ++ Split s2 ","%char.
Proof.
  induction s1 as [|a s1 IH]; simpl.
  - reflexivity.
  - change (String.append s1 (String "," s2)) with (s1 +:+ "," +:+ s2).
    rewrite IH. destruct (decide (a = ","%char)); [reflexivity|].
    pose proof (Split_nonempty s1 ","%char).
    destruct (Split s1 ","%char); [done|reflexivity].
Qed.

Lemma unique_sources_lookup separated s :
  unique_sources separated !! s =
  if decide (s <> "" /\ s ∈ separated) then Some true else None.
Proof.
  unfold unique_sources.
  assert (forall (acc : gmap string bool),
    foldl (fun unique s0 => if decide (s0 <> "") then <[s0 := true]> unique
                            else unique) acc separated !! s =
    if decide (s <> "" /\ s ∈ separated) then Some true else acc !! s) as H.
  { induction separated as [|s0 separated IH]; intros acc; simpl.
    - rewrite decide_False; [done|]. intros [_ Hin]. inversion Hin.
    - rewrite IH. destruct (decide (s <> "" /\ s ∈ separated)) as [[Hs Hin]|Hn].
      + rewrite decide_True; [done|]. split; [done|]. now right.
      + destruct (decide (s0 <> "")) as [Hs0|Hs0].
        * destruct (decide (s0 = s)) as [->|Hne].
          -- rewrite lookup_insert_eq. rewrite decide_True; [done|].
             split; [done|left].
          -- rewrite lookup_insert_ne by done.
             rewrite decide_False; [done|].
             intros [Hs [?|?]%elem_of_cons]; [congruence|tauto].
        * apply dec_stable in Hs0. subst s0.
          destruct (decide (s <> "" /\ s ∈ "" :: separated)) as [[Hs Hin]|_];
            [|done].
          apply elem_of_cons in Hin as [?|?]; [congruence|tauto]. }
  rewrite H, lookup_empty. reflexivity.
Qed.

Lemma elem_of_dfsrExpandEnabledSources enabled s :
  s ∈ dfsrExpandEnabledSources enabled <->
  s <> "" /\ s ∈ Split enabled ","%char.
Proof.
  unfold dfsrExpandEnabledSources. rewrite list_elem_of_fmap. split.
  - intros ([k v] & -> & Hin). apply elem_of_map_to_list in Hin.
    rewrite unique_sources_lookup in Hin. simpl.
    destruct (decide _) as [H|]; [exact H|discriminate].
  - intros H. exists (s, true). split; [done|].
    apply elem_of_map_to_list. rewrite unique_sources_lookup.
    now rewrite decide_True.
Qed.

Lemma NoDup_dfsrExpandEnabledSources enabled :
  NoDup (dfsrExpandEnabledSources enabled).
Proof. apply NoDup_fst_map_to_list. Qed.

Lemma same_sources e1 e2 :
  (forall s, s <> "" -> s ∈ Split e1 ","%char <-> s ∈ Split e2 ","%char) ->
  dfsrExpandEnabledSources e1 ≡ₚ dfsrExpandEnabledSources e2.
Proof.
  intros H. apply NoDup_Permutation; try apply NoDup_dfsrExpandEnabledSources.
  intros s. rewrite !elem_of_dfsrExpandEnabledSources.
  split; intros [Hs Hin]; (split; [done|]); now apply (H s Hs).
Qed.

Lemma Split_field s field :
  field ∈ Split s ","%char -> Split field ","%char = [field].
Proof.
  revert field. induction s as [|a s IH]; intros field; simpl.
  - intros ->%list_elem_of_singleton. reflexivity.
  - destruct (decide (a = ","%char)) as [->|Hne].
    + intros [->|Hin]%elem_of_cons; [reflexivity|now apply IH].
    + pose proof (Split_nonempty s ","%char).
      destruct (Split s ","%char) as [|h t] eqn:E; [done|].
      intros [->|Hin]%elem_of_cons.
      * simpl. rewrite decide_False by done.
        rewrite (IH h) by left. reflexivity.
      * apply IH. now right.
Qed.

(** C7. For every value of the flag: whatever order the result of
    [dfsrExpandEnabledSources] comes in, it holds no source twice;
    listing once more a source that the value already lists gives the
    same sources; and so does listing the whole value a second time. *)
Theorem expansion_is_duplicate_free_and_idempotent (enabled : string) :
  (forall result,
     result ≡ₚ dfsrExpandEnabledSources enabled -> NoDup result) /\
  (forall source once twice,
     source ∈ Split enabled ","%char ->
     once ≡ₚ dfsrExpandEnabledSources enabled ->
     twice ≡ₚ dfsrExpandEnabledSources (enabled +:+ "," +:+ source) ->
     once ≡ₚ twice) /\
  (forall once twice,
     once ≡ₚ dfsrExpandEnabledSources enabled ->
     twice ≡ₚ dfsrExpandEnabledSources (enabled +:+ "," +:+ enabled) ->
     once ≡ₚ twice).
Proof.
  split; [|split].
  - intros result ->. apply NoDup_dfsrExpandEnabledSources.
  - intros source once twice Hin -> ->. apply same_sources.
    intros s _. rewrite Split_app, (Split_field _ _ Hin), elem_of_app.
    rewrite list_elem_of_singleton. split; [tauto|].
    intros [?| ->]; done.
  - intros once twice -> ->. apply same_sources.
    intros s _. rewrite Split_app, elem_of_app. tauto.
Qed.

(** C7 (an instance). The flag's default, with a source listed twice,
    and with the whole list given twice. *)
Lemma default_sources_listed_twice :
  (forall result,
     result ≡ₚ dfsrExpandEnabledSources "connection,folder,volume" ->
     NoDup result) /\
  dfsrExpandEnabledSources "connection,folder,volume"
  ≡ₚ dfsrExpandEnabledSources ("connection,folder,volume" +:+ "," +:+ "folder")
  /\
  dfsrExpandEnabledSources "connection,folder,volume"
  ≡ₚ dfsrExpandEnabledSources
       ("connection,folder,volume" +:+ "," +:+ "connection,folder,volume").
Proof.
  destruct (expansion_is_duplicate_free_and_idempotent
              "connection,folder,volume") as (H1 & H2 & H3).
  split; [exact H1|]. split.
  - apply (H2 "folder"); [|reflexivity|reflexivity].
    apply (bool_decide_unpack _). vm_compute. exact I.
  - apply H3; reflexivity.
Defined.

(** *** Runs of [Collect] *)

Section Runs.
Context {perfObject : Type}.
Variable c : DFSRCollector perfObject.
Variable clock : string -> float64.

(** What a goroutine at [p] still sends. *)
Definition still_sends (name : string) (p : pc) : list Metric :=
  match p with
  | in_child pending err =>
      pending ++ [duration_sample c name (clock name);
                  success_sample c name
                    (match err with Some _ => 0%float | None => 1%float end)]
  | load_failure | store_failure _ =>
      [duration_sample c name (clock name); success_sample c name 0%float]
  | send_duration success =>
      [duration_sample c name (clock name); success_sample c name success]
  | send_success success => [success_sample c name success]
  | finished => []
  end.

Lemma step_sends name sh p sh' p' :
  step c name (clock name) sh p = Some (sh', p') ->
  ch sh' ++ still_sends name p' = ch sh ++ still_sends name p.
Proof.
  destruct p as [[|m pending] [err|]| | | | |]; simpl; intros [= <- <-];
    simpl; rewrite <- ?app_assoc; reflexivity.
Qed.

Definition all_still_sent (gs : list (string * pc)) : list Metric :=
  mjoin ((fun g => still_sends g.1 g.2) <$> gs).

Lemma move_sends k cfg cfg' :
  move c clock k cfg = Some cfg' ->
  ch (state cfg') ++ all_still_sent (goroutines cfg')
  ≡ₚ ch (state cfg) ++ all_still_sent (goroutines cfg).
Proof.
  unfold move. destruct (goroutines cfg !! k) as [[name p]|] eqn:Ek; [|done].
  simpl. destruct (step c name (clock name) (state cfg) p) as [[sh p']|] eqn:Es;
    [|done].
  simpl. intros [= <-]. simpl.
  apply step_sends in Es.
  pose proof (take_drop_middle _ _ _ Ek) as Hgs.
  rewrite <- Hgs at 2.
  rewrite insert_take_drop by apply (lookup_lt_Some _ _ _ Ek).
  unfold all_still_sent. rewrite !fmap_app, !fmap_cons, !join_app. simpl.
  rewrite !app_assoc.
  rewrite (Permutation_app_comm (ch sh)), (Permutation_app_comm (ch (state cfg))).
  rewrite <- !app_assoc. apply Permutation_app_head.
  rewrite !app_assoc. apply Permutation_app_tail.
  rewrite <- Es. reflexivity.
Qed.

Lemma run_sends schedule cfg cfg' :
  run c clock schedule cfg = Some cfg' ->
  ch (state cfg') ++ all_still_sent (goroutines cfg')
  ≡ₚ ch (state cfg) ++ all_still_sent (goroutines cfg).
Proof.
  revert cfg. induction schedule as [|k schedule IH]; intros cfg; simpl.
  - now intros [= <-].
  - destruct (move c clock k cfg) as [cfg1|] eqn:Em; [|done]. simpl.
    intros H. rewrite (IH _ H). now apply (move_sends k).
Qed.

Lemma all_finished_sends_nothing gs :
  forallb (fun g => is_finished g.2) gs = true -> all_still_sent gs = [].
Proof.
  induction gs as [|[name p] gs IH]; [done|]. simpl.
  intros [Hp Hgs]%andb_true_iff. destruct p; try done.
  unfold all_still_sent in *. simpl. now apply IH.
Qed.

(** What the goroutine of one entry of the map sends from start to end. *)
Definition sent_for (ctx : ScrapeContext perfObject)
    (entry : string * dfsrCollectorFunc perfObject)
  : list Metric :=
  (entry.2 ctx).1 ++
  [duration_sample c entry.1 (clock entry.1);
   success_sample c entry.1
     (match (entry.2 ctx).2 with
      | Some _ => 0%float
      | None => 1%float
      end)].

Lemma Collect_sends ctx schedule c' out err :
  Collect c ctx clock schedule = Some (c', out, err) ->
  out ≡ₚ mjoin (sent_for ctx <$> map_to_list (dfsrChildCollectors c)).
Proof.
  unfold Collect.
  destruct (run c clock schedule _) as [cfg|] eqn:Er; [|done]. simpl.
  destruct (forallb _ _) eqn:Ef; [|done]. intros [= <- <- <-].
  apply run_sends in Er. simpl in Er.
  rewrite (all_finished_sends_nothing _ Ef), app_nil_r in Er.
  rewrite Er. unfold all_still_sent, started.
  rewrite <- list_fmap_compose.
  assert (forall A (l l' : list A), l = l' -> l ≡ₚ l') as Heq by (now intros A l l' ->). apply Heq. f_equal. apply list_fmap_ext.
  intros i [name fn] _. reflexivity.
Qed.


Lemma run_app s1 s2 cfg :
  run c clock (s1 ++ s2) cfg = run c clock s1 cfg ≫= run c clock s2.
Proof.
  revert cfg. induction s1 as [|k s1 IH]; intros cfg; simpl; [done|].
  destruct (move c clock k cfg); simpl; [apply IH|done].
Qed.

Lemma run_cons_move k schedule name p sh gs sh' p' :
  (k < length gs)%nat ->
  step c name (clock name) sh p = Some (sh', p') ->
  run c clock (k :: schedule) (mkConfig sh (<[k := (name, p)]> gs)) =
  run c clock schedule (mkConfig sh' (<[k := (name, p')]> gs)).
Proof.
  intros Hk Hs. simpl. unfold move. simpl.
  rewrite list_lookup_insert_eq by done. simpl. rewrite Hs. simpl.
  now rewrite list_insert_insert_eq.
Qed.

Lemma run_alone k name gs p sh :
  (k < length gs)%nat ->
  exists sh',
    run c clock (alone k p) (mkConfig sh (<[k := (name, p)]> gs)) =
    Some (mkConfig sh' (<[k := (name, finished)]> gs)).
Proof.
  intros Hk.
  assert (forall sh success, exists sh',
    run c clock (alone k (send_success success))
      (mkConfig sh (<[k := (name, send_success success)]> gs)) =
    Some (mkConfig sh' (<[k := (name, finished)]> gs))) as L1.
  { intros sh0 success. eexists. simpl alone.
    erewrite run_cons_move by (done || reflexivity). reflexivity. }
  assert (forall sh success, exists sh',
    run c clock (alone k (send_duration success))
      (mkConfig sh (<[k := (name, send_duration success)]> gs)) =
    Some (mkConfig sh' (<[k := (name, finished)]> gs))) as L2.
  { intros sh0 success. simpl alone.
    erewrite run_cons_move by (done || reflexivity). apply L1. }
  assert (forall sh v, exists sh',
    run c clock (alone k (store_failure v))
      (mkConfig sh (<[k := (name, store_failure v)]> gs)) =
    Some (mkConfig sh' (<[k := (name, finished)]> gs))) as L3.
  { intros sh0 v. simpl alone.
    erewrite run_cons_move by (done || reflexivity). apply L2. }
  assert (forall sh, exists sh',
    run c clock (alone k load_failure)
      (mkConfig sh (<[k := (name, load_failure)]> gs)) =
    Some (mkConfig sh' (<[k := (name, finished)]> gs))) as L4.
  { intros sh0. simpl alone.
    erewrite run_cons_move by (done || reflexivity). apply L3. }
  destruct p as [pending err| | | | |]; auto.
  - revert sh. induction pending as [|m pending IH]; intros sh.
    + destruct err as [e|]; simpl alone.
      * erewrite run_cons_move by (done || reflexivity). apply L4.
      * erewrite run_cons_move by (done || reflexivity). apply L2.
    + destruct (IH (send m sh)) as [sh' Hsh']. exists sh'.
      rewrite <- Hsh'. destruct err as [e|]; simpl alone;
        erewrite run_cons_move by (done || reflexivity); reflexivity.
  - exists sh. reflexivity.
Qed.

Definition finish (g : string * pc) : string * pc := (g.1, finished).

Lemma run_in_turn_from rest : forall pre sh,
  exists sh',
    run c clock
      (mjoin (imap (fun k g => alone (length pre + k) g.2) rest))
      (mkConfig sh (pre ++ rest)) =
    Some (mkConfig sh' (pre ++ (finish <$> rest))).
Proof.
  induction rest as [|[name p] rest IH]; intros pre sh.
  - exists sh. reflexivity.
  - simpl. rewrite run_app, Nat.add_0_r.
    destruct (run_alone (length pre) name (pre ++ (name, p) :: rest) p sh)
      as [sh1 H1]; [rewrite length_app; simpl; lia|].
    rewrite list_insert_id in H1 by (rewrite list_lookup_middle; done).
    rewrite H1. simpl.
    rewrite insert_app_r_alt, Nat.sub_diag by lia. simpl.
    destruct (IH (pre ++ [(name, finished)]) sh1) as [sh2 H2].
    exists sh2. rewrite <- !app_assoc in H2. simpl in H2.
    etransitivity; [|exact H2]. f_equal. f_equal. apply imap_ext.
    intros k g _. simpl. f_equal. rewrite length_app. simpl. lia.
Qed.

Lemma Collect_in_turn ctx :
  exists c' out err,
    Collect c ctx clock (in_turn (started c ctx)) = Some (c', out, err).
Proof.
  unfold Collect, in_turn.
  destruct (run_in_turn_from (started c ctx) []
              (mkShared (dfsrChildCollectorFailure c) [])) as [sh' H].
  simpl in H. rewrite H. simpl.
  assert (forallb (fun g : string * pc => is_finished g.2)
            (finish <$> started c ctx) = true) as ->.
  { generalize (started c ctx). intros gs.
    induction gs as [|g gs IHgs]; [done|]. exact IHgs. }
  eauto.
Qed.


(** *** The two samples of each child *)

Definition is_duration_of (name : string) (m : Metric) : Prop :=
  desc m = dfsrScrapeDurationDesc c /\ labelValues m = [name].

Definition is_success_of (name : string) (m : Metric) : Prop :=
  desc m = dfsrScrapeSuccessDesc c /\ labelValues m = [name].

#[local] Instance is_duration_of_dec name m : Decision (is_duration_of name m).
Proof. unfold is_duration_of. apply _. Defined.

#[local] Instance is_success_of_dec name m : Decision (is_success_of name m).
Proof. unfold is_success_of. apply _. Defined.

(** A collector whose child functions send no sample under the two
    descriptors of [execute]. *)
Definition children_send_data (ctx : ScrapeContext perfObject) : Prop :=
  dfsrScrapeDurationDesc c <> dfsrScrapeSuccessDesc c /\
  forall name fn,
    dfsrChildCollectors c !! name = Some fn ->
    Forall (fun m => desc m <> dfsrScrapeDurationDesc c /\
                     desc m <> dfsrScrapeSuccessDesc c) (fn ctx).1.

Lemma filter_none {A} (P : A -> Prop) `{!forall x, Decision (P x)} l :
  Forall (fun x => ~ P x) l -> filter P l = [].
Proof.
  induction 1 as [|x l Hx Hl IH]; [done|].
  rewrite filter_cons_False by done. exact IH.
Qed.

Lemma durations_sent ctx name (l : list (string * dfsrCollectorFunc perfObject)) :
  dfsrScrapeDurationDesc c <> dfsrScrapeSuccessDesc c ->
  NoDup l.*1 ->
  Forall (fun entry =>
            Forall (fun m => desc m <> dfsrScrapeDurationDesc c /\
                             desc m <> dfsrScrapeSuccessDesc c)
              (entry.2 ctx).1) l ->
  filter (is_duration_of name) (mjoin (sent_for ctx <$> l)) =
  if decide (name ∈ l.*1) then [duration_sample c name (clock name)] else [].
Proof.
  intros Hdiff Hnd Hdata.
  induction l as [|[n0 f0] l IH]; [done|].
  simpl in Hnd. apply NoDup_cons in Hnd as [Hn0 Hnd].
  apply Forall_cons in Hdata as [Hd0 Hdata].
  specialize (IH Hnd Hdata). rewrite fmap_cons.
  change (mjoin (sent_for ctx (n0, f0) :: (sent_for ctx <$> l)))
    with (sent_for ctx (n0, f0) ++ mjoin (sent_for ctx <$> l)).
  unfold sent_for at 1. cbn [fst snd].
  rewrite <- app_assoc, !filter_app, IH.
  rewrite (filter_none (is_duration_of name) (f0 ctx).1).
  2:{ eapply Forall_impl; [exact Hd0|]. intros m [Hm _] [Hm' _]. done. }
  rewrite app_nil_l.
  assert (~ is_duration_of name
            (success_sample c n0
               match (f0 ctx).2 with Some _ => 0%float | None => 1%float end))
    as Hs by (intros [Hm _]; simpl in Hm; congruence).
  destruct (decide (n0 = name)) as [->|Hne].
  - rewrite filter_cons_True by done.
    rewrite filter_cons_False by done. rewrite filter_nil.
    rewrite decide_False by done. rewrite decide_True by left. done.
  - rewrite filter_cons_False by (intros [_ Hm]; simpl in Hm; congruence).
    rewrite filter_cons_False by done. rewrite filter_nil, app_nil_l.
    destruct (decide (name ∈ l.*1)) as [Hin|Hin].
    + rewrite decide_True by (right; done). done.
    + rewrite decide_False; [done|]. intros [?|?]%elem_of_cons; done.
Qed.

Lemma successes_sent ctx name (l : list (string * dfsrCollectorFunc perfObject)) :
  dfsrScrapeDurationDesc c <> dfsrScrapeSuccessDesc c ->
  NoDup l.*1 ->
  Forall (fun entry =>
            Forall (fun m => desc m <> dfsrScrapeDurationDesc c /\
                             desc m <> dfsrScrapeSuccessDesc c)
              (entry.2 ctx).1) l ->
  filter (is_success_of name) (mjoin (sent_for ctx <$> l)) =
  (fun entry =>
     success_sample c name
       (match (entry.2 ctx).2 with Some _ => 0%float | None => 1%float end))
    <$> filter (fun entry => entry.1 = name) l.
Proof.
  intros Hdiff Hnd Hdata.
  induction l as [|[n0 f0] l IH]; [done|].
  simpl in Hnd. apply NoDup_cons in Hnd as [Hn0 Hnd].
  apply Forall_cons in Hdata as [Hd0 Hdata].
  specialize (IH Hnd Hdata). rewrite fmap_cons.
  change (mjoin (sent_for ctx (n0, f0) :: (sent_for ctx <$> l)))
    with (sent_for ctx (n0, f0) ++ mjoin (sent_for ctx <$> l)).
  unfold sent_for at 1. cbn [fst snd].
  rewrite <- app_assoc, !filter_app, IH.
  rewrite (filter_none (is_success_of name) (f0 ctx).1).
  2:{ eapply Forall_impl; [exact Hd0|]. intros m [_ Hm] [Hm' _]. done. }
  rewrite app_nil_l.
  rewrite (filter_cons_False _ (duration_sample _ _ _)).
  2:{ intros [Hm _]. simpl in Hm. congruence. }
  destruct (decide (n0 = name)) as [->|Hne].
  - rewrite filter_cons_True by done. rewrite filter_nil.
    rewrite (filter_cons_True (fun entry => entry.1 = name)) by done. done.
  - rewrite filter_cons_False by (intros [_ Hm]; simpl in Hm; congruence).
    rewrite filter_nil.
    rewrite (filter_cons_False (fun entry => entry.1 = name)) by done. done.
Qed.

Lemma entries_named name fn :
  dfsrChildCollectors c !! name = Some fn ->
  filter (fun entry : string * dfsrCollectorFunc perfObject => entry.1 = name)
    (map_to_list (dfsrChildCollectors c)) = [(name, fn)].
Proof.
  intros Hfn.
  pose proof (NoDup_fst_map_to_list (dfsrChildCollectors c)) as Hnd.
  assert ((name, fn) ∈ map_to_list (dfsrChildCollectors c)) as Hin
    by now apply elem_of_map_to_list.
  revert Hnd Hin. generalize (map_to_list (dfsrChildCollectors c)).
  intros l. induction l as [|[n0 f0] l IH]; intros Hnd Hin.
  - inversion Hin.
  - simpl in Hnd. apply NoDup_cons in Hnd as [Hn0 Hnd].
    apply elem_of_cons in Hin as [[= <- <-]|Hin].
    + rewrite filter_cons_True by done. f_equal.
      apply filter_none. apply Forall_forall. intros [n1 f1] Hin1 E.
      simpl in E. subst n1. apply Hn0. apply list_elem_of_fmap.
      exists (name, f1). done.
    + rewrite filter_cons_False; [now apply IH|].
      simpl. intros ->. apply Hn0. apply list_elem_of_fmap.
      exists (name, fn). done.
Qed.

Lemma Collect_reports ctx schedule c' out err name fn :
  children_send_data ctx ->
  Collect c ctx clock schedule = Some (c', out, err) ->
  dfsrChildCollectors c !! name = Some fn ->
  filter (is_duration_of name) out = [duration_sample c name (clock name)] /\
  filter (is_success_of name) out =
    [success_sample c name
       (match (fn ctx).2 with Some _ => 0%float | None => 1%float end)].
Proof.
  intros [Hdiff Hdata] HC Hfn.
  apply Collect_sends in HC.
  pose proof (NoDup_fst_map_to_list (dfsrChildCollectors c)) as Hnd.
  assert (Forall (fun entry : string * dfsrCollectorFunc perfObject =>
            Forall (fun m => desc m <> dfsrScrapeDurationDesc c /\
                             desc m <> dfsrScrapeSuccessDesc c)
              (entry.2 ctx).1) (map_to_list (dfsrChildCollectors c))) as Hall.
  { apply Forall_forall. intros [n f] Hin.
    apply elem_of_map_to_list in Hin. exact (Hdata n f Hin). }
  split.
  - apply Permutation_singleton_r. rewrite HC.
    rewrite (durations_sent ctx name _ Hdiff Hnd Hall).
    rewrite decide_True; [done|].
    apply list_elem_of_fmap. exists (name, fn). split; [done|].
    now apply elem_of_map_to_list.
  - apply Permutation_singleton_r. rewrite HC.
    rewrite (successes_sent ctx name _ Hdiff Hnd Hall).
    rewrite (entries_named name fn Hfn). done.
Qed.

End Runs.

(** *** The failure count across a run

    The count is read and written in two steps, so a write can put back
    an older value plus one. What holds in every run: the count never
    ends below the value it started with, it ends above it if a child
    failed, and it is untouched if none did. *)

Section FailureCount.
Context {perfObject : Type}.
Variable c : DFSRCollector perfObject.
Variable clock : string -> float64.
Variable ctx : ScrapeContext perfObject.

Definition is_error (err : option error) : bool :=
  match err with Some _ => true | None => false end.

(** The child [name] is in the map and its function returns an error. *)
Definition fails (name : string) : bool :=
  match dfsrChildCollectors c !! name with
  | Some fn => is_error (fn ctx).2
  | None => false
  end.

(** The goroutine has written the failure count back. *)
Definition has_written (g : string * pc) : bool :=
  fails g.1 &&
  match g.2 with
  | send_duration _ | send_success _ | finished => true
  | _ => false
  end.

Definition writes (gs : list (string * pc)) : Z :=
  Z.of_nat (length (filter (fun g => has_written g = true) gs)).

(** What the state of a goroutine says about its child, when the
    failure count was [f0] at the start and [w] goroutines have written
    it since. *)
Definition sound (f0 w : Z) (g : string * pc) : Prop :=
  match g.2 with
  | in_child _ err => fails g.1 = is_error err
  | load_failure => fails g.1 = true
  | store_failure v => fails g.1 = true /\ f0 <= v <= f0 + w
  | _ => True
  end.

Definition count_invariant (f0 : Z) (cfg : config) : Prop :=
  let w := writes (goroutines cfg) in
  Forall (sound f0 w) (goroutines cfg) /\
  f0 <= failure (state cfg) <= f0 + w /\
  (0 < w -> f0 + 1 <= failure (state cfg)).

Lemma sound_mono f0 w w' g : w <= w' -> sound f0 w g -> sound f0 w' g.
Proof.
  unfold sound. destruct g as [name p]; simpl.
  destruct p; auto. intros Hw [Hf Hv]. split; [done|lia].
Qed.

Lemma writes_app gs1 gs2 : writes (gs1 ++ gs2) = writes gs1 + writes gs2.
Proof. unfold writes. rewrite filter_app, length_app. lia. Qed.

Lemma writes_cons g gs :
  writes (g :: gs) = (if has_written g then 1 else 0) + writes gs.
Proof.
  unfold writes. destruct (has_written g) eqn:E.
  - rewrite filter_cons_True by done. simpl length. lia.
  - rewrite filter_cons_False by (rewrite E; done). lia.
Qed.

Lemma writes_bounds gs : 0 <= writes gs <= Z.of_nat (length gs).
Proof.
  unfold writes. pose proof (length_filter (fun g => has_written g = true) gs).
  lia.
Qed.

Lemma int_wrap_small z : - 2 ^ 63 <= z < 2 ^ 63 -> int_wrap z = z.
Proof.
  intros H. unfold int_wrap.
  rewrite Z.mod_small by lia. lia.
Qed.

Lemma move_count_invariant f0 k cfg cfg' :
  - 2 ^ 63 <= f0 ->
  f0 + Z.of_nat (length (goroutines cfg)) < 2 ^ 63 ->
  count_invariant f0 cfg ->
  move c clock k cfg = Some cfg' ->
  count_invariant f0 cfg' /\
  (goroutines cfg').*1 = (goroutines cfg).*1.
Proof.
  intros Hf0 Hn (Hsound & Hfail & Hpos). unfold move.
  destruct (goroutines cfg !! k) as [[name p]|] eqn:Ek; [|done]. simpl.
  destruct (step c name (clock name) (state cfg) p) as [[sh p']|] eqn:Es;
    [|done].
  simpl. intros [= <-].
  pose proof (take_drop_middle _ _ _ Ek) as Hgs.
  pose proof (lookup_lt_Some _ _ _ Ek) as Hk.
  rewrite insert_take_drop by done.
  destruct cfg as [sh0 gs]. cbn [goroutines state] in *.
  set (pre := take k gs) in *.
  set (post := drop (S k) gs) in *.
  clearbody pre post. subst gs. clear Ek Hk.
  unfold count_invariant. cbn [goroutines state].
  rewrite !fmap_app, !fmap_cons. cbn [fst]. split; [|done].
  rewrite writes_app, writes_cons in Hsound, Hfail, Hpos.
  rewrite writes_app, writes_cons.
  apply Forall_app in Hsound as [Hpre Hmid].
  apply Forall_cons in Hmid as [Hg Hpost].
  pose proof (writes_bounds pre) as Bpre.
  pose proof (writes_bounds post) as Bpost.
  rewrite length_app in Hn. cbn [length] in Hn.
  rewrite !Forall_app, !Forall_cons.
  unfold has_written in *. unfold sound in Hg. cbn [fst snd] in *.
  destruct p as [[|m pending] [err|]| | v | | |]; simpl in Es;
    try discriminate Es; injection Es as <- <-; cbn [failure send] in *.
  - (* the child has returned an error *)
    rewrite andb_false_r in *. repeat split; done || lia.
  - (* the child has returned nil *)
    rewrite Hg in *. cbn [is_error andb] in *. repeat split; done || lia.
  - (* the child sends one more sample *)
    rewrite andb_false_r in *. repeat split; done || lia.
  - rewrite andb_false_r in *. repeat split; done || lia.
  - (* the read *)
    rewrite andb_false_r in *. repeat split; done || lia.
  - (* the write *)
    destruct Hg as [Hg Hv]. rewrite Hg in *. cbn [andb] in *.
    rewrite int_wrap_small by lia. repeat split; try (done || lia).
    + eapply Forall_impl; [exact Hpre|]. intros g. apply sound_mono. lia.
    + eapply Forall_impl; [exact Hpost|]. intros g. apply sound_mono. lia.
  - repeat split; done || lia.
  - repeat split; done || lia.
Qed.

Lemma run_count_invariant f0 schedule : forall cfg cfg',
  - 2 ^ 63 <= f0 ->
  f0 + Z.of_nat (length (goroutines cfg)) < 2 ^ 63 ->
  count_invariant f0 cfg ->
  run c clock schedule cfg = Some cfg' ->
  count_invariant f0 cfg' /\
  (goroutines cfg').*1 = (goroutines cfg).*1.
Proof.
  induction schedule as [|k schedule IH]; intros cfg cfg' Hf0 Hn Hinv; simpl.
  - intros [= <-]. done.
  - destruct (move c clock k cfg) as [cfg1|] eqn:Em; [|done]. simpl.
    intros Hrun.
    destruct (move_count_invariant f0 k cfg cfg1 Hf0 Hn Hinv Em)
      as [Hinv1 Hnames1].
    assert (length (goroutines cfg1) = length (goroutines cfg)) as Hlen
      by (rewrite <- (length_fmap fst), Hnames1, length_fmap; done).
    destruct (IH cfg1 cfg' Hf0) as [Hinv' Hnames']; [lia|done|done|].
    split; [done|congruence].
Qed.

Lemma started_names : (started c ctx).*1 = (map_to_list (dfsrChildCollectors c)).*1.
Proof.
  unfold started. rewrite <- list_fmap_compose. apply list_fmap_ext.
  intros i [name fn] _. reflexivity.
Qed.

Lemma started_count_invariant f0 sent :
  count_invariant f0 (mkConfig (mkShared f0 sent) (started c ctx)).
Proof.
  unfold count_invariant. cbn [goroutines state failure].
  assert (Forall (fun g => has_written g = false /\ forall w, sound f0 w g)
            (started c ctx)) as H.
  { unfold started. apply Forall_fmap, Forall_forall.
    intros [name fn] Hin. apply elem_of_map_to_list in Hin.
    unfold compose. cbn beta iota.
    split; [unfold has_written; cbn [fst snd]; apply andb_false_r|].
    intros w. unfold sound, fails. cbn [fst snd].
    unfold dfsrCollectorFunc, outcome in *. now rewrite Hin. }
  assert (writes (started c ctx) = 0) as ->.
  { induction H as [|g gs [Hg _] _ IH]; [done|].
    rewrite writes_cons, Hg, IH. done. }
  split; [|lia].
  eapply Forall_impl; [exact H|]. intros g [_ Hg]. apply Hg.
Qed.

Lemma writes_finished gs :
  forallb (fun g => is_finished g.2) gs = true ->
  0 < writes gs <-> exists name, name ∈ gs.*1 /\ fails name = true.
Proof.
  induction gs as [|[name p] gs IH]; simpl.
  - intros _. split; [done|]. intros (name & Hin & _). inversion Hin.
  - intros [Hp Hgs]%andb_true_iff. destruct p; try done.
    rewrite writes_cons. unfold has_written. cbn [fst snd].
    rewrite andb_true_r. specialize (IH Hgs).
    pose proof (writes_bounds gs) as B.
    destruct (fails name) eqn:E.
    + split; [|lia]. intros _. exists name. split; [left|done].
    + split.
      * intros H. destruct (proj1 IH) as (n & Hin & Hn); [lia|].
        exists n. split; [now right|done].
      * intros (n & [->|Hin]%elem_of_cons & Hn); [congruence|].
        assert (0 < writes gs) by (apply IH; eauto). lia.
Qed.

(** Some child's function returns an error. *)
Definition some_child_fails : Prop :=
  exists name fn,
    dfsrChildCollectors c !! name = Some fn /\ (fn ctx).2 <> None.

Lemma fails_iff :
  (exists name, name ∈ (map_to_list (dfsrChildCollectors c)).*1
                /\ fails name = true) <->
  some_child_fails.
Proof.
  unfold fails, some_child_fails. split.
  - intros (name & _ & H).
    destruct (dfsrChildCollectors c !! name) as [fn|] eqn:E; [|done].
    exists name, fn. split; [done|]. now destruct (fn ctx).2.
  - intros (name & fn & Hfn & Herr). exists name. split.
    + apply list_elem_of_fmap. exists (name, fn). split; [done|].
      now apply elem_of_map_to_list.
    + rewrite Hfn. now destruct (fn ctx).2.
Qed.

Lemma classic_failed : some_child_fails \/ ~ some_child_fails.
Proof.
  rewrite <- fails_iff.
  induction (map_to_list (dfsrChildCollectors c)).*1 as [|name names IH].
  - right. intros (name & Hin & _). inversion Hin.
  - destruct (fails name) eqn:E.
    + left. exists name. split; [left|done].
    + destruct IH as [(n & Hin & Hn)|IH].
      * left. exists n. split; [now right|done].
      * right. intros (n & [->|Hin]%elem_of_cons & Hn); [congruence|].
        apply IH. eauto.
Qed.

(** The failure count after a run, against the count before it. *)
Lemma Collect_failure_count schedule c' out err :
  let f0 := dfsrChildCollectorFailure c in
  - 2 ^ 63 <= f0 ->
  f0 + Z.of_nat (size (dfsrChildCollectors c)) < 2 ^ 63 ->
  Collect c ctx clock schedule = Some (c', out, err) ->
  f0 <= dfsrChildCollectorFailure c' /\
  (some_child_fails -> f0 + 1 <= dfsrChildCollectorFailure c') /\
  (~ some_child_fails -> dfsrChildCollectorFailure c' = f0) /\
  err = (if 0 <? dfsrChildCollectorFailure c'
         then Some "at least one child collector failed" else None).
Proof.
  intros f0 Hf0 Hn. unfold Collect.
  destruct (run c clock schedule _) as [cfg|] eqn:Er; [|done]. simpl.
  destruct (forallb _ _) eqn:Ef; [|done]. intros [= <- <- <-].
  assert (length (started c ctx) = size (dfsrChildCollectors c)) as Hlen.
  { unfold started. rewrite length_fmap. apply length_map_to_list. }
  destruct (run_count_invariant f0 schedule
              (mkConfig (mkShared f0 []) (started c ctx)) cfg)
    as [(_ & Hfail & Hpos) Hnames];
    [done|cbn [goroutines]; lia|apply started_count_invariant|exact Er|].
  cbn [goroutines] in Hnames. rewrite started_names in Hnames.
  pose proof (writes_finished _ Ef) as Hw. rewrite Hnames, fails_iff in Hw.
  assert (forall v, dfsrChildCollectorFailure
                      (set_dfsrChildCollectorFailure v c) = v) as Hset
    by reflexivity.
  rewrite !Hset. split; [lia|]. split; [|split; [|done]].
  - intros Hfailed. apply Hpos, Hw, Hfailed.
  - intros Hnot. pose proof (writes_bounds (goroutines cfg)) as B.
    assert (~ 0 < writes (goroutines cfg)) by (rewrite Hw; done). lia.
Qed.

End FailureCount.

(** *** The collector that is registered *)

Section Registered.
Context {perfObject : Type}.
Variable unmarshalConnection :
  option perfObject -> error + list PerflibDFSRConnection.t.
Variable unmarshalFolder :
  option perfObject -> error + list PerflibDFSRFolder.t.
Variable unmarshalVolume :
  option perfObject -> error + list PerflibDFSRVolume.t.
Variable Namespace : string.

(** The collector [NewDFSRCollector] returns, after any number of
    scrapes: only its failure count can differ. *)
Definition collector (failures : Z) : DFSRCollector perfObject :=
  set_dfsrChildCollectorFailure failures
    (NewDFSRCollector unmarshalConnection unmarshalFolder unmarshalVolume
       Namespace).

Ltac data_desc :=
  split; (let H := fresh in
          intros H; apply (f_equal variableLabels) in H; discriminate H).

Lemma collector_children_send_data failures ctx :
  children_send_data (collector failures) ctx.
Proof.
  split.
  - intros H. apply (f_equal help) in H. discriminate H.
  - intros name fn Hfn.
    unfold collector, NewDFSRCollector, getDFSRChildCollectors in Hfn.
    cbn [set_dfsrChildCollectorFailure set_dfsrChildCollectors
         dfsrChildCollectors] in Hfn.
    apply lookup_insert_Some in Hfn as [[<- <-]|[_ Hfn]].
    { unfold collectVolume. destruct (unmarshalVolume _); [constructor|].
      cbn [fst]. apply Forall_bind, Forall_forall. intros row _.
      repeat (apply Forall_cons; split; [data_desc|]). by apply Forall_nil. }
    apply lookup_insert_Some in Hfn as [[<- <-]|[_ Hfn]].
    { unfold collectFolder. destruct (unmarshalFolder _); [constructor|].
      cbn [fst]. apply Forall_bind, Forall_forall. intros row _.
      repeat (apply Forall_cons; split; [data_desc|]). by apply Forall_nil. }
    apply lookup_insert_Some in Hfn as [[<- <-]|[_ Hfn]].
    { unfold collectConnection. destruct (unmarshalConnection _); [constructor|].
      cbn [fst]. apply Forall_bind, Forall_forall. intros row _.
      repeat (apply Forall_cons; split; [data_desc|]). by apply Forall_nil. }
    rewrite lookup_empty in Hfn. discriminate.
Qed.


(** The three children, by name. *)
Lemma collector_child_names failures name :
  is_Some (dfsrChildCollectors (collector failures) !! name) <->
  name = "connection" \/ name = "folder" \/ name = "volume".
Proof.
  unfold collector, NewDFSRCollector, getDFSRChildCollectors.
  cbn [set_dfsrChildCollectorFailure set_dfsrChildCollectors
       dfsrChildCollectors].
  rewrite !lookup_insert_is_Some', lookup_empty, is_Some_alt.
  split; [intros [<-|[<-|[<-|[]]]]; auto|]. intros [->|[->| ->]]; auto.
Qed.

(** C4. For the registered collector, whatever its failure count, every
    context and clock: [Collect] returns (the schedule that runs the
    goroutines in turn is a run of it), the children are "connection",
    "folder" and "volume", and in every run the samples sent hold, for
    each child, exactly one sample of the duration descriptor labelled
    with the child's name and exactly one sample of the success
    descriptor labelled with it, whose value is 0 if the child's
    function returned an error and 1 if it did not. *)
Theorem each_child_reports_duration_and_success (failures : Z)
    (ctx : ScrapeContext perfObject) (clock : string -> float64) :
  let c := collector failures in
  (exists c' out err,
     Collect c ctx clock (in_turn (started c ctx)) = Some (c', out, err)) /\
  (forall name,
     is_Some (dfsrChildCollectors c !! name) <->
     name = "connection" \/ name = "folder" \/ name = "volume") /\
  (forall schedule c' out err name fn,
     Collect c ctx clock schedule = Some (c', out, err) ->
     dfsrChildCollectors c !! name = Some fn ->
     filter (is_duration_of c name) out =
       [duration_sample c name (clock name)] /\
     filter (is_success_of c name) out =
       [success_sample c name
          (match (fn ctx).2 with Some _ => 0%float | None => 1%float end)]).
Proof.
  intros c. split; [apply Collect_in_turn|].
  split; [apply collector_child_names|].
  intros schedule c' out err name fn HC Hfn.
  exact (Collect_reports c clock ctx schedule c' out err name fn
           (collector_children_send_data failures ctx) HC Hfn).
Qed.

(** The first scrape of the registered collector, and every scrape
    before a child has failed: [Collect] returns an error if and only if
    a child's function returned one in this scrape, and it sends the
    samples of every child, failed or not. *)
Lemma scrape_with_no_earlier_failure
    (ctx : ScrapeContext perfObject) (clock : string -> float64)
    schedule c' out err :
  Collect (collector 0) ctx clock schedule = Some (c', out, err) ->
  (err <> None <-> some_child_fails (collector 0) ctx) /\
  out ≡ₚ mjoin (sent_for (collector 0) clock ctx
                  <$> map_to_list (dfsrChildCollectors (collector 0))).
Proof.
  intros HC. split; [|exact (Collect_sends _ _ _ _ _ _ _ HC)].
  destruct (Collect_failure_count (collector 0) clock ctx schedule c' out err)
    as (Hle & Hfailed & Hnone & ->); [done|done|exact HC|].
  change (dfsrChildCollectorFailure (collector 0)) with 0 in *.
  destruct (0 <? dfsrChildCollectorFailure c') eqn:E.
  - split; [|done]. intros _.
    destruct (classic_failed (collector 0) ctx) as [H|H]; [done|].
    specialize (Hnone H). lia.
  - split; [done|]. intros H. specialize (Hfailed H). lia.
Qed.

(** Every scrape of the registered collector after one in which a child
    failed: [Collect] returns the error, whatever the children do. *)
Lemma scrape_after_a_failure (failures : Z)
    (ctx : ScrapeContext perfObject) (clock : string -> float64)
    schedule c' out err :
  0 < failures < 2 ^ 63 - 3 ->
  Collect (collector failures) ctx clock schedule = Some (c', out, err) ->
  err = Some "at least one child collector failed".
Proof.
  intros Hf HC.
  destruct (Collect_failure_count (collector failures) clock ctx schedule
              c' out err) as (Hle & _ & _ & ->);
    [change (dfsrChildCollectorFailure (collector failures)) with failures;
     lia
    |change (dfsrChildCollectorFailure (collector failures)) with failures;
     change (size (dfsrChildCollectors (collector failures))) with 3%nat;
     lia
    |exact HC|].
  change (dfsrChildCollectorFailure (collector failures)) with failures in *.
  assert ((0 <? dfsrChildCollectorFailure c') = true) as -> by lia. done.
Qed.

End Registered.

(** *** Closed runs

    A perflib in which an object unmarshals to no rows when the context
    holds it, and unmarshalling fails when it does not. *)

Definition rows_if_present {A} (obj : option unit) : error + list A :=
  match obj with
  | Some _ => inr []
  | None => inl "object not found"
  end.

Definition registered : DFSRCollector unit :=
  NewDFSRCollector rows_if_present rows_if_present rows_if_present "wmi".

(** A context with all three objects, and one with the volumes only. *)
Definition all_objects : ScrapeContext unit :=
  mkScrapeContext
    (<["DFS Replication Connections" := tt]>
       (<["DFS Replicated Folders" := tt]>
          (<["DFS Replication Service Volumes" := tt]> ∅))).

Definition volumes_only : ScrapeContext unit :=
  mkScrapeContext (<["DFS Replication Service Volumes" := tt]> ∅).

Definition stopped_clock (name : string) : float64 := 0%float.

(** The children whose function returns an error in a context. *)
Definition failed_children (c : DFSRCollector unit)
    (ctx : ScrapeContext unit) : list string :=
  (filter (fun entry => (entry.2 ctx).2 <> None)
     (map_to_list (dfsrChildCollectors c))).*1.

(** The goroutines are started in the order "connection", "volume",
    "folder". In this schedule the goroutines of "connection" and of
    "folder" both read the failure count before either writes it. *)
Definition both_read_first : list nat :=
  [0; 0; 2; 2; 0; 2; 0; 0; 2; 2; 1; 1; 1]%nat.

(** C4 (an instance). The run of the registered collector on the
    context with the volumes only, goroutines in turn: "folder" fails
    and "volume" succeeds, and each reports once. *)
Lemma children_report_with_volumes_only :
  exists c' out err,
    Collect
      (collector rows_if_present rows_if_present rows_if_present "wmi" 0)
      volumes_only stopped_clock
      (in_turn
         (started
            (collector rows_if_present rows_if_present rows_if_present
               "wmi" 0)
            volumes_only))
    = Some (c', out, err) /\
    filter
      (is_duration_of
         (collector rows_if_present rows_if_present rows_if_present "wmi" 0)
         "folder") out
    = [duration_sample
         (collector rows_if_present rows_if_present rows_if_present "wmi" 0)
         "folder" 0%float] /\
    filter
      (is_success_of
         (collector rows_if_present rows_if_present rows_if_present "wmi" 0)
         "folder") out
    = [success_sample
         (collector rows_if_present rows_if_present rows_if_present "wmi" 0)
         "folder" 0%float] /\
    filter
      (is_success_of
         (collector rows_if_present rows_if_present rows_if_present "wmi" 0)
         "volume") out
    = [success_sample
         (collector rows_if_present rows_if_present rows_if_present "wmi" 0)
         "volume" 1%float].
Proof.
  destruct (each_child_reports_duration_and_success
              rows_if_present rows_if_present rows_if_present
              "wmi" 0 volumes_only stopped_clock)
    as ((c' & out & err & HC) & _ & Hall).
  exists c', out, err. split; [exact HC|].
  split; [|split].
  - exact (proj1 (Hall _ c' out err "folder" _ HC eq_refl)).
  - exact (proj2 (Hall _ c' out err "folder" _ HC eq_refl)).
  - exact (proj2 (Hall _ c' out err "volume" _ HC eq_refl)).
Defined.

(** C1 (the code at the failing input). First scrape: the folders
    object is missing, so the child "folder" fails, and [Collect]
    returns the error and leaves the failure count at 1. Second scrape,
    same collector: all three objects are there and no child fails, and
    [Collect] returns the error again, because the failure count is
    still 1: nothing resets it. *)
Theorem failure_count_outlives_the_scrape :
  let first_ctx :=
    mkScrapeContext
      (<["DFS Replication Connections" := tt]>
         (<["DFS Replication Service Volumes" := tt]> ∅)) in
  exists out1 out2,
    Collect registered first_ctx stopped_clock
      (in_turn (started registered first_ctx))
    = Some (set_dfsrChildCollectorFailure 1 registered, out1,
            Some "at least one child collector failed") /\
    failed_children registered first_ctx = ["folder"] /\
    Collect (set_dfsrChildCollectorFailure 1 registered) all_objects
      stopped_clock
      (in_turn (started (set_dfsrChildCollectorFailure 1 registered)
                  all_objects))
    = Some (set_dfsrChildCollectorFailure 1 registered, out2,
            Some "at least one child collector failed") /\
    failed_children (set_dfsrChildCollectorFailure 1 registered) all_objects
    = [].
Proof.
  intros first_ctx. eexists _, _.
  split; [vm_compute; reflexivity|]. split; [vm_compute; reflexivity|].
  split; vm_compute; reflexivity.
Qed.

(** C9 (the code at the failing input). One scrape on the context with
    the volumes only: "connection" and "folder" both fail. When each of
    their goroutines reads the failure count before the other writes
    it, both write 1, and the count after the join is 1 for two failed
    children. (Run in turn, the same scrape leaves 2.) *)
Theorem concurrent_increments_lose_an_update :
  exists out out',
    Collect registered volumes_only stopped_clock both_read_first
    = Some (set_dfsrChildCollectorFailure 1 registered, out,
            Some "at least one child collector failed") /\
    Collect registered volumes_only stopped_clock
      (in_turn (started registered volumes_only))
    = Some (set_dfsrChildCollectorFailure 2 registered, out',
            Some "at least one child collector failed") /\
    failed_children registered volumes_only = ["connection"; "folder"].
Proof.
  eexists _, _.
  split; [vm_compute; reflexivity|]. split; vm_compute; reflexivity.
Qed.


(** *** The fields of the flag *)

Lemma Split_no_separator s sep field :
  field ∈ Split s sep -> sep ∉ String.list_ascii_of_string field.
Proof.
  revert field. induction s as [|a s IH]; intros field; simpl.
  - intros ->%list_elem_of_singleton. simpl. apply not_elem_of_nil.
  - destruct (decide (a = sep)) as [->|Hne].
    + intros [->|Hin]%elem_of_cons; [apply not_elem_of_nil|now apply IH].
    + pose proof (Split_nonempty s sep).
      destruct (Split s sep) as [|h t] eqn:E; [done|].
      intros [->|Hin]%elem_of_cons.
      * simpl. intros [?|Hin]%elem_of_cons; [congruence|].
        revert Hin. apply IH. left.
      * apply IH. now right.
Qed.

Lemma Split_all_empty s sep :
  (forall field, field ∈ Split s sep -> field = "") <->
  Forall (fun a => a = sep) (String.list_ascii_of_string s).
Proof.
  induction s as [|a s IH]; simpl.
  - split; [constructor|]. now intros _ field ->%list_elem_of_singleton.
  - destruct (decide (a = sep)) as [->|Hne].
    + rewrite Forall_cons, <- IH. split.
      * intros H. split; [done|]. intros field Hin. apply H. now right.
      * intros [_ H] field [->|Hin]%elem_of_cons; [done|now apply H].
    + pose proof (Split_nonempty s sep).
      destruct (Split s sep) as [|h t] eqn:E; [done|]. split.
      * intros Hall. specialize (Hall (String a h)). discriminate Hall. left.
      * intros [Ha _]%Forall_cons. done.
Qed.

(** X11. What the expansion keeps of the flag's value. A source is in the
    result if and only if it is a field of the value between commas and
    is not empty; nothing is trimmed and nothing is checked against the
    sources that exist. No source of the result holds a comma, and the
    result is empty if and only if the value holds nothing but
    commas. *)
Theorem expansion_keeps_the_nonempty_fields (enabled : string) :
  (forall s,
     s ∈ dfsrExpandEnabledSources enabled <->
     s <> "" /\ s ∈ Split enabled ","%char) /\
  (forall s,
     s ∈ dfsrExpandEnabledSources enabled ->
     ","%char ∉ String.list_ascii_of_string s) /\
  (dfsrExpandEnabledSources enabled = [] <->
   Forall (fun a => a = ","%char) (String.list_ascii_of_string enabled)).
Proof.
  split; [apply elem_of_dfsrExpandEnabledSources|]. split.
  - intros s [_ Hin]%elem_of_dfsrExpandEnabledSources.
    now apply (Split_no_separator enabled).
  - rewrite <- Split_all_empty. split.
    + intros E field Hin. destruct (decide (field = "")) as [|Hne]; [done|].
      assert (field ∈ dfsrExpandEnabledSources enabled) as H
        by now apply elem_of_dfsrExpandEnabledSources.
      rewrite E in H. inversion H.
    + intros H. destruct (dfsrExpandEnabledSources enabled) as [|s l] eqn:E;
        [done|].
      assert (s ∈ dfsrExpandEnabledSources enabled) as Hs by (rewrite E; left).
      apply elem_of_dfsrExpandEnabledSources in Hs as [Hne Hin].
      now specialize (H s Hin).
Qed.

(** *** The perflib objects that are asked for *)

Lemma dfsrGetPerfObjectName_cases collector :
  (collector = "connection" /\
   dfsrGetPerfObjectName collector = "DFS Replication Connections") \/
  (collector = "folder" /\
   dfsrGetPerfObjectName collector = "DFS Replicated Folders") \/
  (collector = "volume" /\
   dfsrGetPerfObjectName collector = "DFS Replication Service Volumes") \/
  (collector <> "connection" /\ collector <> "folder" /\
   collector <> "volume" /\ dfsrGetPerfObjectName collector = "DFS ").
Proof.
  unfold dfsrGetPerfObjectName.
  destruct (decide (collector = "connection")); [now left|].
  destruct (decide (collector = "folder")); [now right; left|].
  destruct (decide (collector = "volume")); [now right; right; left|].
  now right; right; right.
Qed.

(** X12. The perflib objects [NewDFSRCollector] asks for, by the value of
    the flag. The object of "connection", of "folder" and of "volume" is
    asked for if and only if the source is a field of the value; a field
    that is not empty and names none of the three is not rejected: it
    makes the collector ask for the object ["DFS "]. No other object is
    asked for. *)
Theorem perfCounters_follow_the_fields (dfsrEnabledCollectors : string) :
  let fields := Split dfsrEnabledCollectors ","%char in
  let objects := perfCounters dfsrEnabledCollectors in
  ("DFS Replication Connections" ∈ objects <-> "connection" ∈ fields) /\
  ("DFS Replicated Folders" ∈ objects <-> "folder" ∈ fields) /\
  ("DFS Replication Service Volumes" ∈ objects <-> "volume" ∈ fields) /\
  ("DFS " ∈ objects <->
   exists field,
     field ∈ fields /\ field <> "" /\ field <> "connection" /\
     field <> "folder" /\ field <> "volume") /\
  (forall object,
     object ∈ objects ->
     object ∈ ["DFS Replication Connections"; "DFS Replicated Folders";
               "DFS Replication Service Volumes"; "DFS "]).
Proof.
  intros fields objects. subst fields objects. unfold perfCounters.
  assert (forall object,
    object ∈ dfsrGetPerfObjectName
               <$> dfsrExpandEnabledSources dfsrEnabledCollectors <->
    exists s, object = dfsrGetPerfObjectName s /\ s <> "" /\
              s ∈ Split dfsrEnabledCollectors ","%char) as Hin.
  { intros object. rewrite list_elem_of_fmap.
    now setoid_rewrite elem_of_dfsrExpandEnabledSources. }
  repeat split.
  - intros (s & E & _ & Hs)%Hin.
    destruct (dfsrGetPerfObjectName_cases s)
      as [[-> _]|[[_ E']|[[_ E']|(_ & _ & _ & E')]]]; congruence.
  - intros Hs. apply Hin. now exists "connection".
  - intros (s & E & _ & Hs)%Hin.
    destruct (dfsrGetPerfObjectName_cases s)
      as [[_ E']|[[-> _]|[[_ E']|(_ & _ & _ & E')]]]; congruence.
  - intros Hs. apply Hin. now exists "folder".
  - intros (s & E & _ & Hs)%Hin.
    destruct (dfsrGetPerfObjectName_cases s)
      as [[_ E']|[[_ E']|[[-> _]|(_ & _ & _ & E')]]]; congruence.
  - intros Hs. apply Hin. now exists "volume".
  - intros (s & E & Hne & Hs)%Hin. exists s.
    destruct (dfsrGetPerfObjectName_cases s)
      as [[_ E']|[[_ E']|[[_ E']|(? & ? & ? & _)]]]; try congruence.
    done.
  - intros (s & Hs & Hne & H1 & H2 & H3). apply Hin. exists s.
    destruct (dfsrGetPerfObjectName_cases s)
      as [[? _]|[[? _]|[[? _]|(_ & _ & _ & E')]]]; done.
  - intros object (s & -> & _)%Hin.
    destruct (dfsrGetPerfObjectName_cases s)
      as [[_ ->]|[[_ ->]|[[_ ->]|(_ & _ & _ & ->)]]].
    + now left.
    + right. now left.
    + right. right. now left.
    + right. right. right. now left.
Qed.

(** *** Runs of [Collect], whatever the schedule *)

Section Schedules.
Context {perfObject : Type}.
Variable c : DFSRCollector perfObject.
Variable clock : string -> float64.
Variable ctx : ScrapeContext perfObject.

(** The configuration [Collect] starts from. *)
Definition initial : config :=
  mkConfig (mkShared (dfsrChildCollectorFailure c) []) (started c ctx).


Lemma finished_after_finish (gs : list (string * pc)) :
  forallb (fun g => is_finished g.2) (finish <$> gs) = true.
Proof. induction gs as [|g gs IH]; [done|exact IH]. Qed.

(** X14. No goroutine waits for another: whatever steps have been taken,
    the run can be completed, and [Collect] returns. *)
Theorem every_partial_run_can_be_completed (schedule : list nat)
    (cfg : config) :
  run c clock schedule initial = Some cfg ->
  exists rest c' out err,
    Collect c ctx clock (schedule ++ rest) = Some (c', out, err).
Proof.
  intros Hrun. exists (in_turn (goroutines cfg)).
  destruct (run_in_turn_from c clock (goroutines cfg) [] (state cfg))
    as [sh' H].
  unfold Collect. fold initial. rewrite run_app, Hrun. cbn [mbind option_bind].
  unfold in_turn. cbn [app length Nat.add] in H.
  destruct cfg as [sh gs]. cbn [goroutines state] in *.
  rewrite H. cbn [mbind option_bind goroutines].
  rewrite finished_after_finish. eauto.
Qed.

(** The children whose function returns an error. *)
Definition failing : list string :=
  (filter (fun entry : string * dfsrCollectorFunc perfObject =>
             is_error (entry.2 ctx).2 = true)
     (map_to_list (dfsrChildCollectors c))).*1.

Lemma writes_le_fails gs :
  writes c ctx gs
  <= Z.of_nat (length (filter (fun name => fails c ctx name = true) gs.*1)).
Proof.
  induction gs as [|[name p] gs IH]; [done|].
  rewrite writes_cons, fmap_cons. unfold has_written. cbn [fst snd].
  destruct (fails c ctx name) eqn:E.
  - rewrite filter_cons_True by done. cbn [length andb].
    destruct p; lia.
  - rewrite filter_cons_False by (rewrite E; done). cbn [andb]. lia.
Qed.

Lemma failing_names :
  filter (fun name => fails c ctx name = true)
    (map_to_list (dfsrChildCollectors c)).*1 = failing.
Proof.
  unfold failing.
  assert (forall entry, entry ∈ map_to_list (dfsrChildCollectors c) ->
            fails c ctx entry.1 = is_error (entry.2 ctx).2) as H.
  { intros [name fn] Hin. apply elem_of_map_to_list in Hin.
    unfold fails. cbn [fst snd].
    unfold dfsrCollectorFunc, outcome in *. now rewrite Hin. }
  induction (map_to_list (dfsrChildCollectors c)) as [|entry l IH]; [done|].
  rewrite fmap_cons.
  assert (forall e, e ∈ l -> fails c ctx e.1 = is_error (e.2 ctx).2) as Hl
    by (intros e He; apply H; now right).
  specialize (IH Hl).
  pose proof (H entry ltac:(left)) as He.
  destruct (is_error (entry.2 ctx).2) eqn:E.
  - rewrite !filter_cons_True by (cbv beta; first [exact E | exact He]).
    now rewrite fmap_cons, IH.
  - rewrite (filter_cons_False _ entry)
      by (cbv beta; intros E'; discriminate (eq_trans (eq_sym E') E)).
    rewrite (filter_cons_False _ entry.1)
      by (cbv beta; intros E'; discriminate (eq_trans (eq_sym E') He)).
    exact IH.
Qed.

(** X15. The failure count after a scrape, under every interleaving (and
    short of the wrap-around of an [int]): it has not shrunk, it has
    grown if a child failed, and it has grown by no more than the number
    of children that failed. *)
Theorem failure_count_grows_by_at_most_the_failures
    (schedule : list nat) c' out err :
  let f0 := dfsrChildCollectorFailure c in
  - 2 ^ 63 <= f0 ->
  f0 + Z.of_nat (size (dfsrChildCollectors c)) < 2 ^ 63 ->
  Collect c ctx clock schedule = Some (c', out, err) ->
  f0 <= dfsrChildCollectorFailure c' <= f0 + Z.of_nat (length failing) /\
  (failing <> [] -> f0 + 1 <= dfsrChildCollectorFailure c').
Proof.
  intros f0 Hf0 Hn HC.
  destruct (Collect_failure_count c clock ctx schedule c' out err Hf0 Hn HC)
    as (Hle & Hfailed & _ & _).
  fold f0 in Hle, Hfailed.
  split; [split; [exact Hle|]|].
  - revert HC. unfold Collect.
    destruct (run c clock schedule _) as [cfg|] eqn:Er; [|done]. simpl.
    destruct (forallb _ _) eqn:Ef; [|done]. intros [= <- <- <-].
    assert (length (started c ctx) = size (dfsrChildCollectors c)) as Hlen.
    { unfold started. rewrite length_fmap. apply length_map_to_list. }
    destruct (run_count_invariant c clock ctx f0 schedule
                (mkConfig (mkShared f0 []) (started c ctx)) cfg)
      as [(_ & Hfail & _) Hnames];
      [done|cbn [goroutines]; lia|apply started_count_invariant|exact Er|].
    cbn [goroutines] in Hnames. rewrite started_names in Hnames.
    pose proof (writes_le_fails (goroutines cfg)) as Hw.
    rewrite Hnames, failing_names in Hw.
    change (dfsrChildCollectorFailure
              (set_dfsrChildCollectorFailure (failure (state cfg)) c))
      with (failure (state cfg)).
    lia.
  - intros Hne. apply Hfailed.
    destruct failing as [|name l] eqn:E; [done|].
    assert (name ∈ failing) as Hin by (rewrite E; left).
    unfold failing in Hin. apply list_elem_of_fmap in Hin
      as ([n fn] & -> & Hin). apply list_elem_of_filter in Hin as [Herr Hin].
    apply elem_of_map_to_list in Hin. exists n, fn. split; [done|].
    cbn [snd] in Herr. now destruct (fn ctx).2.
Qed.

End Schedules.

(** *** The failure count when the goroutines run in turn *)

Section InTurn.
Context {perfObject : Type}.
Variable c : DFSRCollector perfObject.
Variable clock : string -> float64.
Variable ctx : ScrapeContext perfObject.

(** The failure count once a goroutine at [p] that runs alone has
    finished, from the count [f] before. *)
Definition failure_after (f : Z) (p : pc) : Z :=
  match p with
  | in_child _ (Some _) | load_failure => int_wrap (f + 1)
  | store_failure v => int_wrap (v + 1)
  | _ => f
  end.

Lemma run_alone_failure k name gs p sh cfg :
  (k < length gs)%nat ->
  run c clock (alone k p) (mkConfig sh (<[k := (name, p)]> gs)) = Some cfg ->
  failure (state cfg) = failure_after (failure sh) p.
Proof.
  intros Hk.
  assert (forall sh success cfg,
    run c clock (alone k (send_success success))
      (mkConfig sh (<[k := (name, send_success success)]> gs)) = Some cfg ->
    failure (state cfg) = failure sh) as L1.
  { intros sh0 success cfg0. simpl alone.
    erewrite run_cons_move by (done || reflexivity). now intros [= <-]. }
  assert (forall sh success cfg,
    run c clock (alone k (send_duration success))
      (mkConfig sh (<[k := (name, send_duration success)]> gs)) = Some cfg ->
    failure (state cfg) = failure sh) as L2.
  { intros sh0 success cfg0. simpl alone.
    erewrite run_cons_move by (done || reflexivity).
    intros H. now apply L1 in H. }
  assert (forall sh v cfg,
    run c clock (alone k (store_failure v))
      (mkConfig sh (<[k := (name, store_failure v)]> gs)) = Some cfg ->
    failure (state cfg) = int_wrap (v + 1)) as L3.
  { intros sh0 v cfg0. simpl alone.
    erewrite run_cons_move by (done || reflexivity).
    intros H. now apply L2 in H. }
  assert (forall sh cfg,
    run c clock (alone k load_failure)
      (mkConfig sh (<[k := (name, load_failure)]> gs)) = Some cfg ->
    failure (state cfg) = int_wrap (failure sh + 1)) as L4.
  { intros sh0 cfg0. simpl alone.
    erewrite run_cons_move by (done || reflexivity).
    intros H. now apply L3 in H. }
  destruct p as [pending err| | | | |]; simpl failure_after; eauto.
  - revert sh. induction pending as [|m pending IH]; intros sh.
    + destruct err as [e|]; simpl alone;
        erewrite run_cons_move by (done || reflexivity); eauto.
    + destruct err as [e|]; simpl alone;
        erewrite run_cons_move by (done || reflexivity);
        intros H; apply IH in H; exact H.
  - now intros [= <-].
Qed.

Lemma run_in_turn_failure rest : forall pre sh cfg,
  run c clock
    (mjoin (imap (fun k g => alone (length pre + k) g.2) rest))
    (mkConfig sh (pre ++ rest)) = Some cfg ->
  failure (state cfg) = foldl failure_after (failure sh) rest.*2.
Proof.
  induction rest as [|[name p] rest IH]; intros pre sh cfg.
  - now intros [= <-].
  - simpl. rewrite run_app, Nat.add_0_r.
    destruct (run_alone c clock (length pre) name (pre ++ (name, p) :: rest)
                p sh) as [sh1 H1]; [rewrite length_app; simpl; lia|].
    pose proof (run_alone_failure (length pre) name
                  (pre ++ (name, p) :: rest) p sh _
                  ltac:(rewrite length_app; simpl; lia) H1) as Hf.
    rewrite list_insert_id in H1 by (rewrite list_lookup_middle; done).
    rewrite H1. simpl.
    rewrite insert_app_r_alt, Nat.sub_diag by lia. simpl.
    intros H. cbn [state] in Hf. rewrite <- Hf.
    apply (IH (pre ++ [(name, finished)]) sh1).
    rewrite <- app_assoc. simpl. etransitivity; [|exact H]. f_equal.
    f_equal. apply imap_ext. intros k g _. simpl. f_equal.
    rewrite length_app. simpl. lia.
Qed.

Lemma failure_after_started f (l : list (string * dfsrCollectorFunc perfObject)) :
  - 2 ^ 63 <= f -> f + Z.of_nat (length l) < 2 ^ 63 ->
  foldl failure_after f
    ((fun '(name, function) =>
        (name, in_child (function ctx).1 (function ctx).2)) <$> l).*2
  = f + Z.of_nat
          (length (filter (fun entry : string * dfsrCollectorFunc perfObject =>
                             is_error (entry.2 ctx).2 = true) l)).
Proof.
  revert f. induction l as [|[name fn] l IH]; intros f Hf Hn; [simpl; lia|].
  rewrite !fmap_cons. cbn [foldl snd failure_after].
  cbn [length] in Hn.
  destruct (fn ctx).2 as [e|] eqn:E.
  - rewrite filter_cons_True by (cbn [snd]; now rewrite E).
    rewrite int_wrap_small by lia. rewrite IH by lia. cbn [length]. lia.
  - rewrite filter_cons_False by (cbn [snd]; now rewrite E).
    now rewrite IH by lia.
Qed.

(** X16. When the goroutines run one after the other, the failure count
    grows by exactly the number of children that failed (short of the
    wrap-around of an [int]). *)
Theorem failure_count_is_exact_in_turn :
  let f0 := dfsrChildCollectorFailure c in
  - 2 ^ 63 <= f0 ->
  f0 + Z.of_nat (size (dfsrChildCollectors c)) < 2 ^ 63 ->
  exists c' out err,
    Collect c ctx clock (in_turn (started c ctx)) = Some (c', out, err) /\
    dfsrChildCollectorFailure c' = f0 + Z.of_nat (length (failing c ctx)).
Proof.
  intros f0 Hf0 Hn.
  destruct (Collect_in_turn c clock ctx) as (c' & out & err & HC).
  exists c', out, err. split; [exact HC|].
  revert HC. unfold Collect, in_turn.
  destruct (run c clock _ _) as [cfg|] eqn:Er; [|done]. simpl.
  destruct (forallb _ _); [|done]. intros [= <- _ _].
  apply (run_in_turn_failure (started c ctx) []) in Er.
  change (dfsrChildCollectorFailure
            (set_dfsrChildCollectorFailure (failure (state cfg)) c))
    with (failure (state cfg)).
  rewrite Er. cbn [failure]. unfold started.
  rewrite failure_after_started; [|done|rewrite length_map_to_list; done].
  unfold failing. now rewrite length_fmap.
Qed.

End InTurn.

(** *** The samples of the registered collector *)

Section RegisteredSamples.
Context {perfObject : Type}.
Variable unmarshalConnection :
  option perfObject -> error + list PerflibDFSRConnection.t.
Variable unmarshalFolder :
  option perfObject -> error + list PerflibDFSRFolder.t.
Variable unmarshalVolume :
  option perfObject -> error + list PerflibDFSRVolume.t.
Variable Namespace : string.
Variable failures : Z.
Variable ctx : ScrapeContext perfObject.
Variable clock : string -> float64.

(** The rows an object unmarshals to, none if unmarshalling fails. *)
Definition rows {A} (r : error + list A) : list A :=
  match r with
  | inl _ => []
  | inr dst => dst
  end.

Definition connections : list PerflibDFSRConnection.t :=
  rows (unmarshalConnection (perfObjects ctx !! "DFS Replication Connections")).

Definition folders : list PerflibDFSRFolder.t :=
  rows (unmarshalFolder (perfObjects ctx !! "DFS Replicated Folders")).

Definition volumes : list PerflibDFSRVolume.t :=
  rows (unmarshalVolume (perfObjects ctx !! "DFS Replication Service Volumes")).

Definition the_collector : DFSRCollector perfObject :=
  collector unmarshalConnection unmarshalFolder unmarshalVolume Namespace
    failures.

(** What the three children send, in the order of the rows. *)
Definition data : list Metric :=
  (volume ← volumes; collectVolume_row the_collector volume) ++
  (folder ← folders; collectFolder_row the_collector folder) ++
  (connection ← connections; collectConnection_row the_collector connection).

(** The six samples [execute] sends, two for each child. *)
Definition is_meta (m : Metric) : Prop :=
  desc m = dfsrScrapeDurationDesc the_collector \/
  desc m = dfsrScrapeSuccessDesc the_collector.

#[local] Instance is_meta_dec m : Decision (is_meta m).
Proof. unfold is_meta. apply _. Defined.

(** The child functions are bound to the collector as it is before its
    map of children is assigned; the descriptors are the same. *)
Lemma children_of_the_collector :
  exists c0,
    dfsrChildCollectors the_collector
    = getDFSRChildCollectors unmarshalConnection unmarshalFolder
        unmarshalVolume c0 /\
    (forall row, collectVolume_row c0 row
                 = collectVolume_row the_collector row) /\
    (forall row, collectFolder_row c0 row
                 = collectFolder_row the_collector row) /\
    (forall row, collectConnection_row c0 row
                 = collectConnection_row the_collector row).
Proof.
  unfold the_collector, collector, NewDFSRCollector. cbv zeta.
  eexists. split; [reflexivity|]. split; [|split]; reflexivity.
Qed.

Lemma bind_ext_rows {A} (f g : A -> list Metric) (l : list A) :
  (forall x, f x = g x) -> l ≫= f = l ≫= g.
Proof.
  intros H. induction l as [|x l IH]; [done|]. now rewrite !bind_cons, H, IH.
Qed.

Lemma gather {X} (A B C : list X) a1 a2 b1 b2 c1 c2 :
  (A ++ [a1; a2]) ++ (B ++ [b1; b2]) ++ (C ++ [c1; c2]) ++ []
  ≡ₚ [a1; a2; b1; b2; c1; c2] ++ A ++ B ++ C.
Proof. solve_Permutation. Qed.

Lemma sent_by_the_collector schedule c' out err :
  Collect the_collector ctx clock schedule = Some (c', out, err) ->
  exists meta,
    out ≡ₚ meta ++ data /\ length meta = 6%nat /\
    Forall (fun m => is_meta m /\ labelled m) meta.
Proof.
  intros HC. apply Collect_sends in HC.
  destruct children_of_the_collector as (c0 & Hmap & Hv & Hf & Hc).
  rewrite Hmap in HC. unfold getDFSRChildCollectors in HC.
  rewrite map_to_list_insert in HC by done.
  rewrite map_to_list_insert in HC by done.
  rewrite map_to_list_insert in HC by done.
  rewrite map_to_list_empty in HC.
  rewrite !fmap_cons, fmap_nil in HC. cbn [mjoin list_join] in HC.
  unfold sent_for in HC. cbn [fst snd] in HC.
  assert ((collectVolume unmarshalVolume c0 ctx).1
          = (volume ← volumes; collectVolume_row the_collector volume)) as Ev.
  { unfold collectVolume, volumes, rows.
    destruct (unmarshalVolume _); [done|]. now apply bind_ext_rows. }
  assert ((collectFolder unmarshalFolder c0 ctx).1
          = (folder ← folders; collectFolder_row the_collector folder)) as Ef.
  { unfold collectFolder, folders, rows.
    destruct (unmarshalFolder _); [done|]. now apply bind_ext_rows. }
  assert ((collectConnection unmarshalConnection c0 ctx).1
          = (connection ← connections;
             collectConnection_row the_collector connection)) as Ec.
  { unfold collectConnection, connections, rows.
    destruct (unmarshalConnection _); [done|]. now apply bind_ext_rows. }
  rewrite Ev, Ef, Ec in HC. fold data.
  eexists [_; _; _; _; _; _]. split; [|split; [reflexivity|]].
  - rewrite HC. unfold data. apply gather.
  - repeat (apply Forall_cons; split;
            [split; [(left; reflexivity) || (right; reflexivity)
                    |reflexivity]|]).
    constructor.
Qed.

Lemma data_is_labelled :
  Forall (fun m => ~ is_meta m /\ labelled m) data.
Proof.
  assert (forall m, variableLabels (desc m) = ["name"] ->
                    length (labelValues m) = 1%nat ->
                    ~ is_meta m /\ labelled m) as H.
  { intros m Hl Hv. split; [|unfold labelled; now rewrite Hl, Hv].
    intros [E|E]; rewrite E in Hl; discriminate Hl. }
  unfold data. rewrite !Forall_app. split; [|split].
  - apply Forall_bind, Forall_forall. intros row _. unfold compose.
    repeat (apply Forall_cons; split; [now apply H|]). constructor.
  - apply Forall_bind, Forall_forall. intros row _. unfold compose.
    repeat (apply Forall_cons; split; [now apply H|]). constructor.
  - apply Forall_bind, Forall_forall. intros row _. unfold compose.
    repeat (apply Forall_cons; split; [now apply H|]). constructor.
Qed.

Lemma length_bind_const {A B} (f : A -> list B) n (l : list A) :
  (forall x, length (f x) = n) -> length (l ≫= f) = (n * length l)%nat.
Proof.
  intros Hf. induction l as [|x l IH]; [simpl; lia|].
  rewrite bind_cons, length_app, IH, Hf. cbn [length].
  rewrite Nat.mul_succ_r. lia.
Qed.

(** X17. The samples of a scrape of the registered collector, under every
    interleaving: six samples of [execute], 5 for every row of the
    volumes object, 27 for every row of the folders object and 9 for
    every row of the connections object (an object that does not
    unmarshal has no rows); each has as many label values as its
    descriptor has labels. *)
Theorem scrape_sends_the_rows_and_six_more (schedule : list nat) c' out err :
  Collect the_collector ctx clock schedule = Some (c', out, err) ->
  length out
  = (6 + 5 * length volumes + 27 * length folders
     + 9 * length connections)%nat /\
  filter (fun m => ~ is_meta m) out ≡ₚ data /\
  Forall labelled out.
Proof.
  intros HC.
  destruct (sent_by_the_collector schedule c' out err HC)
    as (meta & Hout & Hlen & Hmeta).
  pose proof data_is_labelled as Hdata.
  split; [|split].
  - rewrite Hout, length_app, Hlen. unfold data. rewrite !length_app.
    rewrite (length_bind_const _ 5), (length_bind_const _ 27),
      (length_bind_const _ 9) by reflexivity.
    lia.
  - rewrite Hout, filter_app.
    rewrite (filter_none (fun m => ~ is_meta m) meta)
      by (apply (Forall_impl _ _ _ Hmeta); intros m [Hm _] Hn; now apply Hn).
    simpl. clear -Hdata.
    induction Hdata as [|m l [Hm _] _ IH]; [done|].
    rewrite filter_cons_True by done. now rewrite IH.
  - rewrite Hout. apply Forall_app. split.
    + apply (Forall_impl _ _ _ Hmeta). now intros m [_ Hm].
    + apply (Forall_impl _ _ _ Hdata). now intros m [_ Hm].
Qed.


(** X18. The connection child and the folder child send samples under the
    same metric name. In every run, for every row of the connections
    object and every row of the folders object, the scrape holds a
    sample for the one and a sample for the other whose descriptors
    have the same fully qualified name and different help texts, each
    labelled with its row's name. *)
Theorem connection_and_folder_samples_share_a_name
    (schedule : list nat) c' out err
    (connection : PerflibDFSRConnection.t) (folder : PerflibDFSRFolder.t) :
  Collect the_collector ctx clock schedule = Some (c', out, err) ->
  connection ∈ connections ->
  folder ∈ folders ->
  exists m1 m2,
    m1 ∈ out /\ m2 ∈ out /\
    fqName (desc m1) = fqName (desc m2) /\
    help (desc m1) <> help (desc m2) /\
    labelValues m1 = [PerflibDFSRConnection.Name connection] /\
    labelValues m2 = [PerflibDFSRFolder.Name folder].
Proof.
  intros HC Hc Hf.
  destruct (sent_by_the_collector schedule c' out err HC)
    as (meta & Hout & _ & _).
  exists (MustNewConstMetric
            (ConnectionBandwidthSavingsUsingDFSReplicationTotal the_collector)
            CounterValue
            (PerflibDFSRConnection.BandwidthSavingsUsingDFSReplicationTotal
               connection)
            [PerflibDFSRConnection.Name connection]),
         (MustNewConstMetric
            (FolderBandwidthSavingsUsingDFSReplicationTotal the_collector)
            CounterValue
            (PerflibDFSRFolder.BandwidthSavingsUsingDFSReplicationTotal folder)
            [PerflibDFSRFolder.Name folder]).
  split; [|split; [|split; [reflexivity|split; [|split; reflexivity]]]].
  - rewrite Hout. unfold data. rewrite !elem_of_app. right. right. right.
    apply list_elem_of_bind. exists connection. split; [left|done].
  - rewrite Hout. unfold data. rewrite !elem_of_app. right. right. left.
    apply list_elem_of_bind. exists folder. split; [left|done].
  - intros H. discriminate H.
Qed.

End RegisteredSamples.

(** *** Closed runs with rows

    A perflib in which each object unmarshals to one row, of the name
    ["group"], when the context holds it. *)

Definition one_connection (obj : option unit)
  : error + list PerflibDFSRConnection.t :=
  match obj with
  | Some _ => inr [(PerflibDFSRConnection.mk "group"%string 1 2 3 4 5 6 7 8 9)%float]
  | None => inl "object not found"
  end.

Definition one_folder (obj : option unit) : error + list PerflibDFSRFolder.t :=
  match obj with
  | Some _ =>
      inr [(PerflibDFSRFolder.mk "group"%string 1 2 3 4 5 6 7 8 9 10 11 12 13
              14 15 16 17 18 19 20 21 22 23 24 25 26 27)%float]
  | None => inl "object not found"
  end.

Definition one_volume (obj : option unit) : error + list PerflibDFSRVolume.t :=
  match obj with
  | Some _ => inr [(PerflibDFSRVolume.mk "C:"%string 1 2 3 4 5)%float]
  | None => inl "object not found"
  end.

(** The registered collector over that perflib. *)
Definition with_rows : DFSRCollector unit :=
  the_collector one_connection one_folder one_volume "wmi" 0.


(** X14 (an instance). The scrape with the volumes only, after two
    steps of the first goroutine and one of the third. *)
Lemma three_steps_can_be_completed :
  exists cfg rest c' out err,
    run registered stopped_clock [0; 0; 2]%nat
      (initial registered volumes_only) = Some cfg /\
    Collect registered volumes_only stopped_clock ([0; 0; 2]%nat ++ rest)
    = Some (c', out, err).
Proof.
  destruct (run registered stopped_clock [0; 0; 2]%nat
              (initial registered volumes_only)) as [cfg|] eqn:E;
    [|vm_compute in E; discriminate E].
  exists cfg.
  destruct (every_partial_run_can_be_completed registered stopped_clock
              volumes_only _ _ E) as (rest & c' & out & err & H).
  exists rest, c', out, err. split; [reflexivity|exact H].
Defined.

(** X15 (an instance). The scrape with the volumes only, in which two
    children fail, under the schedule in which their goroutines both
    read the failure count first. *)
Lemma failure_count_of_two_failed_children :
  exists c' out err,
    Collect registered volumes_only stopped_clock both_read_first
    = Some (c', out, err) /\
    0 <= dfsrChildCollectorFailure c'
    <= 0 + Z.of_nat (length (failing registered volumes_only)) /\
    (failing registered volumes_only <> [] ->
     0 + 1 <= dfsrChildCollectorFailure c').
Proof.
  destruct (Collect registered volumes_only stopped_clock both_read_first)
    as [[[c' out] err]|] eqn:E; [|vm_compute in E; discriminate E].
  exists c', out, err. split; [reflexivity|].
  refine (failure_count_grows_by_at_most_the_failures registered
            stopped_clock volumes_only both_read_first c' out err _ _ E);
    vm_compute; [discriminate|reflexivity].
Defined.

(** X16 (an instance). The scrape with the volumes only, goroutines in
    turn. *)
Lemma failure_count_of_two_failed_children_in_turn :
  (- 2 ^ 63 <= dfsrChildCollectorFailure registered) /\
  exists c' out err,
    Collect registered volumes_only stopped_clock
      (in_turn (started registered volumes_only)) = Some (c', out, err) /\
    dfsrChildCollectorFailure c'
    = dfsrChildCollectorFailure registered
      + Z.of_nat (length (failing registered volumes_only)).
Proof.
  assert (- 2 ^ 63 <= dfsrChildCollectorFailure registered) as H
    by (vm_compute; discriminate).
  assert (dfsrChildCollectorFailure registered
          + Z.of_nat (size (dfsrChildCollectors registered)) < 2 ^ 63) as H'
    by (vm_compute; reflexivity).
  exact (conj H (failure_count_is_exact_in_turn registered stopped_clock
                   volumes_only H H')).
Defined.

(** X17 (an instance). The scrape of one row of each object:
    6 + 5 + 27 + 9 samples. *)
Lemma samples_of_one_row_each :
  exists c' out err,
    Collect with_rows all_objects stopped_clock
      (in_turn (started with_rows all_objects)) = Some (c', out, err) /\
    length out
    = (6 + 5 * length (volumes one_volume all_objects)
       + 27 * length (folders one_folder all_objects)
       + 9 * length (connections one_connection all_objects))%nat /\
    filter (fun m => ~ is_meta one_connection one_folder one_volume "wmi" 0 m)
      out
    ≡ₚ data one_connection one_folder one_volume "wmi" 0 all_objects /\
    Forall labelled out.
Proof.
  destruct (Collect with_rows all_objects stopped_clock
              (in_turn (started with_rows all_objects)))
    as [[[c' out] err]|] eqn:E; [|vm_compute in E; discriminate E].
  exists c', out, err. split; [reflexivity|].
  exact (scrape_sends_the_rows_and_six_more one_connection one_folder
           one_volume "wmi" 0 all_objects stopped_clock _ c' out err E).
Defined.

(** X18 (an instance). The connection and the folder are both named
    [group]. *)
Lemma samples_of_a_connection_and_a_folder_of_one_name :
  exists c' out err m1 m2,
    Collect with_rows all_objects stopped_clock
      (in_turn (started with_rows all_objects)) = Some (c', out, err) /\
    m1 ∈ out /\ m2 ∈ out /\
    fqName (desc m1) = fqName (desc m2) /\
    help (desc m1) <> help (desc m2) /\
    labelValues m1 = ["group"] /\ labelValues m2 = ["group"].
Proof.
  destruct (Collect with_rows all_objects stopped_clock
              (in_turn (started with_rows all_objects)))
    as [[[c' out] err]|] eqn:E; [|vm_compute in E; discriminate E].
  destruct (connection_and_folder_samples_share_a_name one_connection
              one_folder one_volume "wmi" 0 all_objects stopped_clock _
              c' out err
              (PerflibDFSRConnection.mk "group"%string 1 2 3 4 5 6 7 8 9)%float
              (PerflibDFSRFolder.mk "group"%string 1 2 3 4 5 6 7 8 9 10 11 12
                 13 14 15 16 17 18 19 20 21 22 23 24 25 26 27)%float
              E ltac:(left) ltac:(left))
    as (m1 & m2 & H).
  exists c', out, err, m1, m2. split; [reflexivity|exact H].
Defined.

End DfsrFacts.

(** ** The container collector *)

Module ContainerFacts.

Import Container.


Section Scrape.
Variable container : Type.
Variable OpenContainer : string -> error + container.
Variable ContainerStatistics : container -> error + hcsshim.Statistics.
Variable ticksToSecondsScaleFactor : float64.
Variable Namespace : string.

(** The statistics of a container that can be opened and read. *)
Definition statistics_of (containerDetails : hcsshim.ContainerProperties)
  : option hcsshim.Statistics :=
  match OpenContainer (hcsshim.ID containerDetails) with
  | inl _ => None
  | inr container =>
      match ContainerStatistics container with
      | inl _ => None
      | inr cstats => Some cstats
      end
  end.

(** How many samples a container accounts for: seven of its own and six
    for each of its interfaces, if it can be opened and read. *)
Definition samples_of (containerDetails : hcsshim.ContainerProperties) : nat :=
  match statistics_of containerDetails with
  | Some cstats => 7 + 6 * length (hcsshim.Network cstats)
  | None => 0
  end.

Lemma collect_container_length c containerDetails :
  length (collect_container container OpenContainer ContainerStatistics
            ticksToSecondsScaleFactor c containerDetails)
  = samples_of containerDetails.
Proof.
  unfold collect_container, samples_of, statistics_of.
  destruct (OpenContainer _) as [|h]; [done|].
  destruct (ContainerStatistics h) as [|cstats]; [done|].
  rewrite length_app. cbn [length]. f_equal.
  unfold len. destruct (hcsshim.Network cstats) as [|i l] eqn:E; [done|].
  assert ((Z.of_nat (length (i :: l)) =? 0) = false) as ->
    by (simpl; lia).
  generalize (i :: l). intros l'. clear.
  induction l' as [|i l IH]; [done|].
  rewrite bind_cons, length_app, IH. simpl. lia.
Qed.

Lemma collect_containers_length c containers :
  length (containers ≫=
            collect_container container OpenContainer ContainerStatistics
              ticksToSecondsScaleFactor c)
  = sum_list (samples_of <$> containers).
Proof.
  induction containers as [|cd cds IH]; [done|].
  rewrite bind_cons, length_app, IH, collect_container_length. done.
Qed.

(** X19. Once [hcsshim.GetContainers] has answered, the scrape returns no
    error: a container that cannot be opened, or whose statistics cannot
    be read, is passed over, and the scrape sends seven samples, and six
    more per interface, for each of the others. *)
Theorem unreadable_containers_are_passed_over
    (c : ContainerMetricsCollector)
    (containers : list hcsshim.ContainerProperties) :
  let r := collect container (inr containers) OpenContainer
             ContainerStatistics ticksToSecondsScaleFactor c in
  r.2 = None /\
  length r.1 = sum_list (samples_of <$> containers) /\
  r.1 = (containerDetails ←
           filter (fun cd => is_Some (statistics_of cd)) containers;
         collect_container container OpenContainer ContainerStatistics
           ticksToSecondsScaleFactor c containerDetails).
Proof.
  cbv zeta. unfold collect.
  destruct (len containers =? 0) eqn:E.
  - assert (containers = []) as ->
      by (apply nil_length_inv; unfold len in E; lia).
    done.
  - cbn [fst snd]. split; [done|]. split; [apply collect_containers_length|].
    clear E. induction containers as [|cd cds IH]; [done|].
    rewrite bind_cons, IH.
    destruct (decide (is_Some (statistics_of cd))) as [Hs|Hn].
    + now rewrite filter_cons_True, bind_cons by done.
    + rewrite filter_cons_False by done.
      unfold statistics_of, collect_container in *.
      destruct (OpenContainer _) as [|h]; [done|].
      destruct (ContainerStatistics h) as [|cstats]; [done|].
      exfalso. apply Hn. eauto.
Qed.

(** X20. Every sample of a scrape has as many label values as its
    descriptor has labels, and its first label value is [docker://]
    followed by the ID of one of the containers. *)
Theorem container_samples_are_labelled
    (GetContainers : error + list hcsshim.ContainerProperties) :
  Forall (fun m =>
            labelled m /\
            exists containerDetails rest,
              GetContainers = inr rest /\ containerDetails ∈ rest /\
              head (labelValues m)
              = Some ("docker://" +:+ hcsshim.ID containerDetails))
    (collect container GetContainers OpenContainer ContainerStatistics
       ticksToSecondsScaleFactor (NewContainerMetricsCollector Namespace)).1.
Proof.
  unfold collect. destruct GetContainers as [err|containers]; [constructor|].
  destruct (len containers =? 0); [constructor|]. cbn [fst].
  apply Forall_bind, Forall_forall. intros cd Hcd.
  unfold compose, collect_container.
  destruct (OpenContainer _) as [|h]; [constructor|].
  destruct (ContainerStatistics h) as [|cstats]; [constructor|].
  apply Forall_app. split.
  - repeat (apply Forall_cons; split; [split; [done|eauto]|]). constructor.
  - destruct (len _ =? 0); [constructor|].
    apply Forall_bind, Forall_forall. intros i _.
    unfold compose, collect_interface.
    repeat (apply Forall_cons; split; [split; [done|eauto]|]). constructor.
Qed.

End Scrape.

End ContainerFacts.

(** ** Collectors with nothing to report *)

Module CollectorFacts.

Import Regexp.

(** C8. A collection that finds nothing to report ends without an error
    and sends no sample: the network interface collector when the query
    answers rows of which none passes the filter (none at all
    included); the container collector when the node has no container;
    the SMART collector when the query answers no active disk; and each
    child of the DFSR collector when its object unmarshals to no
    rows. *)
Theorem nothing_to_report_is_success
    (Namespace : string) (nicWhitelist nicBlacklist : syntax)
    (nics : list Net.Win32_PerfRawData_Tcpip_NetworkInterface.t)
    (container : Type) (OpenContainer : string -> error + container)
    (ContainerStatistics : container -> error + Container.hcsshim.Statistics)
    (ticksToSecondsScaleFactor : float64)
    (disks : list Smart.MSStorageDriver_ATAPISmartData.t)
    (perfObject : Type) (ctx : Dfsr.ScrapeContext perfObject)
    (dfsr : Dfsr.DFSRCollector perfObject) :
  (forall nic, nic ∈ nics ->
     let Name := Net.Win32_PerfRawData_Tcpip_NetworkInterface.Name nic in
     matches_in_full nicBlacklist Name \/
     ~ matches_in_full nicWhitelist Name \/
     Name = "") ->
  (forall disk, disk ∈ disks ->
     Smart.MSStorageDriver_ATAPISmartData.Active disk = false) ->
  Net.collect (Net.NewNetworkCollector Namespace nicWhitelist nicBlacklist)
    (inr nics) = ([], None) /\
  Net.collect (Net.NewNetworkCollector Namespace nicWhitelist nicBlacklist)
    (inr []) = ([], None) /\
  Container.collect container (inr []) OpenContainer ContainerStatistics
    ticksToSecondsScaleFactor
    (Container.NewContainerMetricsCollector Namespace) = ([], None) /\
  Smart.collect (Smart.NewSMARTCollector Namespace) (inr disks)
    = Ok ([], [], None) /\
  Dfsr.collectConnection (fun _ => inr []) dfsr ctx = ([], None) /\
  Dfsr.collectFolder (fun _ => inr []) dfsr ctx = ([], None) /\
  Dfsr.collectVolume (fun _ => inr []) dfsr ctx = ([], None).
Proof.
  intros Hnics Hdisks. repeat split.
  - unfold Net.collect. f_equal.
    induction nics as [|nic nics IH]; [done|].
    rewrite bind_cons, IH by (intros; apply Hnics; now right).
    rewrite app_nil_r.
    destruct (Net.collect_nic _ nic) eqn:E; [done|]. exfalso.
    assert (Net.collect_nic
              (Net.NewNetworkCollector Namespace nicWhitelist nicBlacklist)
              nic <> []) as Hne by (rewrite E; done).
    apply NetFacts.collect_nic_included in Hne as (Hw & Hb & Hn).
    destruct (Hnics nic) as [?|[?|?]]; [left|done|done|done].
  - unfold Smart.collect.
    assert (Smart.collect_disks (Smart.NewSMARTCollector Namespace) disks
            = Ok ([], [])) as ->; [|done].
    induction disks as [|disk disks IH]; [done|].
    simpl. unfold Smart.collect_disk.
    rewrite (Hdisks disk) by left. simpl.
    rewrite IH by (intros; apply Hdisks; now right). done.
Qed.

(** C8 (an instance). The only interface is [Loopback] and the
    blacklist is [^Loopback$]; the only disk is not active. *)
Lemma only_the_loopback_interface :
  let nics :=
    [Net.Win32_PerfRawData_Tcpip_NetworkInterface.mk
       1 2 3 "Loopback" 4 5 6 7 8 9 10 11] in
  let disks :=
    [Smart.MSStorageDriver_ATAPISmartData.mk "disk0" false 0 0 0 []] in
  Net.collect
    (Net.NewNetworkCollector "wmi" NetFacts.dot_plus NetFacts.Loopback_only)
    (inr nics) = ([], None) /\
  Net.collect
    (Net.NewNetworkCollector "wmi" NetFacts.dot_plus NetFacts.Loopback_only)
    (inr []) = ([], None) /\
  Container.collect unit (inr []) (fun _ => inl "no such container")
    (fun _ => inl "no statistics") 0%float
    (Container.NewContainerMetricsCollector "wmi") = ([], None) /\
  Smart.collect (Smart.NewSMARTCollector "wmi") (inr disks)
    = Ok ([], [], None) /\
  Dfsr.collectConnection (fun _ => inr []) DfsrFacts.registered
    DfsrFacts.all_objects = ([], None) /\
  Dfsr.collectFolder (fun _ => inr []) DfsrFacts.registered
    DfsrFacts.all_objects = ([], None) /\
  Dfsr.collectVolume (fun _ => inr []) DfsrFacts.registered
    DfsrFacts.all_objects = ([], None).
Proof.
  intros nics disks.
  refine (nothing_to_report_is_success "wmi" NetFacts.dot_plus
            NetFacts.Loopback_only nics unit _ _ _ disks unit
            DfsrFacts.all_objects DfsrFacts.registered _ _).
  - intros nic ->%list_elem_of_singleton. left.
    apply (bool_decide_unpack _). vm_compute. exact I.
  - intros disk ->%list_elem_of_singleton. reflexivity.
Defined.


(** *** The names of the descriptors *)

Lemma append_inj_r (p a b : string) : p +:+ a = p +:+ b -> a = b.
Proof.
  induction p as [|x p IH]; [done|]. intros [= H]. now apply IH.
Qed.

(** [BuildFQName] gives names that are not empty fully qualified names
    of their own. *)
Lemma BuildFQName_inj namespace subsystem name1 name2 :
  name1 <> "" -> name2 <> "" ->
  BuildFQName namespace subsystem name1
  = BuildFQName namespace subsystem name2 ->
  name1 = name2.
Proof.
  unfold BuildFQName. intros H1 H2.
  rewrite !(decide_False (P := _ = "")) by done.
  repeat destruct (decide _); intros E;
    repeat (apply append_inj_r in E); exact E.
Qed.

Lemma NoDup_BuildFQName namespace subsystem names :
  Forall (fun name => name <> "") names -> NoDup names ->
  NoDup (BuildFQName namespace subsystem <$> names).
Proof.
  intros Hne Hnd.
  induction Hnd as [|name names Hnotin Hnd IH]; [constructor|].
  apply Forall_cons in Hne as [Hname Hne]. rewrite fmap_cons.
  apply NoDup_cons. split; [|now apply IH].
  intros (name' & E & Hin)%list_elem_of_fmap.
  rewrite Forall_forall in Hne.
  apply BuildFQName_inj in E; [congruence|done|auto].
Qed.

(** The descriptors of the three collectors, in the order of the
    fields. *)
Definition smart_descriptors (c : Smart.SMARTCollector) : list Desc :=
  [ Smart.SelfTestStatus c; Smart.TotalTime c; Smart.Capability c ].

Definition net_descriptors (c : Net.NetworkCollector) : list Desc :=
  [ Net.BytesReceivedTotal c; Net.BytesSentTotal c; Net.BytesTotal c;
    Net.PacketsOutboundDiscarded c; Net.PacketsOutboundErrors c;
    Net.PacketsReceivedDiscarded c; Net.PacketsReceivedErrors c;
    Net.PacketsReceivedTotal c; Net.PacketsReceivedUnknown c;
    Net.PacketsTotal c; Net.PacketsSentTotal c ].

Definition container_descriptors (c : Container.ContainerMetricsCollector)
  : list Desc :=
  [ Container.ContainerAvailable c; Container.UsageCommitBytes c;
    Container.UsageCommitPeakBytes c; Container.UsagePrivateWorkingSetBytes c;
    Container.TotalRuntime100ns c; Container.RuntimeUser100ns c;
    Container.RuntimeKernel100ns c; Container.BytesReceived c;
    Container.BytesSent c; Container.PacketsReceived c;
    Container.PacketsSent c; Container.DroppedPacketsIncoming c;
    Container.DroppedPacketsOutgoing c ].

Definition dfsr_connection_descriptors {perfObject}
    (c : Dfsr.DFSRCollector perfObject) : list Desc :=
  [ Dfsr.ConnectionBandwidthSavingsUsingDFSReplicationTotal c;
    Dfsr.ConnectionBytesReceivedTotal c;
    Dfsr.ConnectionCompressedSizeOfFilesReceivedTotal c;
    Dfsr.ConnectionFilesReceivedTotal c;
    Dfsr.ConnectionRDCBytesReceivedTotal c;
    Dfsr.ConnectionRDCCompressedSizeOfFilesReceivedTotal c;
    Dfsr.ConnectionRDCNumberofFilesReceivedTotal c;
    Dfsr.ConnectionRDCSizeOfFilesReceivedTotal c;
    Dfsr.ConnectionSizeOfFilesReceivedTotal c ].

Definition dfsr_folder_descriptors {perfObject}
    (c : Dfsr.DFSRCollector perfObject) : list Desc :=
  [ Dfsr.FolderBandwidthSavingsUsingDFSReplicationTotal c;
    Dfsr.FolderCompressedSizeOfFilesReceivedTotal c;
    Dfsr.FolderConflictBytesCleanedupTotal c;
    Dfsr.FolderConflictBytesGeneratedTotal c;
    Dfsr.FolderConflictFilesCleanedUpTotal c;
    Dfsr.FolderConflictFilesGeneratedTotal c;
    Dfsr.FolderConflictFolderCleanupsCompletedTotal c;
    Dfsr.FolderConflictSpaceInUse c;
    Dfsr.FolderDeletedSpaceInUse c;
    Dfsr.FolderDeletedBytesCleanedUpTotal c;
    Dfsr.FolderDeletedBytesGeneratedTotal c;
    Dfsr.FolderDeletedFilesCleanedUpTotal c;
    Dfsr.FolderDeletedFilesGeneratedTotal c;
    Dfsr.FolderFileInstallsRetriedTotal c;
    Dfsr.FolderFileInstallsSucceededTotal c;
    Dfsr.FolderFilesReceivedTotal c;
    Dfsr.FolderRDCBytesReceivedTotal c;
    Dfsr.FolderRDCCompressedSizeOfFilesReceivedTotal c;
    Dfsr.FolderRDCNumberofFilesReceivedTotal c;
    Dfsr.FolderRDCSizeOfFilesReceivedTotal c;
    Dfsr.FolderSizeOfFilesReceivedTotal c;
    Dfsr.FolderStagingSpaceInUse c;
    Dfsr.FolderStagingBytesCleanedUpTotal c;
    Dfsr.FolderStagingBytesGeneratedTotal c;
    Dfsr.FolderStagingFilesCleanedUpTotal c;
    Dfsr.FolderStagingFilesGeneratedTotal c;
    Dfsr.FolderUpdatesDroppedTotal c ].

Definition dfsr_volume_descriptors {perfObject}
    (c : Dfsr.DFSRCollector perfObject) : list Desc :=
  [ Dfsr.VolumeDatabaseCommitsTotal c;
    Dfsr.VolumeDatabaseLookupsTotal c;
    Dfsr.VolumeUSNJournalUnreadPercentage c;
    Dfsr.VolumeUSNJournalRecordsAcceptedTotal c;
    Dfsr.VolumeUSNJournalRecordsReadTotal c ].

Ltac distinct_names names :=
  apply (NoDup_BuildFQName _ _ names);
  [ repeat (apply Forall_cons; split; [done|]); constructor
  | apply (bool_decide_unpack _); vm_compute; exact I ].

(** X21. Whatever the namespace, no two descriptors of the SMART
    collector have the same fully qualified name, and the same holds
    for the network interface collector, for the container collector,
    and for the descriptors of each one child of the DFSR collector. *)
Theorem descriptors_have_names_of_their_own (Namespace : string)
    (nicWhitelist nicBlacklist : Regexp.syntax) (perfObject : Type)
    (unmarshalConnection :
       option perfObject -> error + list Dfsr.PerflibDFSRConnection.t)
    (unmarshalFolder :
       option perfObject -> error + list Dfsr.PerflibDFSRFolder.t)
    (unmarshalVolume :
       option perfObject -> error + list Dfsr.PerflibDFSRVolume.t) :
  let dfsr :=
    Dfsr.NewDFSRCollector unmarshalConnection unmarshalFolder
      unmarshalVolume Namespace in
  NoDup (fqName <$> smart_descriptors (Smart.NewSMARTCollector Namespace)) /\
  NoDup (fqName <$>
           net_descriptors
             (Net.NewNetworkCollector Namespace nicWhitelist nicBlacklist)) /\
  NoDup (fqName <$>
           container_descriptors
             (Container.NewContainerMetricsCollector Namespace)) /\
  NoDup (fqName <$> dfsr_connection_descriptors dfsr) /\
  NoDup (fqName <$> dfsr_folder_descriptors dfsr) /\
  NoDup (fqName <$> dfsr_volume_descriptors dfsr).
Proof.
  intros dfsr. split; [|split; [|split; [|split; [|split]]]].
  - distinct_names ["selftest_status"; "total_time"; "capability"].
  - distinct_names
      ["bytes_received_total"; "bytes_sent_total"; "bytes_total";
       "packets_outbound_discarded"; "packets_outbound_errors";
       "packets_received_discarded"; "packets_received_errors";
       "packets_received_total"; "packets_received_unknown";
       "packets_total"; "packets_sent_total"].
  - distinct_names
      ["available"; "memory_usage_commit_bytes";
       "memory_usage_commit_peak_bytes";
       "memory_usage_private_working_set_bytes"; "cpu_usage_seconds_total";
       "cpu_usage_seconds_usermode"; "cpu_usage_seconds_kernelmode";
       "network_receive_bytes_total"; "network_transmit_bytes_total";
       "network_receive_packets_total"; "network_transmit_packets_total";
       "network_receive_packets_dropped_total";
       "network_transmit_packets_dropped_total"].
  - distinct_names
      ["bandwidth_savings_using_dfs_replication_total";
       "bytes_received_total"; "compressed_size_of_files_received_total";
       "files_received_total"; "rdc_bytes_received_total";
       "rdc_compressed_size_of_files_received_total";
       "rdc_number_of_files_received_total";
       "rdc_size_of_files_received_total"; "size_of_files_received_total"].
  - distinct_names
      ["bandwidth_savings_using_dfs_replication_total";
       "compressed_size_of_files_received_total";
       "conflict_bytes_cleaned_up_total"; "conflict_bytes_generated_total";
       "conflict_files_cleaned_up_total"; "conflict_files_generated_total";
       "conflict_folder_cleanups_total"; "conflict_space_in_use";
       "deleted_space_in_use"; "deleted_bytes_cleaned_up_total";
       "deleted_bytes_generated_total"; "deleted_files_cleaned_up_total";
       "deleted_files_generated_total"; "file_installs_retried_total";
       "file_installs_succeeded_total"; "files_received_total";
       "rdc_bytes_received_total";
       "rdc_compressed_size_of_files_received_total";
       "rdc_number_of_files_received_total";
       "rdc_size_of_files_received_total"; "size_of_files_received_total";
       "staging_space_in_use"; "staging_bytes_cleaned_up_total";
       "staging_bytes_generated_total"; "staging_files_cleaned_up_total";
       "staging_files_generated_total"; "updates_dropped_total"].
  - distinct_names
      ["database_commits_total"; "database_lookups_total";
       "usn_journal_unread_percentage"; "usn_journal_records_accepted_total";
       "usn_journal_records_read_total"].
Qed.

End CollectorFacts.
